(** * Table-of-contents engine of the PDF generator

    A shallow embedding of [src/generators/toc-utils.ts], of the TOC
    part of [src/generators/pdf/toc.ts] (insertion, page-number
    matching, rendering, page offsets) and of [parsePublishOptions] of
    [src/action/publish/index.ts], with the properties the specification
    states about them and further properties read off the code.

    Conventions of the embedding.
    - A JavaScript string is a [string]: a sequence of code units, here
      the Latin-1 range (one [ascii] per code unit).
    - A JavaScript number used as a level, a counter, an index or a page
      number is an integer ([Z], or [nat] for an array index).  A number
      of the page geometry, which may be fractional (A4 is 595.28 x
      841.89 points), is held by its value, a rational ([Q]).  The room
      for entries on a page is computed on the numbers themselves, in
      IEEE 754 binary64 arithmetic, since [Math.floor] turns a rounding
      error into a whole entry; the coordinates of what is drawn are
      computed on the values.
    - A call ends in one of three ways, [Returned], [Throws] or
      [Diverges]; the measuring and drawing primitives of the PDF
      library are fields of the layout context, and may throw.
    - An optional property ([numbering?], [pageNumber?], the fields of
      the raw configuration) is an [option]; [undefined] is [None].
    - A function that mutates its argument in place returns the updated
      value. *)

From Stdlib Require Import Ascii String Numbers.DecimalString.
From Stdlib Require Import Bool Arith ZArith QArith Qround Lia List.
From Stdlib Require DecimalPos DecimalZ.
From Stdlib Require Import Lqa.
From Stdlib Require Import Floats.SpecFloat.
Import ListNotations.

Local Open Scope string_scope.
Local Open Scope Z_scope.
Local Open Scope list_scope.

(* ===================================================================== *)
(** * Content model ([types/schema.ts], as used by the TOC code) *)
(* ===================================================================== *)

(** Modelled from the spec: [SchemaContentElement] is declared in
    [types/schema.ts], which is not among the sources.  The spec gives
    the closed sum [heading | paragraph | table | field | admonition |
    rule | spacer]; the TOC code reads [type], and [level] and [text] of
    a heading, only. *)
Inductive SchemaContentElement : Type :=
| Heading (level : Z) (text : string)
| Paragraph (text : string)
| Table
| Field
| Admonition (text : string)
| Rule
| Spacer.

(** Modelled from the spec: the raw, possibly partial, TOC configuration
    ([TableOfContents] of [types/schema.ts]); every property optional. *)
Record TableOfContents : Type := mkTableOfContents {
  toc_enabled : option bool;
  toc_title : option string;
  toc_minLevel : option Z;
  toc_maxLevel : option Z;
  toc_numbered : option bool;
  toc_showPageNumbers : option bool
}.

(* ===================================================================== *)
(** * [toc-utils.ts] *)
(* ===================================================================== *)

Module TocUtils.

Record ResolvedTocConfig : Type := mkResolvedTocConfig {
  enabled : bool;
  title : string;
  minLevel : Z;
  maxLevel : Z;
  numbered : bool;
  showPageNumbers : bool
}.

Record TocEntry : Type := mkTocEntry {
  text : string;
  level : Z;
  anchorId : string;
  numbering : option string;
  pageNumber : option Z
}.

(** [a ?? b] *)
Definition nullish {A : Type} (a : option A) (b : A) : A :=
  match a with Some x => x | None => b end.

(** [o !== false] *)
Definition notFalse (o : option bool) : bool :=
  match o with Some false => false | _ => true end.

Definition resolveTocConfig (toc : option TableOfContents) : option ResolvedTocConfig :=
  match toc with
  | None => None
  | Some toc =>
      match toc_enabled toc with
      | Some false => None
      | _ =>
          Some {| enabled := notFalse (toc_enabled toc);
                  title := nullish (toc_title toc) "Table of Contents";
                  minLevel := nullish (toc_minLevel toc) 1;
                  maxLevel := nullish (toc_maxLevel toc) 3;
                  numbered := nullish (toc_numbered toc) false;
                  showPageNumbers := notFalse (toc_showPageNumbers toc) |}
      end
  end.

(** ** [generateAnchorId] *)

Definition code (c : ascii) : N := N_of_ascii c.

Definition inRange (lo hi : N) (c : ascii) : bool :=
  ((lo <=? code c) && (code c <=? hi))%N.

Definition isUpper (c : ascii) : bool := inRange 65 90 c.
Definition isLower (c : ascii) : bool := inRange 97 122 c.
Definition isDigit (c : ascii) : bool := inRange 48 57 c.
Definition isHyphen (c : ascii) : bool := (code c =? 45)%N.

(** [\w] is [[A-Za-z0-9_]]. *)
Definition isWord (c : ascii) : bool :=
  isUpper c || isLower c || isDigit c || (code c =? 95)%N.

(** [\s] within Latin-1: TAB, LF, VT, FF, CR, SPACE and NBSP. *)
Definition isSpace (c : ascii) : bool :=
  inRange 9 13 c || (code c =? 32)%N || (code c =? 160)%N.

(** [String.prototype.toLowerCase] on one Latin-1 code unit: [A-Z], and
    the accented capitals U+00C0..U+00DE except the multiplication sign
    U+00D7, move up by 32. *)
Definition lowerChar (c : ascii) : ascii :=
  if isUpper c || (inRange 192 222 c && negb (code c =? 215)%N)
  then ascii_of_N (code c + 32)
  else c.

Fixpoint toLowerCase (s : string) : string :=
  match s with
  | EmptyString => EmptyString
  | String c r => String (lowerChar c) (toLowerCase r)
  end.

(** [.replace(/[^\w\s-]/g, '')] *)
Fixpoint removeSpecial (s : string) : string :=
  match s with
  | EmptyString => EmptyString
  | String c r =>
      if isWord c || isSpace c || isHyphen c
      then String c (removeSpecial r)
      else removeSpecial r
  end.

(** [.replace(/p+/g, '-')] for a character class [p]: every maximal run
    of [p] characters becomes one hyphen.  [inRun] tells that the
    previous character belonged to a run whose hyphen is already out. *)
Fixpoint replaceRuns (p : ascii -> bool) (inRun : bool) (s : string) : string :=
  match s with
  | EmptyString => EmptyString
  | String c r =>
      if p c
      then (if inRun then replaceRuns p true r
            else String "-" (replaceRuns p true r))
      else String c (replaceRuns p false r)
  end.

(** [.replace(/^-|-$/g, '')]: the first alternative can only match at
    index 0 and consumes that hyphen; the second only at the last index,
    when that hyphen has not been consumed. *)
Definition dropLeadingHyphen (s : string) : string :=
  match s with
  | EmptyString => EmptyString
  | String c r => if isHyphen c then r else s
  end.

Fixpoint dropTrailingHyphen (s : string) : string :=
  match s with
  | EmptyString => EmptyString
  | String c EmptyString => if isHyphen c then EmptyString else s
  | String c r => String c (dropTrailingHyphen r)
  end.

Definition trimHyphens (s : string) : string :=
  dropTrailingHyphen (dropLeadingHyphen s).

Definition generateAnchorId (text : string) : string :=
  trimHyphens
    (replaceRuns isHyphen false
       (replaceRuns isSpace false
          (removeSpecial (toLowerCase text)))).

(** ** [extractTocEntries] *)

(** One iteration of the [for ... of content] loop: [continue] unless
    the element is a heading within the level range, else [push]. *)
Definition extractStep (config : ResolvedTocConfig)
  (entries : list TocEntry) (element : SchemaContentElement) : list TocEntry :=
  match element with
  | Heading lvl txt =>
      if (lvl <? minLevel config) || (lvl >? maxLevel config)
      then entries
      else entries ++ [ {| text := txt; level := lvl;
                           anchorId := generateAnchorId txt;
                           numbering := None; pageNumber := None |} ]
  | _ => entries
  end.

Definition extractTocEntries (content : list SchemaContentElement)
  (config : ResolvedTocConfig) : list TocEntry :=
  fold_left (extractStep config) content [].

(** ** [assignNumbering] *)

(** What a cell of the [counters] array can hold.  The array starts as
    seven zeros; a write past its end extends it, and the cells in
    between are holes, which read as [undefined]. *)
Inductive JsValue : Type :=
| JNum (n : Z)
| JNaN
| JUndefined.

(** [counters[i]] *)
Definition readIndex (counters : list JsValue) (i : nat) : JsValue :=
  nth i counters JUndefined.

(** [v + 1] as [++] computes it: [undefined] and [NaN] give [NaN]. *)
Definition increment (v : JsValue) : JsValue :=
  match v with
  | JNum n => JNum (n + 1)
  | _ => JNaN
  end.

(** [counters[i] = v]: in range the cell is replaced, out of range the
    array grows to length [i + 1]. *)
Definition writeIndex (counters : list JsValue) (i : nat) (v : JsValue) : list JsValue :=
  if (i <? length counters)%nat
  then firstn i counters ++ v :: skipn (S i) counters
  else counters ++ repeat JUndefined (i - length counters) ++ [v].

(** [for (let i = depth + 1; i < counters.length; i++) counters[i] = 0] *)
Definition resetDeeper (counters : list JsValue) (depth : nat) : list JsValue :=
  firstn (S depth) counters ++ repeat (JNum 0) (length counters - S depth).

(** [String(v)] as [Array.prototype.join] applies it: [undefined] is the
    empty string. *)
Definition Z_to_string (n : Z) : string := NilZero.string_of_int (Z.to_int n).

Definition joinItem (v : JsValue) : string :=
  match v with
  | JNum n => Z_to_string n
  | JNaN => "NaN"
  | JUndefined => ""
  end.

(** [parts.join('.')] *)
Definition join (parts : list JsValue) : string :=
  String.concat "." (map joinItem parts).

(** [for (let i = 0; i <= depth; i++) parts.push(counters[i])] *)
Definition collectParts (counters : list JsValue) (depth : nat) : list JsValue :=
  map (readIndex counters) (seq 0 (S depth)).

(** [Math.min(...entries.map((e) => e.level))] on a list with first
    element [e0]. *)
Definition minLevelOf (e0 : TocEntry) (entries : list TocEntry) : Z :=
  fold_left Z.min (map level entries) (level e0).

(** [entry.level - minLevel], an array index; it is never negative
    because [minLevel] is the least level of the list. *)
Definition depthOf (base : Z) (entry : TocEntry) : nat :=
  Z.to_nat (level entry - base).

Definition initialCounters : list JsValue := repeat (JNum 0) 7.

(** The counters after the increment and the reset of one iteration. *)
Definition bumpCounters (counters : list JsValue) (depth : nat) : list JsValue :=
  resetDeeper (writeIndex counters depth (increment (readIndex counters depth))) depth.

Definition setNumbering (entry : TocEntry) (s : string) : TocEntry :=
  {| text := text entry; level := level entry; anchorId := anchorId entry;
     numbering := Some s; pageNumber := pageNumber entry |}.

(** The body of the [for (const entry of entries)] loop, with the
    counters threaded through. *)
Fixpoint numberEntries (base : Z) (counters : list JsValue)
  (entries : list TocEntry) : list TocEntry :=
  match entries with
  | [] => []
  | entry :: rest =>
      let depth := depthOf base entry in
      let counters' := bumpCounters counters depth in
      setNumbering entry (join (collectParts counters' depth))
        :: numberEntries base counters' rest
  end.

Definition assignNumbering (entries : list TocEntry) : list TocEntry :=
  match entries with
  | [] => entries
  | e0 :: _ => numberEntries (minLevelOf e0 entries) initialCounters entries
  end.

End TocUtils.

(* ===================================================================== *)
(** * [pdf/toc.ts] *)
(* ===================================================================== *)

Module PdfToc.
Import TocUtils.

Definition TOC_TITLE_FONT_SIZE : Q := 18.
Definition TOC_ENTRY_FONT_SIZE : Q := 11.
Definition TOC_ENTRY_LINE_HEIGHT : Q := 20.
Definition TOC_INDENT_PER_LEVEL : Z := 20.
Definition TOC_TITLE_MARGIN_BOTTOM : Q := 24.
Definition DOT_LEADER_CHAR : string := ".".
Definition DOT_LEADER_SPACING : Q := 3.

(** Modelled from the spec: [DrawnElement] is declared in
    [pdf/layout.ts], which is not among the sources.  The matcher reads
    [type], [content] and [page]; the page is 1-indexed, absolute, and
    counts a cover page. *)
Record DrawnElement : Type := mkDrawnElement {
  de_type : string;
  de_content : string;
  de_page : Z
}.

(** The two standard fonts the renderer embeds. *)
Inductive Font : Type :=
| Helvetica
| HelveticaBold.

(** One call of [page.drawText(text, {x, y, size, font, color})].  The
    colour is the hex string handed to [hexToRgb] ([pdf/utils.ts] is not
    among the sources). *)
Record DrawText : Type := mkDrawText {
  dt_text : string;
  dt_x : Q;
  dt_y : Q;
  dt_size : Q;
  dt_font : Font;
  dt_color : string
}.

(** A page of the document: one that the layout pass produced, or a TOC
    page, which carries what [renderTocContent] draws on it (the title
    on the first one, and its chunk of entries). *)
Inductive Page : Type :=
| LaidOutPage (id : nat)
| TocPage (heading : option string) (lines : list TocEntry).

(** Modelled from the spec: the part of [LayoutContext] ([pdf/layout.ts])
    that [insertTocPages] and [renderTocContent] read or write.
    [ctx.doc] holds the same pages as [ctx.pages], so one list stands
    for both.  The page size and the margins are finite numbers, each
    held by its value.  The last two fields are the rendering surface
    behind [ctx.doc] and its pages, which is library code:
    [widthOfTextAtSize font text size] is what the embedded font
    measures, [None] when the call throws (a text the font cannot
    encode); [drawText font text] tells whether [page.drawText] draws
    the text in the font, [false] when it throws. *)
Record LayoutContext : Type := mkLayoutContext {
  pages : list Page;
  drawnElements : list DrawnElement;
  pageWidth : Q;
  pageHeight : Q;
  marginTop : Q;
  marginBottom : Q;
  marginLeft : Q;
  marginRight : Q;
  widthOfTextAtSize : Font -> string -> Q -> option Q;
  drawText : Font -> string -> bool
}.

(** ** [assignPageNumbersFromDrawnElements] *)

Definition isHeadingOrTitle (el : DrawnElement) : bool :=
  String.eqb (de_type el) "heading" || String.eqb (de_type el) "title".

Definition headingElementsOf (drawn : list DrawnElement) : list DrawnElement :=
  filter isHeadingOrTitle drawn.

(** The inner [for] loop, from index [i] on, [rest] being
    [headingElements] from that index: the index and the page of the
    first element whose content is the text, if there is one. *)
Fixpoint searchForward (rest : list DrawnElement) (i : nat) (txt : string)
  : option (nat * Z) :=
  match rest with
  | [] => None
  | el :: rest' =>
      if String.eqb (de_content el) txt then Some (i, de_page el)
      else searchForward rest' (S i) txt
  end.

Definition setPageNumber (entry : TocEntry) (p : option Z) : TocEntry :=
  {| text := text entry; level := level entry; anchorId := anchorId entry;
     numbering := numbering entry; pageNumber := p |}.

(** [entry.pageNumber ??= 1] *)
Definition defaultPageNumber (entry : TocEntry) : TocEntry :=
  match pageNumber entry with
  | Some _ => entry
  | None => setPageNumber entry (Some 1)
  end.

(** One iteration of the outer loop: the new [headingIdx] and the
    updated entry. *)
Definition matchEntry (headingElements : list DrawnElement) (hasCoverPage : bool)
  (headingIdx : nat) (entry : TocEntry) : nat * TocEntry :=
  match searchForward (skipn headingIdx headingElements) headingIdx (text entry) with
  | Some (i, page) =>
      (S i, defaultPageNumber
              (setPageNumber entry (Some (if hasCoverPage then page - 1 else page))))
  | None => (headingIdx, defaultPageNumber entry)
  end.

(** The outer loop, with [headingIdx] threaded through; it returns the
    final cursor too. *)
Fixpoint matchEntries (headingElements : list DrawnElement) (hasCoverPage : bool)
  (headingIdx : nat) (entries : list TocEntry) : nat * list TocEntry :=
  match entries with
  | [] => (headingIdx, [])
  | entry :: rest =>
      let '(idx', entry') := matchEntry headingElements hasCoverPage headingIdx entry in
      let '(final, rest') := matchEntries headingElements hasCoverPage idx' rest in
      (final, entry' :: rest')
  end.

Definition assignPageNumbersFromDrawnElements (entries : list TocEntry)
  (drawn : list DrawnElement) (hasCoverPage : bool) : list TocEntry :=
  snd (matchEntries (headingElementsOf drawn) hasCoverPage 0 entries).

(** The value of [headingIdx] when the loop reaches the entry at index
    [k]: the cursor the code holds after the first [k] entries. *)
Definition cursorBefore (entries : list TocEntry) (drawn : list DrawnElement)
  (hasCoverPage : bool) (k : nat) : nat :=
  fst (matchEntries (headingElementsOf drawn) hasCoverPage 0 (firstn k entries)).

(** ** [adjustPageNumberOffset] *)

Record PageOffset : Type := mkPageOffset {
  startPage : Z;
  contentPageCount : Z
}.

Definition adjustPageNumberOffset (tocPageCount : Z) (hasCoverPage : bool)
  (totalPages : Z) : PageOffset :=
  let startPage := if hasCoverPage then 1 + tocPageCount else tocPageCount in
  let contentPageCount := totalPages - startPage in
  {| startPage := startPage; contentPageCount := contentPageCount |}.

(** ** How a call ends *)

(** A call returns, it throws, or it does not return. *)
Inductive Outcome (A : Type) : Type :=
| Returned (a : A)
| Throws
| Diverges.
Arguments Returned {A} a.
Arguments Throws {A}.
Arguments Diverges {A}.

(** Sequencing: what follows a call runs only if the call returns. *)
Definition bind {A B : Type} (m : Outcome A) (k : A -> Outcome B) : Outcome B :=
  match m with
  | Returned a => k a
  | Throws => Throws
  | Diverges => Diverges
  end.

Notation "x <- m ;; k" := (bind m (fun x => k))
  (at level 61, m at next level, right associativity).

(** ** The arithmetic of the page count *)

(** [contentHeight] and [entriesPerPage] are computed on JavaScript
    numbers: IEEE 754 binary64, every operation rounded to the nearest
    number, ties to even.  The operations are those of the Standard
    Library's specification of binary64 ([SpecFloat]). *)
Module Binary64.

Definition prec : Z := 53.
Definition emax : Z := 1024.

(** An integer as a number: exact up to 2^53, rounded beyond. *)
Definition ofZ (z : Z) : spec_float := SpecFloat.binary_normalize prec emax z 0 false.

(** The number that holds the value [q]: [q] itself when it is a
    binary64 number, and else the number nearest to it, which is what a
    numeric literal of that value denotes (numerator and denominator
    below 2^53 are exact, so that the quotient is rounded once). *)
Definition number (q : Q) : spec_float :=
  SpecFloat.SFdiv prec emax (ofZ (Qnum q)) (ofZ (Zpos (Qden q))).

(** [x - y] *)
Definition sub (x y : spec_float) : spec_float := SpecFloat.SFsub prec emax x y.

(** [x / y] *)
Definition div (x y : spec_float) : spec_float := SpecFloat.SFdiv prec emax x y.

(** [Math.floor(x)] as an integer: the floor of [x] when [x] is finite,
    which it is for every page whose height and margins are below
    2^1023 points.  Beyond that a difference can overflow to an
    infinity; [insertTocPages] then rounds [n / Infinity = 0] up to one
    page and finds [0 * Infinity = NaN] for the first entry of that
    page, so that it puts in one page with no entry on it, which is
    what it does for a negative integer: [-1] stands for an infinity.
    NaN needs a height or a margin beyond the range of binary64, which
    is the height or the margin of no page.  A
    quotient of [-0] does not arise: [x - 24] is [+0] when it is zero,
    and else too large for the quotient to vanish. *)
Definition Math_floor (x : spec_float) : Z :=
  match x with
  | S754_zero _ => 0
  | S754_finite s m e =>
      let n := if s then Z.neg m else Z.pos m in
      if 0 <=? e then n * 2 ^ e else n / 2 ^ (- e)
  | S754_infinity _ => -1
  | S754_nan => -1
  end.

End Binary64.

(** ** [insertTocPages]: the page count *)

Definition contentHeight (ctx : LayoutContext) : spec_float :=
  Binary64.sub
    (Binary64.sub
       (Binary64.sub
          (Binary64.sub (Binary64.number (pageHeight ctx))
             (Binary64.number (marginTop ctx)))
          (Binary64.number (marginBottom ctx)))
       (Binary64.number TOC_TITLE_FONT_SIZE))
    (Binary64.number TOC_TITLE_MARGIN_BOTTOM).

(** [Math.floor(contentHeight / TOC_ENTRY_LINE_HEIGHT)] *)
Definition entriesPerPage (ctx : LayoutContext) : Z :=
  Binary64.Math_floor
    (Binary64.div (contentHeight ctx) (Binary64.number TOC_ENTRY_LINE_HEIGHT)).

(** [Math.max(1, Math.ceil(entries.length / entriesPerPage))] for a
    positive [entries.length]; [None] is [Infinity], the value when
    [entriesPerPage] is 0. *)
Definition tocPageCountOf (entryCount : nat) (entriesPerPage : Z) : option Z :=
  if entriesPerPage =? 0 then None
  else Some (Z.max 1 (Qceiling (inject_Z (Z.of_nat entryCount) / inject_Z entriesPerPage))).

(** The entries as [insertTocPages] hands them to the renderer. *)
Definition preparedEntries (config : ResolvedTocConfig)
  (content : list SchemaContentElement) : list TocEntry :=
  let entries := extractTocEntries content config in
  if numbered config then assignNumbering entries else entries.

Definition tocEntriesOf (ctx : LayoutContext) (config : ResolvedTocConfig)
  (content : list SchemaContentElement) (hasCoverPage : bool) : list TocEntry :=
  assignPageNumbersFromDrawnElements (preparedEntries config content)
    (drawnElements ctx) hasCoverPage.

(** [entries.slice(startEntry, endEntry)] as the loop of
    [renderTocContent] walks it on the TOC page [pageIdx]. *)
Definition entriesOnPage (entries : list TocEntry) (entriesPerPage : Z) (pageIdx : nat)
  : list TocEntry :=
  let startEntry := Z.of_nat pageIdx * entriesPerPage in
  let endEntry := Z.min (startEntry + entriesPerPage) (Z.of_nat (length entries)) in
  firstn (Z.to_nat (endEntry - startEntry)) (skipn (Z.to_nat startEntry) entries).

(** The TOC pages after [renderTocContent]: the title on the first page
    only, and each page's chunk of entries. *)
Definition renderedTocPages (config : ResolvedTocConfig) (entries : list TocEntry)
  (tocPageCount : nat) (entriesPerPage : Z) : list Page :=
  map (fun pageIdx =>
         TocPage (if (pageIdx =? 0)%nat then Some (title config) else None)
                 (entriesOnPage entries entriesPerPage pageIdx))
      (seq 0 tocPageCount).

(** [ctx.pages.splice(insertIndex, 0, ...insertedPages)] *)
Definition splice (ps : list Page) (insertIndex : nat) (inserted : list Page) : list Page :=
  firstn insertIndex ps ++ inserted ++ skipn insertIndex ps.

Definition withPages (ctx : LayoutContext) (ps : list Page) : LayoutContext :=
  {| pages := ps; drawnElements := drawnElements ctx;
     pageWidth := pageWidth ctx; pageHeight := pageHeight ctx;
     marginTop := marginTop ctx; marginBottom := marginBottom ctx;
     marginLeft := marginLeft ctx; marginRight := marginRight ctx;
     widthOfTextAtSize := widthOfTextAtSize ctx; drawText := drawText ctx |}.

(** ** [renderTocContent] *)

(** What the renderer draws for one entry: its text, its page number if
    one is shown, and the dots of the leader, in drawing order. *)
Record EntryDrawing : Type := mkEntryDrawing {
  ed_text : DrawText;
  ed_pageNumber : option DrawText;
  ed_dots : list DrawText
}.

(** What the renderer draws on one TOC page. *)
Record PageDrawing : Type := mkPageDrawing {
  pd_title : option DrawText;
  pd_entries : list EntryDrawing
}.

(** [a < b] on numbers. *)
Definition Qltb (a b : Q) : bool := negb (Qle_bool b a).

(** [Math.min(...entries.map((e) => e.level))], evaluated inside the
    entry loop, hence on a list that is not empty. *)
Definition minLevelAll (entries : list TocEntry) : Z :=
  match entries with
  | [] => 0
  | e0 :: _ => minLevelOf e0 entries
  end.

Section Renderer.

Variable ctx : LayoutContext.
Variable config : ResolvedTocConfig.

(** [font.widthOfTextAtSize(text, size)] *)
Definition measure (font : Font) (s : string) (size : Q) : Outcome Q :=
  match widthOfTextAtSize ctx font s size with
  | Some w => Returned w
  | None => Throws
  end.

(** [page.drawText(text, {x, y, size, font, color})] with [page] being
    [ctx.pages[pageIndex]]: without a page at that index [page] is
    [undefined] and the call throws.  The call is handed back for the
    record of what was drawn. *)
Definition draw (pageIndex : nat) (call : DrawText) : Outcome DrawText :=
  match nth_error (pages ctx) pageIndex with
  | None => Throws
  | Some _ =>
      if drawText ctx (dt_font call) (dt_text call) then Returned call else Throws
  end.

(** [config.numbered && entry.numbering ? `${entry.numbering}  ${entry.text}` : entry.text];
    an empty numbering is falsy. *)
Definition displayText (entry : TocEntry) : string :=
  if numbered config
  then match numbering entry with
       | Some n => if String.eqb n "" then text entry
                   else (n ++ "  " ++ text entry)%string
       | None => text entry
       end
  else text entry.

Definition dotCall (dotX y : Q) : DrawText :=
  {| dt_text := DOT_LEADER_CHAR; dt_x := dotX; dt_y := y;
     dt_size := TOC_ENTRY_FONT_SIZE; dt_font := Helvetica; dt_color := "#999999" |}.

(** [while (dotX + dotWidth < dotsEndX) { draw; dotX += dotWidth + DOT_LEADER_SPACING }],
    run for [rounds] rounds at most; [Diverges] when the loop is still
    going after them. *)
Fixpoint dotLoop (pageIndex rounds : nat) (dotX dotWidth dotsEndX y : Q)
  : Outcome (list DrawText) :=
  if Qltb (dotX + dotWidth)%Q dotsEndX
  then match rounds with
       | O => Diverges
       | S rounds' =>
           dot <- draw pageIndex (dotCall dotX y) ;;
           dots <- dotLoop pageIndex rounds'
                     (dotX + (dotWidth + DOT_LEADER_SPACING))%Q dotWidth dotsEndX y ;;
           Returned (dot :: dots)
       end
  else Returned [].

(** The rounds after which the loop has stopped if it stops at all: with
    a positive step, the steps that take [dotX + dotWidth] up to
    [dotsEndX]; with a step that is not positive [dotX] never grows, and
    a loop that has gone one round goes on for ever. *)
Definition dotRounds (dotX dotWidth dotsEndX : Q) : nat :=
  if Qltb 0 (dotWidth + DOT_LEADER_SPACING)%Q
  then Z.to_nat (Qceiling ((dotsEndX - dotX - dotWidth)
                           / (dotWidth + DOT_LEADER_SPACING)))
  else 1%nat.

(** The body of the entry loop for one entry at height [y] of the page
    at [pageIndex]. *)
Definition drawEntry (pageIndex : nat) (minLevel : Z) (y : Q) (entry : TocEntry)
  : Outcome EntryDrawing :=
  let indent := inject_Z ((level entry - minLevel) * TOC_INDENT_PER_LEVEL) in
  let x := (marginLeft ctx + indent)%Q in
  let contentWidth := (pageWidth ctx - marginLeft ctx - marginRight ctx)%Q in
  textWidth <- measure Helvetica (displayText entry) TOC_ENTRY_FONT_SIZE ;;
  textCall <- draw pageIndex
                {| dt_text := displayText entry; dt_x := x; dt_y := y;
                   dt_size := TOC_ENTRY_FONT_SIZE; dt_font := Helvetica;
                   dt_color := "#333333" |} ;;
  match (if showPageNumbers config then pageNumber entry else None) with
  | Some p =>
      let pageNumText := Z_to_string p in
      pageNumWidth <- measure Helvetica pageNumText TOC_ENTRY_FONT_SIZE ;;
      let pageNumX := (marginLeft ctx + contentWidth - pageNumWidth)%Q in
      pageNumCall <- draw pageIndex
                       {| dt_text := pageNumText; dt_x := pageNumX; dt_y := y;
                          dt_size := TOC_ENTRY_FONT_SIZE; dt_font := Helvetica;
                          dt_color := "#555555" |} ;;
      let dotsStartX := (x + textWidth + 8)%Q in
      let dotsEndX := (pageNumX - 8)%Q in
      if Qltb dotsStartX dotsEndX
      then dotWidth <- measure Helvetica DOT_LEADER_CHAR TOC_ENTRY_FONT_SIZE ;;
           dots <- dotLoop pageIndex (dotRounds dotsStartX dotWidth dotsEndX)
                     dotsStartX dotWidth dotsEndX y ;;
           Returned {| ed_text := textCall; ed_pageNumber := Some pageNumCall;
                       ed_dots := dots |}
      else Returned {| ed_text := textCall; ed_pageNumber := Some pageNumCall;
                       ed_dots := [] |}
  | None => Returned {| ed_text := textCall; ed_pageNumber := None; ed_dots := [] |}
  end.

(** The entry loop of one page, [y] going down by the line height. *)
Fixpoint drawEntries (pageIndex : nat) (minLevel : Z) (y : Q) (entries : list TocEntry)
  : Outcome (list EntryDrawing) :=
  match entries with
  | [] => Returned []
  | entry :: rest =>
      d <- drawEntry pageIndex minLevel y entry ;;
      ds <- drawEntries pageIndex minLevel (y - TOC_ENTRY_LINE_HEIGHT)%Q rest ;;
      Returned (d :: ds)
  end.

(** The body of the page loop for the TOC page [pageIdx], which is the
    page at [startPageIndex + pageIdx] of the document. *)
Definition drawPage (entries : list TocEntry) (startPageIndex : nat)
  (entriesPerPage : Z) (pageIdx : nat) : Outcome PageDrawing :=
  let pageIndex := (startPageIndex + pageIdx)%nat in
  let y := (pageHeight ctx - marginTop ctx)%Q in
  titleCall <- (if (pageIdx =? 0)%nat
                then call <- draw pageIndex
                               {| dt_text := title config; dt_x := marginLeft ctx;
                                  dt_y := y; dt_size := TOC_TITLE_FONT_SIZE;
                                  dt_font := HelveticaBold; dt_color := "#1a1a1a" |} ;;
                     Returned (Some call)
                else Returned None) ;;
  let y' := if (pageIdx =? 0)%nat
            then (y - (TOC_TITLE_FONT_SIZE + TOC_TITLE_MARGIN_BOTTOM))%Q else y in
  ds <- drawEntries pageIndex (minLevelAll entries) y'
          (entriesOnPage entries entriesPerPage pageIdx) ;;
  Returned {| pd_title := titleCall; pd_entries := ds |}.

(** The page loop over the page indices [indices]. *)
Fixpoint drawPages (entries : list TocEntry) (startPageIndex : nat)
  (entriesPerPage : Z) (indices : list nat) : Outcome (list PageDrawing) :=
  match indices with
  | [] => Returned []
  | pageIdx :: rest =>
      p <- drawPage entries startPageIndex entriesPerPage pageIdx ;;
      ps <- drawPages entries startPageIndex entriesPerPage rest ;;
      Returned (p :: ps)
  end.

(** [renderTocContent]: the drawings of the TOC pages, first to last.
    Embedding the two standard fonts and reading the four colours come
    before the page loop and are taken to return. *)
Definition renderTocContent (entries : list TocEntry) (startPageIndex : nat)
  (tocPageCount : nat) (entriesPerPage : Z) : Outcome (list PageDrawing) :=
  drawPages entries startPageIndex entriesPerPage (seq 0 tocPageCount).

End Renderer.

(** ** [insertTocPages] *)

(** [insertTocPages]: the number of pages inserted and the context
    afterwards.  An insertion index past the end of the page list (a
    cover page announced, no page there) makes the first page insertion
    throw; with [entriesPerPage = 0] the page count is [Infinity] and
    the insertion loop has no end; the call returns once the awaited
    [renderTocContent] has returned. *)
Definition insertTocPages (ctx : LayoutContext) (tocConfig : option TableOfContents)
  (content : option (list SchemaContentElement)) (hasCoverPage : bool)
  : Outcome (Z * LayoutContext) :=
  match resolveTocConfig tocConfig, content with
  | None, _ | _, None | _, Some [] => Returned (0, ctx)
  | Some config, Some content =>
      match extractTocEntries content config with
      | [] => Returned (0, ctx)
      | _ :: _ =>
          let entries := tocEntriesOf ctx config content hasCoverPage in
          let insertIndex := if hasCoverPage then 1%nat else 0%nat in
          if (insertIndex <=? length (pages ctx))%nat
          then match tocPageCountOf (length entries) (entriesPerPage ctx) with
               | None => Diverges
               | Some tocPageCount =>
                   let ctx' :=
                     withPages ctx
                       (splice (pages ctx) insertIndex
                          (renderedTocPages config entries (Z.to_nat tocPageCount)
                             (entriesPerPage ctx))) in
                   drawings <- renderTocContent ctx' config entries insertIndex
                                 (Z.to_nat tocPageCount) (entriesPerPage ctx) ;;
                   Returned (tocPageCount, ctx')
               end
          else Throws
      end
  end.

End PdfToc.

Import TocUtils PdfToc.

(* ===================================================================== *)
(** * Specification-side definitions *)
(* ===================================================================== *)

(** The spec's selection rule of the extractor: a heading whose level is
    within [[minLevel, maxLevel]]. *)
Definition headingInRange (config : ResolvedTocConfig) (el : SchemaContentElement) : bool :=
  match el with
  | Heading lvl _ => (minLevel config <=? lvl) && (lvl <=? maxLevel config)
  | _ => false
  end.

(** An entry read back as the heading it was made from. *)
Definition headingOfEntry (e : TocEntry) : SchemaContentElement :=
  Heading (level e) (text e).

(** A freshly extracted entry: slugified anchor, nothing else assigned. *)
Definition freshEntry (e : TocEntry) : Prop :=
  anchorId e = generateAnchorId (text e) /\ numbering e = None /\ pageNumber e = None.

(** The content of the unit test of the extractor: headings at levels
    1, 2, 3, 4, 1 among other elements. *)
Definition sampleContent : list SchemaContentElement :=
  [ Heading 1 "Introduction"; Paragraph "Some text"; Heading 2 "Background";
    Heading 3 "Details"; Heading 4 "Sub-details"; Heading 1 "Conclusion"; Rule ].

Definition configWithLevels (lo hi : Z) : ResolvedTocConfig :=
  {| enabled := true; title := "Table of Contents"; minLevel := lo; maxLevel := hi;
     numbered := false; showPageNumbers := true |}.

(** The element at index [i] of the heading-or-title elements is the
    first one at or after the cursor [c] whose content is [txt]. *)
Definition firstMatchFrom (hs : list DrawnElement) (c : nat) (txt : string)
  (i : nat) (el : DrawnElement) : Prop :=
  (c <= i)%nat
  /\ nth_error hs i = Some el
  /\ de_content el = txt
  /\ forall j el', (c <= j < i)%nat -> nth_error hs j = Some el' -> de_content el' <> txt.


(** The page the TOC shows for a drawn element. *)
Definition shownPage (hasCoverPage : bool) (el : DrawnElement) : Z :=
  de_page el - (if hasCoverPage then 1 else 0).

Definition plainEntry (lvl : Z) (txt : string) : TocEntry :=
  {| text := txt; level := lvl; anchorId := generateAnchorId txt;
     numbering := None; pageNumber := None |}.

Definition drawnHeading (txt : string) (page : Z) : DrawnElement :=
  {| de_type := "heading"; de_content := txt; de_page := page |}.

(** [base] is the minimum level present in [entries]. *)
Definition isMinLevel (base : Z) (entries : list TocEntry) : Prop :=
  (exists e, In e entries /\ level e = base)
  /\ (forall e, In e entries -> base <= level e).

(** The spec's rule for the counter of depth [i], seen from that counter:
    an entry at its depth increments it, an entry at a shallower depth
    resets it, an entry at a deeper depth leaves it. *)
Definition counterStep (i : nat) (c : Z) (d : nat) : Z :=
  if (d <? i)%nat then 0 else if (d =? i)%nat then c + 1 else c.

(** The counter of depth [i] after entries at the depths [ds], from 0. *)
Definition counterValue (i : nat) (ds : list nat) : Z :=
  fold_left (counterStep i) ds 0.

(** The dot-joined counters of depths 0 to [d] after the depths [ds]. *)
Definition dottedCounters (ds : list nat) (d : nat) : string :=
  String.concat "." (map (fun i => Z_to_string (counterValue i ds)) (seq 0 (S d))).

(** The dot-separated components of a string, as [split('.')] gives
    them. *)
Fixpoint components (s : string) : list string :=
  match s with
  | EmptyString => [EmptyString]
  | String c r =>
      if Ascii.eqb c "."
      then EmptyString :: components r
      else match components r with
           | h :: t => String c h :: t
           | [] => [String c EmptyString]
           end
  end.

Fixpoint hasDot (s : string) : bool :=
  match s with
  | EmptyString => false
  | String c r => Ascii.eqb c "." || hasDot r
  end.

(** The array when counter [i] holds [counterValue i ds]. *)
Definition countersAfter (ds : list nat) : list JsValue :=
  map (fun i => JNum (counterValue i ds)) (seq 0 7).

(** A raw configuration that enables the TOC and leaves the rest to the
    defaults. *)
Definition tocEnabled : TableOfContents :=
  {| toc_enabled := Some true; toc_title := None; toc_minLevel := None;
     toc_maxLevel := None; toc_numbered := None; toc_showPageNumbers := None |}.

(** The raw configuration of the integration test "no headings match":
    levels 4 to 6 only. *)
Definition tocDeepOnly : TableOfContents :=
  {| toc_enabled := Some true; toc_title := None; toc_minLevel := Some 4;
     toc_maxLevel := Some 6; toc_numbered := None; toc_showPageNumbers := None |}.

(** A measurement for the examples: six points a character. *)
Definition sixPointsEach (f : Font) (s : string) (size : Q) : option Q :=
  Some (inject_Z (6 * Z.of_nat (String.length s))).

(** A small page: 300 by 200 points with 40-point margins, so that three
    entries fit a TOC page; a cover page and two content pages; a
    surface that measures and draws every text. *)
Definition smallContext : LayoutContext :=
  {| pages := [LaidOutPage 0; LaidOutPage 1; LaidOutPage 2];
     drawnElements := [drawnHeading "One" 2; drawnHeading "Two" 2; drawnHeading "Three" 2;
                       drawnHeading "Four" 2; drawnHeading "Five" 3; drawnHeading "Six" 3;
                       drawnHeading "Seven" 3];
     pageWidth := 300; pageHeight := 200;
     marginTop := 40; marginBottom := 40; marginLeft := 40; marginRight := 40;
     widthOfTextAtSize := sixPointsEach; drawText := fun _ _ => true |}.

Definition sevenHeadings : list SchemaContentElement :=
  [Heading 1 "One"; Heading 2 "Two"; Heading 2 "Three"; Paragraph "text";
   Heading 1 "Four"; Heading 2 "Five"; Heading 3 "Six"; Heading 1 "Seven"].

(** A letter page; a cover page and one content page, and a title that
    was drawn on page 1. *)
Definition titleOnFirstPage : LayoutContext :=
  {| pages := [LaidOutPage 0; LaidOutPage 1];
     drawnElements := [ {| de_type := "title"; de_content := "Report"; de_page := 1 |};
                        drawnHeading "Scope" 2 ];
     pageWidth := 612; pageHeight := 792;
     marginTop := 72; marginBottom := 70; marginLeft := 72; marginRight := 72;
     widthOfTextAtSize := sixPointsEach; drawText := fun _ _ => true |}.

(** A letter page without a cover page; two pages, and a heading that
    was recorded on page 9. *)
Definition headingPastLastPage : LayoutContext :=
  {| pages := [LaidOutPage 0; LaidOutPage 1];
     drawnElements := [drawnHeading "Scope" 9];
     pageWidth := 612; pageHeight := 792;
     marginTop := 72; marginBottom := 70; marginLeft := 72; marginRight := 72;
     widthOfTextAtSize := sixPointsEach; drawText := fun _ _ => true |}.

(** An assigned page number that is at least 1 and at most [total]. *)
Definition pageNumberWithin (total : Z) (e : TocEntry) : Prop :=
  exists p, pageNumber e = Some p /\ 1 <= p <= total.

(** A character of a slug: a lowercase letter, a digit, an underscore or
    a hyphen. *)
Definition slugChar (c : ascii) : bool :=
  isLower c || isDigit c || (code c =? 95)%N || isHyphen c.

Fixpoint allChars (p : ascii -> bool) (s : string) : bool :=
  match s with
  | EmptyString => true
  | String c r => p c && allChars p r
  end.

(** No two hyphens in a row; [afterHyphen] tells that a hyphen precedes
    the string. *)
Fixpoint noDoubleHyphen (afterHyphen : bool) (s : string) : bool :=
  match s with
  | EmptyString => true
  | String c r =>
      if isHyphen c then negb afterHyphen && noDoubleHyphen true r
      else noDoubleHyphen false r
  end.

Definition startsWithHyphen (s : string) : bool :=
  match s with
  | EmptyString => false
  | String c _ => isHyphen c
  end.

Fixpoint endsWithHyphen (s : string) : bool :=
  match s with
  | EmptyString => false
  | String c EmptyString => isHyphen c
  | String _ r => endsWithHyphen r
  end.

(** A finished slug: slug characters only, hyphens single, none at
    either end. *)
Definition isSlug (s : string) : Prop :=
  allChars slugChar s = true
  /\ noDoubleHyphen false s = true
  /\ startsWithHyphen s = false
  /\ endsWithHyphen s = false.

(* ===================================================================== *)
(** * Further specification-side definitions *)
(* ===================================================================== *)

(** Some character of the string satisfies [p]. *)
Fixpoint anyChar (p : ascii -> bool) (s : string) : bool :=
  match s with
  | EmptyString => false
  | String c r => p c || anyChar p r
  end.

(** The number of entries at the level [lvl]. *)
Definition levelCount (lvl : Z) (entries : list TocEntry) : nat :=
  length (filter (fun e => level e =? lvl) entries).

(** The entry moved [delta] levels down the heading hierarchy. *)
Definition shiftLevel (delta : Z) (e : TocEntry) : TocEntry :=
  {| text := text e; level := level e + delta; anchorId := anchorId e;
     numbering := numbering e; pageNumber := pageNumber e |}.

(** The entry without its numbering. *)
Definition clearNumbering (e : TocEntry) : TocEntry :=
  {| text := text e; level := level e; anchorId := anchorId e;
     numbering := None; pageNumber := pageNumber e |}.

(** The counters of depths 0 to [d] after [ds] come before those after
    [ds'] in the order of section numbers: equal up to some depth, and
    smaller there. *)
Definition countersBefore (d : nat) (ds ds' : list nat) : Prop :=
  exists i, (i <= d)%nat
            /\ (forall j, (j < i)%nat -> counterValue j ds = counterValue j ds')
            /\ counterValue i ds < counterValue i ds'.

(** The word characters ([\w]) of a string, in order. *)
Fixpoint wordChars (s : string) : string :=
  match s with
  | EmptyString => EmptyString
  | String c r => if isWord c then String c (wordChars r) else wordChars r
  end.

(** The pages of the heading-or-title elements never decrease along the
    record. *)
Definition pagesInOrder (hs : list DrawnElement) : Prop :=
  forall i i' el el',
    (i <= i')%nat -> nth_error hs i = Some el -> nth_error hs i' = Some el' ->
    de_page el <= de_page el'.

(** The entries a TOC page carries. *)
Definition tocLines (p : Page) : list TocEntry :=
  match p with
  | TocPage _ lines => lines
  | LaidOutPage _ => []
  end.

(** The title a TOC page carries, if it carries one. *)
Definition tocHeading (p : Page) : option string :=
  match p with
  | TocPage heading _ => heading
  | LaidOutPage _ => None
  end.

(* ===================================================================== *)
(** * Specification-side definitions of the rendering *)
(* ===================================================================== *)

(** The surface measures every text and draws every text. *)
Definition surfaceAccepts (ctx : LayoutContext) : Prop :=
  (forall f s z, widthOfTextAtSize ctx f s z <> None)
  /\ (forall f s, drawText ctx f s = true).

(** No width the surface measures is negative. *)
Definition widthsNotNegative (ctx : LayoutContext) : Prop :=
  forall f s z w, widthOfTextAtSize ctx f s z = Some w -> (0 <= w)%Q.

(** The room the page leaves below the title, as the exact difference
    of the values. *)
Definition exactRoom (ctx : LayoutContext) : Q :=
  pageHeight ctx - marginTop ctx - marginBottom ctx
  - TOC_TITLE_FONT_SIZE - TOC_TITLE_MARGIN_BOTTOM.

(** Every call of one entry, in drawing order. *)
Definition entryCalls (d : EntryDrawing) : list DrawText :=
  ed_text d :: match ed_pageNumber d with
               | Some pn => pn :: ed_dots d
               | None => ed_dots d
               end.

(** The leader of one entry stays in the gap between its text and its
    page number, eight points off either, and is absent when no page
    number is drawn. *)
Definition leaderWithinGap (ctx : LayoutContext) (d : EntryDrawing) : Prop :=
  match ed_pageNumber d with
  | None => ed_dots d = []
  | Some pn =>
      forall dot, In dot (ed_dots d) ->
        exists textWidth dotWidth,
          widthOfTextAtSize ctx Helvetica (dt_text (ed_text d)) TOC_ENTRY_FONT_SIZE
          = Some textWidth
          /\ widthOfTextAtSize ctx Helvetica DOT_LEADER_CHAR TOC_ENTRY_FONT_SIZE
             = Some dotWidth
          /\ dt_text dot = DOT_LEADER_CHAR
          /\ dt_y dot = dt_y (ed_text d)
          /\ (dt_x (ed_text d) + textWidth + 8 <= dt_x dot)%Q
          /\ (dt_x dot + dotWidth < dt_x pn - 8)%Q
  end.

(** The page number of one entry ends at the right margin. *)
Definition pageNumberAtRightMargin (ctx : LayoutContext) (d : EntryDrawing) : Prop :=
  match ed_pageNumber d with
  | None => True
  | Some pn =>
      exists pageNumWidth,
        widthOfTextAtSize ctx Helvetica (dt_text pn) TOC_ENTRY_FONT_SIZE = Some pageNumWidth
        /\ (dt_x pn + pageNumWidth == pageWidth ctx - marginRight ctx)%Q
  end.

(** The gap between text and page number of one entry is too small for
    one dot. *)
Definition gapTooSmall (ctx : LayoutContext) (d : EntryDrawing) : Prop :=
  match ed_pageNumber d with
  | None => True
  | Some pn =>
      exists textWidth dotWidth,
        widthOfTextAtSize ctx Helvetica (dt_text (ed_text d)) TOC_ENTRY_FONT_SIZE
        = Some textWidth
        /\ widthOfTextAtSize ctx Helvetica DOT_LEADER_CHAR TOC_ENTRY_FONT_SIZE
           = Some dotWidth
        /\ (dt_x pn - 8 - (dt_x (ed_text d) + textWidth + 8) <= dotWidth)%Q
  end.

(** The text and the left edge of the text call of every entry drawn on
    the pages, page after page. *)
Definition drawnTexts (pagesD : list PageDrawing) : list (string * Q) :=
  concat (map (fun p => map (fun d => (dt_text (ed_text d), dt_x (ed_text d)))
                          (pd_entries p))
              pagesD).

(** Two entries as the matcher leaves them, for the examples. *)
Definition twoEntries : list TocEntry :=
  [ {| text := "One"; level := 1; anchorId := "one"; numbering := Some "1";
       pageNumber := Some 1 |};
    {| text := "Two"; level := 2; anchorId := "two"; numbering := Some "1.1";
       pageNumber := Some 2 |} ].

(** A page of one content page, [height] points high with the margins
    [top] and [bottom], and a surface that measures and draws every
    text. *)
Definition pageOfHeight (height top bottom : Q) : LayoutContext :=
  {| pages := [LaidOutPage 0]; drawnElements := [drawnHeading "One" 1];
     pageWidth := 300; pageHeight := height;
     marginTop := top; marginBottom := bottom; marginLeft := 40; marginRight := 40;
     widthOfTextAtSize := sixPointsEach; drawText := fun _ _ => true |}.

(** A page that leaves 18 points below the title: less than one line. *)
Definition crampedContext : LayoutContext := pageOfHeight 100 20 20.

(** An A4 sheet laid on its side (595.28 points high) with margins of
    56.59 and 56.69 points: the values leave 440 points exactly, the
    numbers a little less. *)
Definition landscapeContext : LayoutContext := pageOfHeight 595.28 56.59 56.69.

(** A page whose values leave 0 points exactly, and whose numbers leave
    a little less than nothing. *)
Definition edgeContext : LayoutContext := pageOfHeight 147.14 67.68 37.46.

(** A heading text that holds a tabulator (U+0009). *)
Definition tabbedText : string := String "009"%char "Notes".

(** A surface that cannot encode a tabulator. *)
Definition rejectsTab (f : Font) (s : string) (size : Q) : option Q :=
  if anyChar (fun c => (code c =? 9)%N) s then None else sixPointsEach f s size.

(** A surface on which a dot takes up no room and less. *)
Definition negativeDot (f : Font) (s : string) (size : Q) : option Q :=
  if String.eqb s DOT_LEADER_CHAR then Some (- 3)%Q else sixPointsEach f s size.

(** [ctx] on another measuring surface. *)
Definition withWidths (ctx : LayoutContext) (width : Font -> string -> Q -> option Q)
  : LayoutContext :=
  {| pages := pages ctx; drawnElements := drawnElements ctx;
     pageWidth := pageWidth ctx; pageHeight := pageHeight ctx;
     marginTop := marginTop ctx; marginBottom := marginBottom ctx;
     marginLeft := marginLeft ctx; marginRight := marginRight ctx;
     widthOfTextAtSize := width; drawText := drawText ctx |}.

(* ===================================================================== *)
(** * [action/publish/index.ts]: [parsePublishOptions] *)
(* ===================================================================== *)

Module Publish.

(** [PublishOptions] is declared in [action/publish/types.ts], which is
    not among the sources; these are the properties of the object
    literal that [parsePublishOptions] returns. *)
Record PublishOptions : Type := mkPublishOptions {
  po_enabled : bool;
  po_method : string;
  po_branch : string;
  po_generateIndex : bool;
  po_indexTitle : string
}.

(** [s || fallback] on strings: the empty string is falsy. *)
Definition orDefault (s fallback : string) : string :=
  if String.eqb s "" then fallback else s.

Definition parsePublishOptions (publish : bool) (publishMethod pagesBranch : string)
  (generateIndex : bool) (indexTitle : string) : PublishOptions :=
  let method := if String.eqb publishMethod "branch" then "branch" else "pages-api" in
  {| po_enabled := publish;
     po_method := method;
     po_branch := orDefault pagesBranch "gh-pages";
     po_generateIndex := generateIndex;
     po_indexTitle := orDefault indexTitle "Generated Documents" |}.

End Publish.

Import Publish.

(* ===================================================================== *)
(** * The page-offset adjuster *)
(* ===================================================================== *)

(** C2: [adjustPageNumberOffset] returns [startPage = tocPageCount +
    (1 if hasCoverPage else 0)] and [contentPageCount = totalPages -
    startPage], for all arguments; on [(2, true, 10)] it returns
    [{startPage: 3, contentPageCount: 7}]. *)
Theorem adjustPageNumberOffset_spec :
  (forall (tocPageCount : Z) (hasCoverPage : bool) (totalPages : Z),
      let r := adjustPageNumberOffset tocPageCount hasCoverPage totalPages in
      startPage r = tocPageCount + (if hasCoverPage then 1 else 0)
      /\ contentPageCount r = totalPages - startPage r)
  /\ adjustPageNumberOffset 2 true 10 = {| startPage := 3; contentPageCount := 7 |}.
Proof.
  split; [| reflexivity].
  intros t c n r; subst r; unfold adjustPageNumberOffset;
    destruct c; cbn [startPage contentPageCount]; split; lia.
Qed.

(* ===================================================================== *)
(** * The extractor *)
(* ===================================================================== *)

Section Extractor.

Variable config : ResolvedTocConfig.

Lemma extractStep_app (acc : list TocEntry) (el : SchemaContentElement) :
  extractStep config acc el = acc ++ extractStep config [] el.
Proof.
  destruct el as [lvl txt | | | | | |]; simpl; try (now rewrite app_nil_r).
  destruct ((lvl <? minLevel config) || (lvl >? maxLevel config));
    [now rewrite app_nil_r | reflexivity].
Qed.

Lemma extract_fold_app (content : list SchemaContentElement) (acc : list TocEntry) :
  fold_left (extractStep config) content acc
  = acc ++ fold_left (extractStep config) content [].
Proof.
  revert acc; induction content as [| el content IH]; intros acc; simpl.
  - now rewrite app_nil_r.
  - rewrite IH, (IH (extractStep config [] el)), extractStep_app.
    now rewrite app_assoc.
Qed.

Lemma extractTocEntries_cons (el : SchemaContentElement) (content : list SchemaContentElement) :
  extractTocEntries (el :: content) config
  = extractStep config [] el ++ extractTocEntries content config.
Proof. unfold extractTocEntries; simpl; apply extract_fold_app. Qed.

Lemma extractStep_range (el : SchemaContentElement) :
  map headingOfEntry (extractStep config [] el)
  = if headingInRange config el then [el] else [].
Proof.
  destruct el as [lvl txt | | | | | |]; simpl; try reflexivity.
  rewrite Z.gtb_ltb.
  destruct (Z.ltb_spec lvl (minLevel config)), (Z.leb_spec (minLevel config) lvl),
    (Z.ltb_spec (maxLevel config) lvl), (Z.leb_spec lvl (maxLevel config));
    simpl; solve [reflexivity | lia].
Qed.

Lemma extractStep_fresh (el : SchemaContentElement) :
  Forall freshEntry (extractStep config [] el).
Proof.
  destruct el as [lvl txt | | | | | |]; simpl; try constructor.
  destruct ((lvl <? minLevel config) || (lvl >? maxLevel config)); repeat constructor.
Qed.

Lemma extractTocEntries_filter (content : list SchemaContentElement) :
  map headingOfEntry (extractTocEntries content config)
  = filter (headingInRange config) content.
Proof.
  induction content as [| el content IH]; [reflexivity |].
  rewrite extractTocEntries_cons, map_app, IH, extractStep_range; simpl.
  now destruct (headingInRange config el).
Qed.

Lemma extractTocEntries_fresh (content : list SchemaContentElement) :
  Forall freshEntry (extractTocEntries content config).
Proof.
  induction content as [| el content IH]; [constructor |].
  rewrite extractTocEntries_cons; apply Forall_app; split;
    [apply extractStep_fresh | exact IH].
Qed.

Lemma extractTocEntries_nil_iff (content : list SchemaContentElement) :
  extractTocEntries content config = []
  <-> (forall el, In el content -> headingInRange config el = false).
Proof.
  assert (Hmap : extractTocEntries content config = []
                 <-> filter (headingInRange config) content = []).
  { rewrite <- extractTocEntries_filter.
    destruct (extractTocEntries content config); simpl; split; congruence. }
  rewrite Hmap; clear Hmap.
  induction content as [| el content IH]; simpl.
  - split; [intros _ ? [] | reflexivity].
  - destruct (headingInRange config el) eqn:E.
    + split; [discriminate |].
      intros H; specialize (H el (or_introl eq_refl)); congruence.
    + rewrite IH; split.
      * intros H x [<- | Hx]; auto.
      * intros H x Hx; apply H; now right.
Qed.

End Extractor.

(** C8: [extractTocEntries] returns exactly the headings of the content
    whose level lies within [[minLevel, maxLevel]], in document order:
    read back as headings, its entries are the content filtered by that
    test, and every entry is fresh with a slugified anchor.  On headings
    at levels 1, 2, 3, 4, 1 and the range [[2, 3]] it yields the level-2
    and the level-3 heading only. *)
Theorem extractTocEntries_exact :
  (forall (content : list SchemaContentElement) (config : ResolvedTocConfig),
      map headingOfEntry (extractTocEntries content config)
        = filter (headingInRange config) content
      /\ Forall freshEntry (extractTocEntries content config))
  /\ map headingOfEntry (extractTocEntries sampleContent (configWithLevels 2 3))
     = [Heading 2 "Background"; Heading 3 "Details"].
Proof.
  split; [| reflexivity].
  intros content config; split;
    [apply extractTocEntries_filter | apply extractTocEntries_fresh].
Qed.

(* ===================================================================== *)
(** * The page-number matcher *)
(* ===================================================================== *)

Section Matcher.

Variable hs : list DrawnElement.
Variable hasCoverPage : bool.

Lemma searchForward_ge (rest : list DrawnElement) (i : nat) (txt : string) (j : nat) (p : Z) :
  searchForward rest i txt = Some (j, p) -> (i <= j)%nat.
Proof.
  revert i; induction rest as [| el rest IH]; intros i; simpl; [discriminate |].
  destruct (String.eqb (de_content el) txt).
  - intros [= <- _]; lia.
  - intros H; apply IH in H; lia.
Qed.

Lemma searchForward_first (rest : list DrawnElement) (i : nat) (txt : string)
  (m : nat) (el : DrawnElement) :
  nth_error rest m = Some el ->
  de_content el = txt ->
  (forall m' el', (m' < m)%nat -> nth_error rest m' = Some el' -> de_content el' <> txt) ->
  searchForward rest i txt = Some ((i + m)%nat, de_page el).
Proof.
  revert i m; induction rest as [| x rest IH]; intros i m Hnth Heq Hbefore.
  - destruct m; discriminate.
  - destruct m as [| m]; simpl in *.
    + injection Hnth as ->. rewrite (proj2 (String.eqb_eq _ _) Heq).
      now rewrite Nat.add_0_r.
    + destruct (String.eqb_spec (de_content x) txt) as [E | _].
      * exfalso; apply (Hbefore 0%nat x); [lia | reflexivity | exact E].
      * rewrite (IH (S i) m Hnth Heq).
        -- f_equal; f_equal; lia.
        -- intros m' el' Hlt; apply (Hbefore (S m')); lia.
Qed.


Lemma matchEntry_hit (c : nat) (e : TocEntry) (i : nat) (el : DrawnElement) :
  firstMatchFrom hs c (text e) i el ->
  matchEntry hs hasCoverPage c e
  = (S i, setPageNumber e (Some (shownPage hasCoverPage el))).
Proof.
  intros (Hle & Hnth & Heq & Hbefore); unfold matchEntry.
  rewrite (searchForward_first _ c (text e) (i - c) el).
  - replace (c + (i - c))%nat with i by lia.
    unfold shownPage; destruct hasCoverPage; simpl; [reflexivity |].
    now rewrite Z.sub_0_r.
  - rewrite nth_error_skipn; now replace (c + (i - c))%nat with i by lia.
  - exact Heq.
  - intros m' el' Hlt; rewrite nth_error_skipn; apply Hbefore; lia.
Qed.


Lemma matchEntry_cursor (c : nat) (e : TocEntry) :
  (c <= fst (matchEntry hs hasCoverPage c e))%nat.
Proof.
  unfold matchEntry.
  destruct (searchForward (skipn c hs) c (text e)) as [[j p] |] eqn:E; simpl; [| lia].
  apply searchForward_ge in E; lia.
Qed.


Lemma matchEntries_cons (c : nat) (e : TocEntry) (es : list TocEntry) :
  matchEntries hs hasCoverPage c (e :: es)
  = (fst (matchEntries hs hasCoverPage (fst (matchEntry hs hasCoverPage c e)) es),
     snd (matchEntry hs hasCoverPage c e)
       :: snd (matchEntries hs hasCoverPage (fst (matchEntry hs hasCoverPage c e)) es)).
Proof.
  simpl. destruct (matchEntry hs hasCoverPage c e) as [c' e']; simpl.
  now destruct (matchEntries hs hasCoverPage c' es).
Qed.

Lemma matchEntries_length (c : nat) (es : list TocEntry) :
  length (snd (matchEntries hs hasCoverPage c es)) = length es.
Proof.
  revert c; induction es as [| e es IH]; intros c; [reflexivity |].
  rewrite matchEntries_cons; simpl; now rewrite IH.
Qed.

(** The entry at index [k] is processed with the cursor left by the
    first [k] entries, and leaves its own cursor to the next one. *)
Lemma matchEntries_nth (c : nat) (es : list TocEntry) (k : nat) (e : TocEntry) :
  nth_error es k = Some e ->
  let ck := fst (matchEntries hs hasCoverPage c (firstn k es)) in
  nth_error (snd (matchEntries hs hasCoverPage c es)) k
    = Some (snd (matchEntry hs hasCoverPage ck e))
  /\ fst (matchEntries hs hasCoverPage c (firstn (S k) es))
    = fst (matchEntry hs hasCoverPage ck e).
Proof.
  revert c k; induction es as [| x es IH]; intros c k Hnth; [destruct k; discriminate |].
  destruct k as [| k].
  - injection Hnth as ->. rewrite matchEntries_cons; simpl firstn.
    rewrite matchEntries_cons; simpl. split; reflexivity.
  - simpl in Hnth. change (firstn (S (S k)) (x :: es)) with (x :: firstn (S k) es).
    change (firstn (S k) (x :: es)) with (x :: firstn k es).
    rewrite !matchEntries_cons; cbn [fst snd nth_error].
    exact (IH _ k Hnth).
Qed.

Lemma matchEntries_cursor_step (c : nat) (es : list TocEntry) (k : nat) :
  (fst (matchEntries hs hasCoverPage c (firstn k es))
   <= fst (matchEntries hs hasCoverPage c (firstn (S k) es)))%nat.
Proof.
  destruct (nth_error es k) as [e |] eqn:E.
  - destruct (matchEntries_nth c es k e E) as [_ ->]. apply matchEntry_cursor.
  - apply nth_error_None in E. rewrite !firstn_all2 by lia. lia.
Qed.

Lemma matchEntries_cursor_mono (c : nat) (es : list TocEntry) (k k' : nat) :
  (k <= k')%nat ->
  (fst (matchEntries hs hasCoverPage c (firstn k es))
   <= fst (matchEntries hs hasCoverPage c (firstn k' es)))%nat.
Proof.
  induction 1 as [| k' _ IH]; [lia |].
  etransitivity; [exact IH | apply matchEntries_cursor_step].
Qed.


End Matcher.





(* ===================================================================== *)
(** * The numberer *)
(* ===================================================================== *)

Section Numberer.

Lemma minLevelOf_fold (levels : list Z) (a : Z) :
  fold_left Z.min levels a <= a
  /\ (forall x, In x levels -> fold_left Z.min levels a <= x)
  /\ (fold_left Z.min levels a = a \/ In (fold_left Z.min levels a) levels).
Proof.
  revert a; induction levels as [| x levels IH]; intros a; simpl.
  - repeat split; [lia | intros ? [] | now left].
  - destruct (IH (Z.min a x)) as (Hle & Hall & Hin). repeat split.
    + lia.
    + intros y [<- | Hy]; [lia | now apply Hall].
    + destruct Hin as [E | Hin]; [| right; right; exact Hin].
      destruct (Z.min_spec a x) as [[_ E'] | [_ E']].
      * left; rewrite E; exact E'.
      * right; left; rewrite E; symmetry; exact E'.
Qed.

Lemma minLevelOf_min (e0 : TocEntry) (rest : list TocEntry) :
  isMinLevel (minLevelOf e0 (e0 :: rest)) (e0 :: rest).
Proof.
  unfold minLevelOf.
  destruct (minLevelOf_fold (map level (e0 :: rest)) (level e0)) as (Hle & Hall & Hin).
  split.
  - assert (Hin' : In (fold_left Z.min (map level (e0 :: rest)) (level e0))
                      (map level (e0 :: rest))).
    { destruct Hin as [E | Hin]; [rewrite E; now left | exact Hin]. }
    apply in_map_iff in Hin' as (e & E & He); exists e; split; [exact He | exact E].
  - intros e He; apply Hall; now apply in_map.
Qed.

Lemma isMinLevel_unique (b b' : Z) (entries : list TocEntry) :
  isMinLevel b entries -> isMinLevel b' entries -> b = b'.
Proof.
  intros [(e & He & <-) Hb] [(e' & He' & <-) Hb'].
  specialize (Hb e' He'); specialize (Hb' e He); lia.
Qed.

Lemma numberEntries_length (base : Z) (counters : list JsValue) (entries : list TocEntry) :
  length (numberEntries base counters entries) = length entries.
Proof.
  revert counters; induction entries as [| e entries IH]; intros counters; simpl;
    [reflexivity | now rewrite IH].
Qed.

Lemma assignNumbering_length (entries : list TocEntry) :
  length (assignNumbering entries) = length entries.
Proof. destruct entries; [reflexivity | apply numberEntries_length]. Qed.

Lemma numberEntries_pageNumber (base : Z) (counters : list JsValue) (entries : list TocEntry) :
  map pageNumber (numberEntries base counters entries) = map pageNumber entries.
Proof.
  revert counters; induction entries as [| e entries IH]; intros counters; simpl;
    [reflexivity | now rewrite IH].
Qed.

Lemma assignNumbering_pageNumber (entries : list TocEntry) :
  map pageNumber (assignNumbering entries) = map pageNumber entries.
Proof. destruct entries; [reflexivity | apply numberEntries_pageNumber]. Qed.

(** Whatever the counters hold, the entry at index [k] gets the join of
    [depth + 1] parts. *)
Lemma numberEntries_nth_parts (base : Z) (counters : list JsValue)
  (entries : list TocEntry) (k : nat) (e : TocEntry) :
  nth_error entries k = Some e ->
  exists parts,
    length parts = S (depthOf base e)
    /\ nth_error (numberEntries base counters entries) k
       = Some (setNumbering e (join parts)).
Proof.
  revert counters k; induction entries as [| x entries IH]; intros counters k Hk;
    [destruct k; discriminate |].
  destruct k as [| k]; simpl in *.
  - injection Hk as ->. eexists; split; [| reflexivity].
    unfold collectParts; now rewrite length_map, length_seq.
  - apply IH; exact Hk.
Qed.

(** ** Components of a joined list *)

Lemma components_nonempty (s : string) : components s <> [].
Proof.
  destruct s as [| c r]; simpl; [discriminate |].
  destruct (Ascii.eqb c "."); [discriminate |].
  destruct (components r); discriminate.
Qed.

Lemma components_no_dot (s : string) : hasDot s = false -> components s = [s].
Proof.
  induction s as [| c r IH]; simpl; [reflexivity |].
  destruct (Ascii.eqb c "."); simpl; [discriminate |].
  intros H; now rewrite (IH H).
Qed.

Lemma components_append (a b : string) :
  hasDot a = false ->
  components (a ++ String "." b)%string = a :: components b.
Proof.
  induction a as [| c r IH]; simpl; [reflexivity |].
  destruct (Ascii.eqb c "."); simpl; [discriminate |].
  intros H; now rewrite (IH H).
Qed.

Lemma components_concat (items : list string) :
  items <> [] ->
  Forall (fun s => hasDot s = false) items ->
  components (String.concat "." items) = items.
Proof.
  induction items as [| a items IH]; [congruence |].
  intros _ Hall; inversion Hall as [| ? ? Ha Hrest]; subst.
  destruct items as [| b items]; simpl.
  - now apply components_no_dot.
  - change (String.concat "." (b :: items)) with (String.concat "." (b :: items)) in IH.
    rewrite components_append by exact Ha.
    f_equal; apply IH; [discriminate | exact Hrest].
Qed.

Lemma string_of_uint_no_dot (d : Decimal.uint) :
  hasDot (NilEmpty.string_of_uint d) = false.
Proof. induction d; simpl; auto. Qed.

Lemma Z_to_string_no_dot (n : Z) : hasDot (Z_to_string n) = false.
Proof.
  unfold Z_to_string, NilZero.string_of_int, NilZero.string_of_uint.
  destruct (Z.to_int n) as [d | d]; destruct d; simpl;
    try reflexivity; apply string_of_uint_no_dot.
Qed.

Lemma joinItem_no_dot (v : JsValue) : hasDot (joinItem v) = false.
Proof. destruct v; simpl; [apply Z_to_string_no_dot | reflexivity | reflexivity]. Qed.

Lemma components_join (parts : list JsValue) :
  parts <> [] -> components (join parts) = map joinItem parts.
Proof.
  intros H; unfold join; apply components_concat.
  - destruct parts; [congruence | discriminate].
  - apply Forall_forall; intros s Hs; apply in_map_iff in Hs as (v & <- & _).
    apply joinItem_no_dot.
Qed.

(** ** The counters while every depth stays below 7 *)

Lemma counterValue_snoc (i : nat) (ds : list nat) (d : nat) :
  counterValue i (ds ++ [d]) = counterStep i (counterValue i ds) d.
Proof. unfold counterValue; now rewrite fold_left_app. Qed.

Lemma bumpCounters_countersAfter (ds : list nat) (d : nat) :
  (d < 7)%nat -> bumpCounters (countersAfter ds) d = countersAfter (ds ++ [d]).
Proof.
  intros Hd; unfold countersAfter; cbn [seq map].
  rewrite !counterValue_snoc.
  do 7 (destruct d as [| d]; [reflexivity |]); lia.
Qed.

Lemma collectParts_countersAfter (ds : list nat) (d : nat) :
  (d < 7)%nat ->
  join (collectParts (countersAfter ds) d) = dottedCounters ds d.
Proof.
  intros Hd; unfold dottedCounters, join.
  do 7 (destruct d as [| d]; [reflexivity |]); lia.
Qed.

Lemma numberEntries_nth_counters (base : Z) (entries : list TocEntry) :
  forall (pre : list nat) (k : nat) (e : TocEntry),
    (forall x, In x entries -> (depthOf base x < 7)%nat) ->
    nth_error entries k = Some e ->
    nth_error (numberEntries base (countersAfter pre) entries) k
    = Some (setNumbering e
              (dottedCounters (pre ++ map (depthOf base) (firstn (S k) entries))
                 (depthOf base e))).
Proof.
  induction entries as [| x entries IH]; intros pre k e Hin Hk;
    [destruct k; discriminate |].
  assert (Hx : (depthOf base x < 7)%nat) by (apply Hin; now left).
  cbn [numberEntries]; rewrite bumpCounters_countersAfter by exact Hx.
  destruct k as [| k].
  - injection Hk as ->. cbn [nth_error firstn map].
    now rewrite collectParts_countersAfter.
  - cbn [nth_error] in *. rewrite (IH (pre ++ [depthOf base x]) k e).
    + change (firstn (S (S k)) (x :: entries)) with (x :: firstn (S k) entries).
      cbn [map]. now rewrite <- app_assoc.
    + intros y Hy; apply Hin; now right.
    + exact Hk.
Qed.

End Numberer.

(** C5: with depth 0 at the minimum level present, and while the depths
    fit the seven counters, the entry at index [k] gets the dot-joined
    counters of depths 0 to its own depth, as they stand after the
    entries up to and including it; a counter is incremented by an entry
    at its depth, reset to 0 by an entry at a shallower depth and left
    alone by a deeper one.  Levels 1, 2, 3, 1, 2 give "1", "1.1",
    "1.1.1", "2", "2.1". *)
Theorem assignNumbering_hierarchical :
  (forall (entries : list TocEntry) (base : Z),
      isMinLevel base entries ->
      (forall e, In e entries -> level e - base <= 6) ->
      forall k e,
        nth_error entries k = Some e ->
        nth_error (assignNumbering entries) k
        = Some (setNumbering e
                  (dottedCounters
                     (map (fun x => Z.to_nat (level x - base)) (firstn (S k) entries))
                     (Z.to_nat (level e - base)))))
  /\ (forall i, counterValue i [] = 0)
  /\ (forall i ds d,
         counterValue i (ds ++ [d])
         = if (d <? i)%nat then 0
           else if (d =? i)%nat then counterValue i ds + 1
                else counterValue i ds)
  /\ map numbering
       (assignNumbering
          [plainEntry 1 "A"; plainEntry 2 "A1"; plainEntry 3 "A1a";
           plainEntry 1 "B"; plainEntry 2 "B1"])
     = [Some "1"; Some "1.1"; Some "1.1.1"; Some "2"; Some "2.1"].
Proof.
  split; [| split; [reflexivity | split; [apply counterValue_snoc | reflexivity]]].
  intros entries base Hmin Hrange k e Hk.
  destruct entries as [| e0 rest]; [destruct k; discriminate |].
  assert (Hb : minLevelOf e0 (e0 :: rest) = base)
    by (eapply isMinLevel_unique; [apply minLevelOf_min | exact Hmin]).
  unfold assignNumbering; rewrite Hb.
  change initialCounters with (countersAfter []).
  rewrite (numberEntries_nth_counters base (e0 :: rest) [] k e); [reflexivity | | exact Hk].
  intros x Hx. unfold depthOf. specialize (Hrange x Hx).
  destruct Hmin as [_ Hlow]; specialize (Hlow x Hx). lia.
Qed.

Lemma assignNumbering_hierarchical_witness :
  nth_error
    (assignNumbering
       [plainEntry 1 "A"; plainEntry 2 "A1"; plainEntry 3 "A1a";
        plainEntry 1 "B"; plainEntry 2 "B1"]) 4
  = Some (setNumbering (plainEntry 2 "B1") (dottedCounters [0; 1; 2; 0; 1]%nat 1)).
Proof.
  apply (proj1 assignNumbering_hierarchical
           [plainEntry 1 "A"; plainEntry 2 "A1"; plainEntry 3 "A1a";
            plainEntry 1 "B"; plainEntry 2 "B1"] 1).
  - split.
    + exists (plainEntry 1 "A"); split; [now left | reflexivity].
    + intros e Hin; simpl in Hin.
      repeat (destruct Hin as [<- | Hin]; [simpl; lia |]). destruct Hin.
  - intros e Hin; simpl in Hin.
    repeat (destruct Hin as [<- | Hin]; [simpl; lia |]). destruct Hin.
  - reflexivity.
Defined.

Section LeadingZeros.

Lemma writeIndex_below (counters : list JsValue) (d j : nat) (v : JsValue) :
  (j < d)%nat -> readIndex (writeIndex counters d v) j = readIndex counters j.
Proof.
  intros Hj; unfold writeIndex, readIndex.
  destruct (Nat.ltb_spec d (length counters)) as [Hd | Hd].
  - rewrite app_nth1 by (rewrite length_firstn; lia).
    rewrite nth_firstn. destruct (Nat.ltb_spec j d); [reflexivity | lia].
  - destruct (Nat.lt_ge_cases j (length counters)) as [Hin | Hout].
    + now rewrite app_nth1.
    + rewrite app_nth2 by exact Hout.
      rewrite app_nth1 by (rewrite repeat_length; lia).
      rewrite nth_repeat. symmetry; now apply nth_overflow.
Qed.

Lemma writeIndex_length (counters : list JsValue) (d : nat) (v : JsValue) :
  (d < length (writeIndex counters d v))%nat.
Proof.
  unfold writeIndex. destruct (Nat.ltb_spec d (length counters)) as [Hd | Hd].
  - rewrite length_app, length_firstn. cbn [length]. rewrite length_skipn. lia.
  - rewrite !length_app, repeat_length. cbn [length]. lia.
Qed.

(** An entry at depth [d] leaves the counters of the depths above it as
    they were. *)
Lemma bumpCounters_below (counters : list JsValue) (d j : nat) :
  (j < d)%nat -> readIndex (bumpCounters counters d) j = readIndex counters j.
Proof.
  intros Hj; unfold bumpCounters, resetDeeper.
  set (v := increment (readIndex counters d)).
  pose proof (writeIndex_length counters d v) as Hlen.
  unfold readIndex at 1.
  rewrite app_nth1 by (rewrite length_firstn; lia).
  rewrite nth_firstn. destruct (Nat.ltb_spec j (S d)); [| lia].
  now apply writeIndex_below.
Qed.

(** While every entry so far lies [m] levels or more below the base, the
    counters of the first [m] depths (of the seven there are at the
    start) stay at 0, and the numbering begins with them. *)
Lemma numberEntries_nth_zeros (base : Z) (m : nat) (entries : list TocEntry) :
  forall (counters : list JsValue) (k : nat) (e : TocEntry),
    (forall j, (j < m)%nat -> readIndex counters j = JNum 0) ->
    (forall i x, (i <= k)%nat -> nth_error entries i = Some x ->
                 (m <= depthOf base x)%nat) ->
    nth_error entries k = Some e ->
    exists parts,
      nth_error (numberEntries base counters entries) k
      = Some (setNumbering e (join parts))
      /\ length parts = S (depthOf base e)
      /\ forall j, (j < m)%nat -> nth_error parts j = Some (JNum 0).
Proof.
  induction entries as [| x entries IH]; intros counters k e Hzero Hdeep Hk;
    [destruct k; discriminate |].
  assert (Hx : (m <= depthOf base x)%nat) by (apply (Hdeep 0%nat); [lia | reflexivity]).
  assert (Hzero' : forall j, (j < m)%nat ->
                             readIndex (bumpCounters counters (depthOf base x)) j = JNum 0).
  { intros j Hj. rewrite bumpCounters_below by lia. now apply Hzero. }
  cbn [numberEntries]. destruct k as [| k].
  - injection Hk as ->. cbn [nth_error]. eexists; split; [reflexivity |].
    unfold collectParts. split; [now rewrite length_map, length_seq |].
    intros j Hj. rewrite nth_error_map, nth_error_seq.
    destruct (Nat.ltb_spec j (S (depthOf base e))); [| lia].
    cbn [option_map Nat.add]. f_equal. now apply Hzero'.
  - cbn [nth_error] in *. apply IH; [exact Hzero' | | exact Hk].
    intros i y Hi Hy. apply (Hdeep (S i)); [lia | exact Hy].
Qed.

Lemma firstn_all_equal (A : Type) (a : A) (m : nat) :
  forall l : list A,
    (forall j, (j < m)%nat -> nth_error l j = Some a) -> firstn m l = repeat a m.
Proof.
  induction m as [| m IH]; intros l H; [reflexivity |].
  destruct l as [| b l]; [specialize (H 0%nat ltac:(lia)); discriminate |].
  pose proof (H 0%nat ltac:(lia)) as H0. injection H0 as ->.
  cbn [firstn repeat]. f_equal. apply IH.
  intros j Hj. exact (H (S j) ltac:(lia)).
Qed.

End LeadingZeros.

(** C10: the numbering of an entry has exactly (its level - the minimum
    level present) + 1 dot-separated components, and a component can be
    zero: an entry below the minimum level, with no entry at the minimum
    level before it, gets a numbering that begins with the component
    "0"; more generally, while every entry so far lies [m] levels or
    more below the minimum level ([m] up to the seven counters), the
    numbering begins with [m] components "0".  Levels 2, 1 give "0.1"
    and "1"; levels 3, 2, 1 give "0.0.1", "0.1" and "1". *)
Theorem assignNumbering_component_count :
  (forall (entries : list TocEntry) (base : Z),
      isMinLevel base entries ->
      forall k e,
        nth_error entries k = Some e ->
        exists r s,
          nth_error (assignNumbering entries) k = Some r
          /\ numbering r = Some s
          /\ Z.of_nat (length (components s)) = level e - base + 1
          /\ ((forall i x, (i <= k)%nat -> nth_error entries i = Some x ->
                           base < level x) ->
              exists rest, components s = "0" :: rest)
          /\ (forall m : nat,
                 (m <= 7)%nat ->
                 (forall i x, (i <= k)%nat -> nth_error entries i = Some x ->
                              base + Z.of_nat m <= level x) ->
                 firstn m (components s) = repeat "0" m))
  /\ map numbering (assignNumbering [plainEntry 2 "A"; plainEntry 1 "B"])
     = [Some "0.1"; Some "1"]
  /\ components "0.1" = ["0"; "1"]
  /\ map numbering
       (assignNumbering [plainEntry 3 "A"; plainEntry 2 "B"; plainEntry 1 "C"])
     = [Some "0.0.1"; Some "0.1"; Some "1"].
Proof.
  split; [| repeat split; reflexivity].
  intros entries base Hmin k e Hk.
  destruct entries as [| e0 rest]; [destruct k; discriminate |].
  assert (Hb : minLevelOf e0 (e0 :: rest) = base)
    by (eapply isMinLevel_unique; [apply minLevelOf_min | exact Hmin]).
  assert (Hzeros : forall m : nat,
             (m <= 7)%nat ->
             (forall i x, (i <= k)%nat -> nth_error (e0 :: rest) i = Some x ->
                          base + Z.of_nat m <= level x) ->
             exists parts,
               nth_error (assignNumbering (e0 :: rest)) k
               = Some (setNumbering e (join parts))
               /\ length parts = S (depthOf base e)
               /\ firstn m (map joinItem parts) = repeat "0" m).
  { intros m Hm Hdeep. unfold assignNumbering; rewrite Hb.
    destruct (numberEntries_nth_zeros base m (e0 :: rest) initialCounters k e)
      as (parts & Hnth & Hlen & Hz); [| | exact Hk |].
    - intros j Hj. unfold initialCounters, readIndex.
      do 7 (destruct j as [| j]; [reflexivity |]). lia.
    - intros i x Hi Hx. specialize (Hdeep i x Hi Hx). unfold depthOf. lia.
    - exists parts. split; [exact Hnth | split; [exact Hlen |]].
      apply firstn_all_equal. intros j Hj.
      rewrite nth_error_map, (Hz j Hj). reflexivity. }
  destruct (Hzeros 0%nat ltac:(lia)) as (parts & Hnth & Hlen & _).
  { intros i x _ Hx. destruct Hmin as [_ Hlow].
    specialize (Hlow x (nth_error_In _ _ Hx)). lia. }
  assert (Hparts : parts <> []) by (destruct parts; [discriminate | discriminate]).
  exists (setNumbering e (join parts)), (join parts).
  split; [exact Hnth | split; [reflexivity |]].
  rewrite components_join by exact Hparts.
  split.
  { rewrite length_map, Hlen. unfold depthOf.
    destruct Hmin as [_ Hlow]; specialize (Hlow e (nth_error_In _ _ Hk)). lia. }
  assert (Hfirst : forall m : nat,
             (m <= 7)%nat ->
             (forall i x, (i <= k)%nat -> nth_error (e0 :: rest) i = Some x ->
                          base + Z.of_nat m <= level x) ->
             firstn m (map joinItem parts) = repeat "0" m).
  { intros m Hm Hdeep.
    destruct (Hzeros m Hm Hdeep) as (parts' & Hnth' & Hlen' & Hz).
    rewrite Hnth in Hnth'. injection Hnth' as Hjoin.
    assert (Hsame : map joinItem parts = map joinItem parts').
    { rewrite <- (components_join parts) by exact Hparts.
      rewrite <- (components_join parts') by (destruct parts'; discriminate).
      now rewrite Hjoin. }
    now rewrite Hsame. }
  split; [| exact Hfirst].
  intros Hdeep.
  assert (H1 : firstn 1 (map joinItem parts) = repeat "0" 1).
  { apply Hfirst; [lia |]. intros i x Hi Hx. specialize (Hdeep i x Hi Hx). lia. }
  destruct (map joinItem parts) as [| c rest']; [discriminate |].
  cbn [firstn repeat] in H1. injection H1 as ->. now exists rest'.
Qed.

Lemma assignNumbering_component_count_witness :
  exists r s,
    nth_error (assignNumbering [plainEntry 2 "A"; plainEntry 1 "B"]) 0 = Some r
    /\ numbering r = Some s
    /\ Z.of_nat (length (components s)) = 2 - 1 + 1
    /\ exists rest, components s = "0" :: rest.
Proof.
  destruct (proj1 assignNumbering_component_count
              [plainEntry 2 "A"; plainEntry 1 "B"] 1 (ltac:(
                split;
                [ exists (plainEntry 1 "B"); split; [right; now left | reflexivity]
                | intros e Hin; simpl in Hin;
                  repeat (destruct Hin as [<- | Hin]; [simpl; lia |]); destruct Hin ]))
              0%nat (plainEntry 2 "A") eq_refl)
    as (r & s & Hr & Hs & Hlen & Hzero & _).
  exists r, s. split; [exact Hr |]. split; [exact Hs |]. split; [exact Hlen |].
  apply Hzero. intros i x Hi Hx.
  destruct i as [| i]; [| lia]. simpl in Hx; injection Hx as <-. simpl; lia.
Defined.

(* ===================================================================== *)
(** * TOC page insertion *)
(* ===================================================================== *)

Section Insertion.

Lemma preparedEntries_length (config : ResolvedTocConfig) (content : list SchemaContentElement) :
  length (preparedEntries config content) = length (extractTocEntries content config).
Proof.
  unfold preparedEntries; destruct (numbered config);
    [apply assignNumbering_length | reflexivity].
Qed.

Lemma preparedEntries_unassigned (config : ResolvedTocConfig)
  (content : list SchemaContentElement) :
  Forall (fun e => pageNumber e = None) (preparedEntries config content).
Proof.
  assert (H : map pageNumber (preparedEntries config content)
              = map pageNumber (extractTocEntries content config)).
  { unfold preparedEntries; destruct (numbered config);
      [apply assignNumbering_pageNumber | reflexivity]. }
  assert (Hfresh : Forall (fun o => o = None)
                     (map pageNumber (extractTocEntries content config))).
  { apply Forall_map. eapply Forall_impl; [| apply extractTocEntries_fresh].
    intros e (_ & _ & Hp); exact Hp. }
  rewrite <- H in Hfresh. now apply Forall_map in Hfresh.
Qed.

Lemma tocEntriesOf_length (ctx : LayoutContext) (config : ResolvedTocConfig)
  (content : list SchemaContentElement) (hasCoverPage : bool) :
  length (tocEntriesOf ctx config content hasCoverPage)
  = length (extractTocEntries content config).
Proof.
  unfold tocEntriesOf, assignPageNumbersFromDrawnElements.
  now rewrite matchEntries_length, preparedEntries_length.
Qed.

Lemma splice_length (ps : list Page) (i : nat) (inserted : list Page) :
  length (splice ps i inserted) = (length ps + length inserted)%nat.
Proof.
  unfold splice. rewrite !length_app.
  rewrite <- (firstn_skipn i ps) at 3. rewrite length_app. lia.
Qed.

Lemma renderedTocPages_length (config : ResolvedTocConfig) (entries : list TocEntry)
  (n : nat) (epp : Z) :
  length (renderedTocPages config entries n epp) = n.
Proof. unfold renderedTocPages; now rewrite length_map, length_seq. Qed.

Lemma bind_returned (A B : Type) (m : Outcome A) (k : A -> Outcome B) (b : B) :
  bind m k = Returned b -> exists a, m = Returned a /\ k a = Returned b.
Proof. destruct m as [a | |]; simpl; [eauto | discriminate | discriminate]. Qed.

(** What [insertTocPages] does once there is at least one entry. *)
Lemma insertTocPages_entries (ctx : LayoutContext) (tocConfig : option TableOfContents)
  (config : ResolvedTocConfig) (content : list SchemaContentElement) (hasCoverPage : bool) :
  resolveTocConfig tocConfig = Some config ->
  extractTocEntries content config <> [] ->
  insertTocPages ctx tocConfig (Some content) hasCoverPage
  = if (Nat.b2n hasCoverPage <=? length (pages ctx))%nat
    then match tocPageCountOf (length (extractTocEntries content config))
                 (entriesPerPage ctx) with
         | None => Diverges
         | Some tocPageCount =>
             let ctx' :=
               withPages ctx
                 (splice (pages ctx) (Nat.b2n hasCoverPage)
                    (renderedTocPages config
                       (tocEntriesOf ctx config content hasCoverPage)
                       (Z.to_nat tocPageCount) (entriesPerPage ctx))) in
             drawings <- renderTocContent ctx' config
                           (tocEntriesOf ctx config content hasCoverPage)
                           (Nat.b2n hasCoverPage)
                           (Z.to_nat tocPageCount) (entriesPerPage ctx) ;;
             Returned (tocPageCount, ctx')
         end
    else Throws.
Proof.
  intros Hcfg Hne; unfold insertTocPages; rewrite Hcfg.
  destruct content as [| el content]; [now elim Hne |].
  destruct (extractTocEntries (el :: content) config) eqn:E; [now elim Hne |].
  rewrite tocEntriesOf_length, E.
  destruct hasCoverPage; cbn [Nat.b2n];
    (destruct (_ <=? _)%nat; [| reflexivity]);
    (destruct (tocPageCountOf _ _); reflexivity).
Qed.

Lemma tocPageCountOf_positive (n : nat) (epp k : Z) :
  tocPageCountOf n epp = Some k -> 1 <= k.
Proof.
  unfold tocPageCountOf; destruct (epp =? 0); [discriminate |].
  intros [= <-]; lia.
Qed.

(** [Math.ceil(n / d)] on integers, by integer division. *)
Lemma Qceiling_div (n d : Z) :
  Qceiling (inject_Z n / inject_Z d) = - ((- n) / d).
Proof.
  unfold Qceiling; f_equal. rewrite Zdiv_Qdiv. apply Qfloor_comp.
  rewrite inject_Z_opp. unfold Qdiv. ring.
Qed.

(** With room for [d > 0] entries on a page, the page count of the
    source is the least number of pages, 1 at least, that hold [n]
    entries. *)
Lemma tocPageCountOf_least (n : nat) (d k : Z) :
  0 < d ->
  tocPageCountOf n d = Some k ->
  1 <= k /\ Z.of_nat n <= k * d
  /\ forall j, 1 <= j -> Z.of_nat n <= j * d -> k <= j.
Proof.
  intros Hd; unfold tocPageCountOf.
  destruct (Z.eqb_spec d 0) as [E | _]; [lia |].
  rewrite Qceiling_div; intros [= <-].
  pose proof (Z.mul_div_le (- Z.of_nat n) d Hd) as Hlo.
  pose proof (Z.mul_succ_div_gt (- Z.of_nat n) d Hd) as Hhi.
  repeat split; [lia | nia |].
  intros j Hj Hfit. nia.
Qed.

End Insertion.



(** C4: [insertTocPages] returns 0 and hands the context back as it got
    it (page list included) when the TOC configuration is absent or
    disabled, when the content is absent or empty, and when no heading
    of the content has its level within [[minLevel, maxLevel]]. *)
Theorem insertTocPages_noop :
  (forall (ctx : LayoutContext) (tocConfig : option TableOfContents)
          (content : option (list SchemaContentElement)) (hasCoverPage : bool),
      (tocConfig = None
       \/ (exists t, tocConfig = Some t /\ toc_enabled t = Some false)
       \/ content = None
       \/ content = Some []
       \/ (exists config c,
              resolveTocConfig tocConfig = Some config
              /\ content = Some c
              /\ forall lvl txt, In (Heading lvl txt) c ->
                                 lvl < minLevel config \/ maxLevel config < lvl)) ->
      insertTocPages ctx tocConfig content hasCoverPage = Returned (0, ctx))
  /\ insertTocPages smallContext (Some tocDeepOnly)
       (Some [Heading 1 "Only H1"; Paragraph "Text."]) false
     = Returned (0, smallContext).
Proof.
  split; [| reflexivity].
  intros ctx tocConfig content hasCoverPage H.
  destruct H as [-> | [(t & -> & Hoff) | [-> | [-> | (config & c & Hcfg & -> & Hout)]]]].
  - reflexivity.
  - unfold insertTocPages, resolveTocConfig; now rewrite Hoff.
  - unfold insertTocPages; now destruct (resolveTocConfig tocConfig).
  - unfold insertTocPages; now destruct (resolveTocConfig tocConfig).
  - assert (E : extractTocEntries c config = []).
    { apply extractTocEntries_nil_iff. intros [lvl txt | | | | | |] Hin; try reflexivity.
      simpl. destruct (Hout lvl txt Hin);
        [apply andb_false_iff; left | apply andb_false_iff; right];
        apply Z.leb_gt; lia. }
    unfold insertTocPages; rewrite Hcfg.
    destruct c; [reflexivity | now rewrite E].
Qed.

Lemma insertTocPages_noop_witness :
  insertTocPages smallContext (Some tocDeepOnly)
    (Some [Heading 1 "Only H1"; Paragraph "Text."]) true
  = Returned (0, smallContext).
Proof.
  apply (proj1 insertTocPages_noop).
  do 4 right.
  exists (configWithLevels 4 6), [Heading 1 "Only H1"; Paragraph "Text."].
  split; [reflexivity | split; [reflexivity |]].
  intros lvl txt [H | [H | []]]; [| discriminate].
  injection H as <- _; simpl; lia.
Defined.

Section PageNumberRange.

Variable hs : list DrawnElement.
Variable hasCoverPage : bool.

Lemma searchForward_In (rest : list DrawnElement) (i : nat) (txt : string) (j : nat) (p : Z) :
  searchForward rest i txt = Some (j, p) -> exists el, In el rest /\ de_page el = p.
Proof.
  revert i; induction rest as [| x rest IH]; intros i; simpl; [discriminate |].
  destruct (String.eqb (de_content x) txt).
  - intros [= _ <-]; exists x; split; [now left | reflexivity].
  - intros H; destruct (IH _ H) as (el & Hin & Hp); exists el; split; [now right | exact Hp].
Qed.

Lemma skipn_In (c : nat) (el : DrawnElement) : In el (skipn c hs) -> In el hs.
Proof.
  intros H; rewrite <- (firstn_skipn c hs); apply in_or_app; now right.
Qed.

(** An entry without a page number leaves the matcher with 1 or with the
    shown page of a heading-or-title element. *)
Lemma matchEntry_page (c : nat) (e : TocEntry) :
  pageNumber e = None ->
  pageNumber (snd (matchEntry hs hasCoverPage c e)) = Some 1
  \/ exists el, In el hs
                /\ pageNumber (snd (matchEntry hs hasCoverPage c e))
                   = Some (shownPage hasCoverPage el).
Proof.
  intros Hfresh; unfold matchEntry.
  destruct (searchForward (skipn c hs) c (text e)) as [[j p] |] eqn:E; simpl.
  - right. destruct (searchForward_In _ _ _ _ _ E) as (el & Hin & <-).
    exists el; split; [exact (skipn_In c el Hin) |].
    unfold shownPage; destruct hasCoverPage; [reflexivity | now rewrite Z.sub_0_r].
  - left. unfold defaultPageNumber; now rewrite Hfresh.
Qed.

Lemma matchEntries_pages (total : Z) (c : nat) (es : list TocEntry) :
  1 <= total ->
  (forall el, In el hs -> 1 <= shownPage hasCoverPage el <= total) ->
  Forall (fun e => pageNumber e = None) es ->
  Forall (pageNumberWithin total) (snd (matchEntries hs hasCoverPage c es)).
Proof.
  intros Htotal Hhs; revert c; induction es as [| e es IH]; intros c Hfresh;
    [constructor |].
  inversion Hfresh as [| ? ? He Hes]; subst.
  rewrite matchEntries_cons; constructor; [| apply IH; exact Hes].
  unfold pageNumberWithin.
  destruct (matchEntry_page c e He) as [-> | (el & Hin & ->)].
  - exists 1; split; [reflexivity | lia].
  - eexists; split; [reflexivity | apply Hhs; exact Hin].
Qed.

End PageNumberRange.

(** C6, the claim as it stands: a title drawn on page 1 of a document
    with a cover page gives its entry the page number 0, which is not
    positive; and a heading recorded on page 9 of a two-page document
    gives its entry the page number 9, above the three pages there are
    after the insertion. *)
Lemma matcher_page_number_zero :
  (exists ctx',
      insertTocPages titleOnFirstPage (Some tocEnabled) (Some [Heading 1 "Report"]) true
      = Returned (1, ctx')
      /\ Z.of_nat (length (pages ctx')) = 3)
  /\ map pageNumber
       (tocEntriesOf titleOnFirstPage (configWithLevels 1 3) [Heading 1 "Report"] true)
     = [Some 0]
  /\ ~ Forall (pageNumberWithin 3)
         (tocEntriesOf titleOnFirstPage (configWithLevels 1 3) [Heading 1 "Report"] true)
  /\ (exists ctx',
         insertTocPages headingPastLastPage (Some tocEnabled) (Some [Heading 1 "Scope"]) false
         = Returned (1, ctx')
         /\ Z.of_nat (length (pages ctx')) = 3)
  /\ map pageNumber
       (tocEntriesOf headingPastLastPage (configWithLevels 1 3) [Heading 1 "Scope"] false)
     = [Some 9]
  /\ ~ Forall (pageNumberWithin 3)
         (tocEntriesOf headingPastLastPage (configWithLevels 1 3) [Heading 1 "Scope"] false).
Proof.
  split; [eexists; split; [vm_compute; reflexivity | reflexivity] |].
  split; [reflexivity |].
  split.
  { intros H; inversion H as [| ? ? (p & Hp & Hrange) _]; subst.
    vm_compute in Hp; injection Hp as <-. lia. }
  split; [eexists; split; [vm_compute; reflexivity | reflexivity] |].
  split; [reflexivity |].
  intros H; inversion H as [| ? ? (p & Hp & Hrange) _]; subst.
  vm_compute in Hp; injection Hp as <-. lia.
Qed.

(** C6, amended: when every heading-or-title drawn element lies on a
    page between the first content page (2 behind a cover page, else 1)
    and the page count before insertion, every page number the matcher
    assigns within a call of [insertTocPages] that returns is at least 1
    and at most the page count after insertion. *)
Theorem matcher_page_numbers_within :
  forall (ctx ctx' : LayoutContext) (tocConfig : option TableOfContents)
         (config : ResolvedTocConfig) (content : list SchemaContentElement)
         (hasCoverPage : bool) (inserted : Z),
    resolveTocConfig tocConfig = Some config ->
    (forall el, In el (drawnElements ctx) -> isHeadingOrTitle el = true ->
                (if hasCoverPage then 2 else 1) <= de_page el
                /\ de_page el <= Z.of_nat (length (pages ctx))) ->
    insertTocPages ctx tocConfig (Some content) hasCoverPage = Returned (inserted, ctx') ->
    Forall (pageNumberWithin (Z.of_nat (length (pages ctx'))))
      (tocEntriesOf ctx config content hasCoverPage).
Proof.
  intros ctx ctx' tocConfig config content hasCoverPage inserted Hcfg Hdrawn Hret.
  destruct (extractTocEntries content config) as [| e0 es] eqn:E.
  - assert (Hnil : tocEntriesOf ctx config content hasCoverPage = []).
    { apply length_zero_iff_nil; now rewrite tocEntriesOf_length, E. }
    rewrite Hnil; constructor.
  - assert (Hne : extractTocEntries content config <> []) by (rewrite E; discriminate).
    rewrite (insertTocPages_entries ctx tocConfig config content hasCoverPage Hcfg Hne) in Hret.
    destruct (Nat.b2n hasCoverPage <=? length (pages ctx))%nat; [| discriminate].
    destruct (tocPageCountOf _ _) as [k |] eqn:Hk; [| discriminate].
    apply tocPageCountOf_positive in Hk.
    apply bind_returned in Hret as (drawings & _ & Hret).
    injection Hret as _ <-.
    cbn [pages withPages]. rewrite splice_length, renderedTocPages_length.
    apply matchEntries_pages.
    + lia.
    + intros el Hel. apply filter_In in Hel as [Hin Hty].
      specialize (Hdrawn el Hin Hty). unfold shownPage.
      destruct hasCoverPage; lia.
    + apply preparedEntries_unassigned.
Qed.

Lemma matcher_page_numbers_within_witness :
  Forall (pageNumberWithin 6) (tocEntriesOf smallContext (configWithLevels 1 3) sevenHeadings true).
Proof.
  apply (matcher_page_numbers_within smallContext
           (withPages smallContext
              (splice (pages smallContext) 1
                 (renderedTocPages (configWithLevels 1 3)
                    (tocEntriesOf smallContext (configWithLevels 1 3) sevenHeadings true)
                    3 3)))
           (Some tocEnabled) (configWithLevels 1 3) sevenHeadings true 3).
  - reflexivity.
  - intros el Hin _. simpl in Hin.
    repeat (destruct Hin as [<- | Hin]; [simpl; lia |]). destruct Hin.
  - vm_compute; reflexivity.
Defined.

(* ===================================================================== *)
(** * The anchor slug *)
(* ===================================================================== *)

Section AnchorId.

Ltac each_char c :=
  destruct c as [[] [] [] [] [] [] [] []]; vm_compute; try reflexivity; try discriminate.

Lemma slugChar_lower (c : ascii) : slugChar c = true -> lowerChar c = c.
Proof. each_char c. Qed.

Lemma slugChar_kept (c : ascii) :
  slugChar c = true -> isWord c || isSpace c || isHyphen c = true.
Proof. each_char c. Qed.

Lemma slugChar_not_space (c : ascii) : slugChar c = true -> isSpace c = false.
Proof. each_char c. Qed.

Lemma isHyphen_eq (c : ascii) : isHyphen c = true -> c = "-"%char.
Proof. each_char c. Qed.

Lemma lowered_kept (c : ascii) :
  isWord (lowerChar c) || isSpace (lowerChar c) || isHyphen (lowerChar c) = true ->
  slugChar (lowerChar c) || isSpace (lowerChar c) = true.
Proof. each_char c. Qed.

(** ** What each step leaves *)

Lemma removeSpecial_chars (s : string) :
  allChars (fun c => slugChar c || isSpace c) (removeSpecial (toLowerCase s)) = true.
Proof.
  induction s as [| c r IH]; simpl; [reflexivity |].
  destruct (isWord (lowerChar c) || isSpace (lowerChar c) || isHyphen (lowerChar c)) eqn:E;
    [| exact IH].
  simpl; now rewrite (lowered_kept c E), IH.
Qed.

Lemma replaceSpaces_chars (b : bool) (s : string) :
  allChars (fun c => slugChar c || isSpace c) s = true ->
  allChars slugChar (replaceRuns isSpace b s) = true.
Proof.
  revert b; induction s as [| c r IH]; intros b; simpl; [reflexivity |].
  intros H; apply andb_true_iff in H as [Hc Hr].
  destruct (isSpace c) eqn:E.
  - destruct b; simpl; now apply IH.
  - rewrite orb_false_r in Hc. simpl; rewrite Hc; now apply IH.
Qed.

Lemma replaceHyphens_chars (b : bool) (s : string) :
  allChars slugChar s = true ->
  allChars slugChar (replaceRuns isHyphen b s) = true.
Proof.
  revert b; induction s as [| c r IH]; intros b; simpl; [reflexivity |].
  intros H; apply andb_true_iff in H as [Hc Hr].
  destruct (isHyphen c) eqn:E.
  - destruct b; simpl; now apply IH.
  - simpl; rewrite Hc; now apply IH.
Qed.

Lemma replaceHyphens_single (b : bool) (s : string) :
  noDoubleHyphen b (replaceRuns isHyphen b s) = true.
Proof.
  revert b; induction s as [| c r IH]; intros b; simpl; [reflexivity |].
  destruct (isHyphen c) eqn:E.
  - destruct b; simpl; apply IH.
  - simpl; rewrite E; apply IH.
Qed.

Lemma noDoubleHyphen_after (s : string) :
  noDoubleHyphen true s = true ->
  noDoubleHyphen false s = true /\ startsWithHyphen s = false.
Proof.
  destruct s as [| c r]; simpl; [auto |].
  destruct (isHyphen c); simpl; [discriminate | auto].
Qed.

Lemma dropLeadingHyphen_chars (p : ascii -> bool) (s : string) :
  allChars p s = true -> allChars p (dropLeadingHyphen s) = true.
Proof.
  destruct s as [| c r]; simpl; [auto |].
  intros H; destruct (isHyphen c); [| exact H].
  now apply andb_true_iff in H as [_ H].
Qed.

Lemma dropLeadingHyphen_single (s : string) :
  noDoubleHyphen false s = true ->
  noDoubleHyphen false (dropLeadingHyphen s) = true
  /\ startsWithHyphen (dropLeadingHyphen s) = false.
Proof.
  destruct s as [| c r]; simpl; [auto |].
  destruct (isHyphen c) eqn:E; simpl.
  - apply noDoubleHyphen_after.
  - rewrite E; auto.
Qed.

Lemma dropTrailingHyphen_cons (c : ascii) (r : string) :
  r <> EmptyString -> dropTrailingHyphen (String c r) = String c (dropTrailingHyphen r).
Proof. destruct r; [congruence | reflexivity]. Qed.

Lemma endsWithHyphen_cons (c : ascii) (r : string) :
  r <> EmptyString -> endsWithHyphen (String c r) = endsWithHyphen r.
Proof. destruct r; [congruence | reflexivity]. Qed.

Lemma dropTrailingHyphen_one (c : ascii) :
  dropTrailingHyphen (String c EmptyString)
  = if isHyphen c then EmptyString else String c EmptyString.
Proof. reflexivity. Qed.

Lemma dropTrailingHyphen_empty (s : string) :
  dropTrailingHyphen s = EmptyString -> s = EmptyString \/ s = "-".
Proof.
  destruct s as [| c r]; [now left |].
  destruct r as [| c' r']; [| discriminate].
  rewrite dropTrailingHyphen_one. destruct (isHyphen c) eqn:E; [| discriminate].
  right; now rewrite (isHyphen_eq c E).
Qed.

Lemma dropTrailingHyphen_chars (p : ascii -> bool) (s : string) :
  allChars p s = true -> allChars p (dropTrailingHyphen s) = true.
Proof.
  induction s as [| c r IH]; [auto |].
  intros H; simpl in H; apply andb_true_iff in H as [Hc Hr].
  destruct (string_dec r EmptyString) as [-> | Hne].
  - rewrite dropTrailingHyphen_one; destruct (isHyphen c); simpl; [reflexivity | now rewrite Hc].
  - rewrite dropTrailingHyphen_cons by exact Hne. simpl; now rewrite Hc, (IH Hr).
Qed.

Lemma dropTrailingHyphen_single (b : bool) (s : string) :
  noDoubleHyphen b s = true -> noDoubleHyphen b (dropTrailingHyphen s) = true.
Proof.
  revert b; induction s as [| c r IH]; intros b; [auto |].
  destruct (string_dec r EmptyString) as [-> | Hne].
  - rewrite dropTrailingHyphen_one; destruct (isHyphen c) eqn:E; [reflexivity | auto].
  - rewrite dropTrailingHyphen_cons by exact Hne. simpl.
    destruct (isHyphen c).
    + intros H; apply andb_true_iff in H as [Hb Hr]; rewrite Hb; simpl. now apply IH.
    + apply IH.
Qed.

Lemma dropTrailingHyphen_start (s : string) :
  startsWithHyphen s = false -> startsWithHyphen (dropTrailingHyphen s) = false.
Proof.
  destruct s as [| c r]; [auto |].
  destruct (string_dec r EmptyString) as [-> | Hne].
  - rewrite dropTrailingHyphen_one; simpl; intros E; rewrite E; simpl; exact E.
  - rewrite dropTrailingHyphen_cons by exact Hne. auto.
Qed.

Lemma dropTrailingHyphen_end (b : bool) (s : string) :
  noDoubleHyphen b s = true -> endsWithHyphen (dropTrailingHyphen s) = false.
Proof.
  revert b; induction s as [| c r IH]; intros b; [auto |].
  destruct (string_dec r EmptyString) as [-> | Hne].
  - rewrite dropTrailingHyphen_one; destruct (isHyphen c) eqn:E; simpl;
      [reflexivity | intros _; exact E].
  - rewrite dropTrailingHyphen_cons by exact Hne. simpl noDoubleHyphen.
    intros H.
    destruct (string_dec (dropTrailingHyphen r) EmptyString) as [D | D].
    + (* the rest is a single hyphen, so [c] is not one *)
      rewrite D. destruct (dropTrailingHyphen_empty r D) as [-> | ->]; [congruence |].
      simpl. destruct (isHyphen c); [| reflexivity].
      simpl in H. now rewrite andb_false_r in H.
    + rewrite endsWithHyphen_cons by exact D.
      destruct (isHyphen c).
      * apply andb_true_iff in H as [_ H]. exact (IH true H).
      * exact (IH false H).
Qed.

(** The output of [generateAnchorId] is a finished slug. *)
Lemma generateAnchorId_isSlug (s : string) : isSlug (generateAnchorId s).
Proof.
  unfold generateAnchorId, trimHyphens.
  set (t := replaceRuns isHyphen false (replaceRuns isSpace false (removeSpecial (toLowerCase s)))).
  assert (Hchars : allChars slugChar t = true)
    by (apply replaceHyphens_chars, replaceSpaces_chars, removeSpecial_chars).
  assert (Hsingle : noDoubleHyphen false t = true) by apply replaceHyphens_single.
  destruct (dropLeadingHyphen_single t Hsingle) as [Hs Hstart].
  repeat split.
  - now apply dropTrailingHyphen_chars, dropLeadingHyphen_chars.
  - now apply dropTrailingHyphen_single.
  - now apply dropTrailingHyphen_start.
  - now apply (dropTrailingHyphen_end false).
Qed.

(** ** A finished slug passes every step unchanged *)

Lemma toLowerCase_slug (s : string) : allChars slugChar s = true -> toLowerCase s = s.
Proof.
  induction s as [| c r IH]; simpl; [reflexivity |].
  intros H; apply andb_true_iff in H as [Hc Hr].
  now rewrite (slugChar_lower c Hc), (IH Hr).
Qed.

Lemma removeSpecial_slug (s : string) : allChars slugChar s = true -> removeSpecial s = s.
Proof.
  induction s as [| c r IH]; simpl; [reflexivity |].
  intros H; apply andb_true_iff in H as [Hc Hr].
  now rewrite (slugChar_kept c Hc), (IH Hr).
Qed.

Lemma replaceSpaces_slug (b : bool) (s : string) :
  allChars slugChar s = true -> replaceRuns isSpace b s = s.
Proof.
  revert b; induction s as [| c r IH]; intros b; simpl; [reflexivity |].
  intros H; apply andb_true_iff in H as [Hc Hr].
  now rewrite (slugChar_not_space c Hc), (IH false Hr).
Qed.

Lemma replaceHyphens_slug (b : bool) (s : string) :
  noDoubleHyphen b s = true -> replaceRuns isHyphen b s = s.
Proof.
  revert b; induction s as [| c r IH]; intros b; simpl; [reflexivity |].
  destruct (isHyphen c) eqn:E.
  - intros H; apply andb_true_iff in H as [Hb Hr].
    destruct b; [discriminate |].
    now rewrite (IH true Hr), (isHyphen_eq c E).
  - intros H; now rewrite (IH false H).
Qed.

Lemma dropTrailingHyphen_slug (s : string) :
  endsWithHyphen s = false -> dropTrailingHyphen s = s.
Proof.
  induction s as [| c r IH]; [reflexivity |].
  destruct (string_dec r EmptyString) as [-> | Hne].
  - simpl; now intros ->.
  - rewrite dropTrailingHyphen_cons, endsWithHyphen_cons by exact Hne.
    intros H; now rewrite IH.
Qed.

Lemma generateAnchorId_slug (s : string) : isSlug s -> generateAnchorId s = s.
Proof.
  intros (Hchars & Hsingle & Hstart & Hend); unfold generateAnchorId, trimHyphens.
  rewrite (toLowerCase_slug s Hchars), (removeSpecial_slug s Hchars),
    (replaceSpaces_slug false s Hchars), (replaceHyphens_slug false s Hsingle).
  assert (Hlead : dropLeadingHyphen s = s).
  { destruct s as [| c r]; [reflexivity |]. simpl in *. now rewrite Hstart. }
  rewrite Hlead; now apply dropTrailingHyphen_slug.
Qed.

End AnchorId.

(** C9: [generateAnchorId] is a function whose output it maps to itself;
    the output holds lowercase letters, digits, underscores and single
    hyphens only, with no hyphen at either end; and it is the
    composition of the five steps of the source.  "Section 1:
    Overview!" gives "section-1-overview" and "  Hello  " gives
    "hello". *)
Theorem generateAnchorId_idempotent :
  (forall s : string, generateAnchorId (generateAnchorId s) = generateAnchorId s)
  /\ (forall s : string, isSlug (generateAnchorId s))
  /\ (forall s : string,
         generateAnchorId s
         = trimHyphens
             (replaceRuns isHyphen false
                (replaceRuns isSpace false (removeSpecial (toLowerCase s)))))
  /\ generateAnchorId "Section 1: Overview!" = "section-1-overview"
  /\ generateAnchorId "  Hello  " = "hello"
  /\ generateAnchorId "A   B---C" = "a-b-c".
Proof.
  split; [intros s; apply generateAnchorId_slug, generateAnchorId_isSlug |].
  split; [apply generateAnchorId_isSlug |].
  repeat split; reflexivity.
Qed.

(* ===================================================================== *)
(** * Further properties of [toc-utils.ts] *)
(* ===================================================================== *)

(** X1: [resolveTocConfig] returns [null] exactly when the configuration
    is absent or its [enabled] is [false]; a configuration it returns
    always has [enabled = true], and hides the page numbers only when
    [showPageNumbers] is [false] in the raw one. *)
Theorem resolveTocConfig_null_iff :
  forall toc : option TableOfContents,
    (resolveTocConfig toc = None
     <-> toc = None \/ exists t, toc = Some t /\ toc_enabled t = Some false)
    /\ (forall config,
           resolveTocConfig toc = Some config ->
           enabled config = true
           /\ (showPageNumbers config = false
               <-> exists t, toc = Some t /\ toc_showPageNumbers t = Some false)).
Proof.
  intros toc; split.
  - destruct toc as [t |]; unfold resolveTocConfig.
    + destruct (toc_enabled t) as [[|] |] eqn:E; split; intros H;
        try discriminate; try reflexivity;
        try (right; exists t; split; [reflexivity | exact E]);
        destruct H as [H | (t' & H & H')]; try discriminate;
        injection H as <-; congruence.
    + split; [now left | reflexivity].
  - intros config H. destruct toc as [t |]; [| discriminate].
    unfold resolveTocConfig in H.
    assert (Hcfg : enabled config = true
                   /\ showPageNumbers config = notFalse (toc_showPageNumbers t)).
    { destruct (toc_enabled t) as [[|] |]; try discriminate;
        injection H as <-; simpl; split; reflexivity. }
    destruct Hcfg as [He Hs]; split; [exact He |]. rewrite Hs.
    destruct (toc_showPageNumbers t) as [[|] |] eqn:S; simpl; split; intros H';
      try discriminate; try reflexivity;
      try (exists t; split; [reflexivity | exact S]);
      destruct H' as (t' & H1 & H2); injection H1 as <-; congruence.
Qed.

(** X2: extracting from a concatenation of two content sequences gives
    the entries of the first followed by the entries of the second. *)
Theorem extractTocEntries_app :
  forall (a b : list SchemaContentElement) (config : ResolvedTocConfig),
    extractTocEntries (a ++ b) config
    = extractTocEntries a config ++ extractTocEntries b config.
Proof.
  intros a b config; unfold extractTocEntries.
  now rewrite fold_left_app, extract_fold_app.
Qed.

(** X3: every extracted entry has its level within [[minLevel,
    maxLevel]] and is made from a heading of the content with that level
    and text; no more entries than content elements come out. *)
Theorem extractTocEntries_within_range :
  forall (content : list SchemaContentElement) (config : ResolvedTocConfig) (e : TocEntry),
    In e (extractTocEntries content config) ->
    minLevel config <= level e <= maxLevel config
    /\ In (Heading (level e) (text e)) content
    /\ (length (extractTocEntries content config) <= length content)%nat.
Proof.
  intros content config e Hin.
  assert (Hh : In (headingOfEntry e) (filter (headingInRange config) content)).
  { rewrite <- extractTocEntries_filter; now apply in_map. }
  apply filter_In in Hh as [Hc Hr]. unfold headingOfEntry in *; simpl in Hr.
  apply andb_true_iff in Hr as [H1 H2]. apply Z.leb_le in H1, H2.
  split; [lia | split; [exact Hc |]].
  rewrite <- (length_map headingOfEntry), extractTocEntries_filter.
  apply filter_length_le.
Qed.

Lemma extractTocEntries_within_range_witness :
  2 <= 3 <= 3 /\ In (Heading 3 "Details") sampleContent
  /\ (length (extractTocEntries sampleContent (configWithLevels 2 3))
      <= length sampleContent)%nat.
Proof.
  apply (extractTocEntries_within_range sampleContent (configWithLevels 2 3)
           (plainEntry 3 "Details")).
  right; left; reflexivity.
Defined.

(** X4: a range whose [minLevel] exceeds its [maxLevel] selects nothing,
    so [insertTocPages] inserts no page whatever the content. *)
Theorem inverted_range_selects_nothing :
  forall (ctx : LayoutContext) (tocConfig : option TableOfContents)
         (config : ResolvedTocConfig) (content : list SchemaContentElement)
         (hasCoverPage : bool),
    resolveTocConfig tocConfig = Some config ->
    maxLevel config < minLevel config ->
    extractTocEntries content config = []
    /\ insertTocPages ctx tocConfig (Some content) hasCoverPage = Returned (0, ctx).
Proof.
  intros ctx tocConfig config content hasCoverPage Hcfg Hinv.
  assert (E : extractTocEntries content config = []).
  { apply extractTocEntries_nil_iff. intros [lvl txt | | | | | |] _; try reflexivity.
    simpl. apply andb_false_iff.
    destruct (Z.leb_spec (minLevel config) lvl); [right; apply Z.leb_gt; lia | now left]. }
  split; [exact E |].
  unfold insertTocPages; rewrite Hcfg. destruct content; [reflexivity | now rewrite E].
Qed.

Lemma inverted_range_selects_nothing_witness :
  extractTocEntries sampleContent (configWithLevels 3 2) = []
  /\ insertTocPages smallContext
       (Some {| toc_enabled := None; toc_title := None; toc_minLevel := Some 3;
                toc_maxLevel := Some 2; toc_numbered := None;
                toc_showPageNumbers := None |})
       (Some sampleContent) true
     = Returned (0, smallContext).
Proof.
  apply (inverted_range_selects_nothing smallContext _ (configWithLevels 3 2)).
  - reflexivity.
  - simpl; lia.
Defined.

Section NumbererMore.

Lemma numberEntries_clear (base : Z) (counters : list JsValue) (entries : list TocEntry) :
  map clearNumbering (numberEntries base counters entries) = map clearNumbering entries.
Proof.
  revert counters; induction entries as [| e entries IH]; intros counters; simpl;
    [reflexivity | now rewrite IH].
Qed.

Lemma numberEntries_level (base : Z) (counters : list JsValue) (entries : list TocEntry) :
  map level (numberEntries base counters entries) = map level entries.
Proof.
  revert counters; induction entries as [| e entries IH]; intros counters; simpl;
    [reflexivity | now rewrite IH].
Qed.

Lemma numberEntries_again (base : Z) (entries : list TocEntry) :
  forall counters counters',
    numberEntries base counters (numberEntries base counters' entries)
    = numberEntries base counters entries.
Proof.
  induction entries as [| e entries IH]; intros counters counters'; simpl;
    [reflexivity | now rewrite IH].
Qed.

Lemma numberEntries_by_level (base : Z) (a : list TocEntry) :
  forall (b : list TocEntry) (counters : list JsValue),
    map level a = map level b ->
    map numbering (numberEntries base counters a)
    = map numbering (numberEntries base counters b).
Proof.
  induction a as [| x a IH]; intros [| y b] counters H; try discriminate; [reflexivity |].
  simpl in H; injection H as Hxy Hab. simpl.
  assert (Hd : depthOf base x = depthOf base y) by (unfold depthOf; now rewrite Hxy).
  rewrite Hd. f_equal. now apply IH.
Qed.

Lemma minLevelOf_by_level (x y : TocEntry) (a b : list TocEntry) :
  map level (x :: a) = map level (y :: b) -> minLevelOf x (x :: a) = minLevelOf y (y :: b).
Proof.
  intros H; unfold minLevelOf; rewrite H.
  simpl in H; injection H as -> _; reflexivity.
Qed.

Lemma assignNumbering_by_level (a b : list TocEntry) :
  map level a = map level b ->
  map numbering (assignNumbering a) = map numbering (assignNumbering b).
Proof.
  destruct a as [| x a], b as [| y b]; try discriminate; [reflexivity |].
  intros H; unfold assignNumbering.
  rewrite (minLevelOf_by_level x y a b H). now apply numberEntries_by_level.
Qed.

Lemma fold_min_shift (delta : Z) (levels : list Z) (a : Z) :
  fold_left Z.min (map (fun l => l + delta) levels) (a + delta)
  = fold_left Z.min levels a + delta.
Proof.
  revert a; induction levels as [| x levels IH]; intros a; simpl; [reflexivity |].
  rewrite <- IH. f_equal. lia.
Qed.

Lemma numberEntries_shift (delta base : Z) (entries : list TocEntry) :
  forall counters,
    map numbering (numberEntries (base + delta) counters (map (shiftLevel delta) entries))
    = map numbering (numberEntries base counters entries).
Proof.
  induction entries as [| e entries IH]; intros counters; simpl; [reflexivity |].
  assert (Hd : depthOf (base + delta) (shiftLevel delta e) = depthOf base e)
    by (unfold depthOf; simpl; f_equal; lia).
  rewrite Hd. f_equal. apply IH.
Qed.

(** ** The counter of depth 0 *)

Lemma bumpCounters_top (counters : list JsValue) (d : nat) :
  counters <> [] ->
  bumpCounters counters d <> []
  /\ readIndex (bumpCounters counters d) 0
     = if (d =? 0)%nat then increment (readIndex counters 0) else readIndex counters 0.
Proof.
  destruct counters as [| c0 cs]; [congruence |]. intros _.
  unfold bumpCounters, resetDeeper, writeIndex, readIndex.
  destruct d as [| d].
  - simpl. split; [discriminate | reflexivity].
  - destruct (S d <? length (c0 :: cs))%nat; simpl; split; try discriminate; reflexivity.
Qed.

Lemma depthOf_zero (base : Z) (e : TocEntry) :
  base <= level e -> (depthOf base e = 0%nat <-> level e = base).
Proof. unfold depthOf; lia. Qed.

Lemma numberEntries_nth_top (base : Z) (entries : list TocEntry) :
  forall (counters : list JsValue) (n : Z) (k : nat) (e : TocEntry),
    counters <> [] ->
    readIndex counters 0 = JNum n ->
    (forall x, In x entries -> base <= level x) ->
    nth_error entries k = Some e ->
    level e = base ->
    nth_error (numberEntries base counters entries) k
    = Some (setNumbering e
              (Z_to_string (n + Z.of_nat (levelCount base (firstn (S k) entries))))).
Proof.
  induction entries as [| x entries IH]; intros counters n k e Hne Hn Hlow Hk He;
    [destruct k; discriminate |].
  destruct (bumpCounters_top counters (depthOf base x) Hne) as [Hne' Htop].
  assert (Hx : base <= level x) by (apply Hlow; now left).
  cbn [numberEntries]. destruct k as [| k].
  - injection Hk as ->. cbn [nth_error]. do 2 f_equal.
    assert (Hd : depthOf base e = 0%nat) by (now apply depthOf_zero).
    rewrite Hd in *. unfold collectParts; cbn [seq map]. rewrite Htop, Hn. simpl.
    unfold join; simpl. unfold levelCount; simpl. rewrite He, Z.eqb_refl. simpl.
    f_equal; lia.
  - cbn [nth_error] in *.
    change (firstn (S (S k)) (x :: entries)) with (x :: firstn (S k) entries).
    unfold levelCount; cbn [filter].
    destruct (Z.eqb_spec (level x) base) as [E | E].
    + assert (Hd : depthOf base x = 0%nat) by (now apply depthOf_zero).
      rewrite Hd in *. simpl in Htop. rewrite Hn in Htop. simpl in Htop.
      rewrite (IH _ (n + 1) k e Hne' Htop); auto.
      * do 3 f_equal. unfold levelCount. simpl length. lia.
      * intros y Hy; apply Hlow; now right.
    + assert (Hd : depthOf base x <> 0%nat)
        by (intros Hd; apply E; now apply depthOf_zero).
      apply Nat.eqb_neq in Hd. rewrite Hd in Htop. rewrite Hn in Htop.
      rewrite (IH _ n k e Hne' Htop); auto.
      intros y Hy; apply Hlow; now right.
Qed.

End NumbererMore.

(** X5: [assignNumbering] changes nothing but the [numbering] of the
    entries; the numberings depend on the levels only; and numbering an
    already numbered list gives the same list. *)
Theorem assignNumbering_only_numbering :
  forall entries : list TocEntry,
    map clearNumbering (assignNumbering entries) = map clearNumbering entries
    /\ (forall other : list TocEntry,
           map level other = map level entries ->
           map numbering (assignNumbering other) = map numbering (assignNumbering entries))
    /\ assignNumbering (assignNumbering entries) = assignNumbering entries.
Proof.
  intros entries; split; [| split].
  - destruct entries; [reflexivity | apply numberEntries_clear].
  - intros other H; now apply assignNumbering_by_level.
  - destruct entries as [| e0 rest]; [reflexivity |].
    unfold assignNumbering at 2. cbn [numberEntries].
    unfold assignNumbering.
    set (base := minLevelOf e0 (e0 :: rest)).
    match goal with
    | |- numberEntries ?b _ (?h :: ?t) = _ =>
        assert (Hb : b = base)
    end.
    { unfold minLevelOf; cbn [map]. cbn [level setNumbering].
      rewrite numberEntries_level. reflexivity. }
    rewrite Hb.
    change (setNumbering e0
              (join (collectParts (bumpCounters initialCounters (depthOf base e0))
                       (depthOf base e0)))
            :: numberEntries base (bumpCounters initialCounters (depthOf base e0)) rest)
      with (numberEntries base initialCounters (e0 :: rest)).
    apply numberEntries_again.
Qed.

(** X6: the numbering depends on the levels relative to the minimum
    level present: moving every heading of the list by the same number
    of levels leaves every numbering as it is. *)
Theorem assignNumbering_level_shift :
  forall (delta : Z) (entries : list TocEntry),
    map numbering (assignNumbering (map (shiftLevel delta) entries))
    = map numbering (assignNumbering entries).
Proof.
  intros delta [| e0 rest]; [reflexivity |].
  unfold assignNumbering; cbn [map].
  assert (Hb : minLevelOf (shiftLevel delta e0)
                 (shiftLevel delta e0 :: map (shiftLevel delta) rest)
               = minLevelOf e0 (e0 :: rest) + delta).
  { unfold minLevelOf. rewrite <- fold_min_shift. f_equal.
    cbn [map level shiftLevel]. f_equal. rewrite !map_map. reflexivity. }
  rewrite Hb.
  exact (numberEntries_shift delta _ (e0 :: rest) initialCounters).
Qed.

(** X7: an entry at the minimum level present is numbered with a single
    component: the number of entries at that level up to and including
    it.  No condition on the other levels is needed. *)
Theorem assignNumbering_top_level_count :
  forall (entries : list TocEntry) (base : Z) (k : nat) (e : TocEntry),
    isMinLevel base entries ->
    nth_error entries k = Some e ->
    level e = base ->
    nth_error (assignNumbering entries) k
    = Some (setNumbering e
              (Z_to_string (Z.of_nat (levelCount base (firstn (S k) entries))))).
Proof.
  intros entries base k e Hmin Hk He.
  destruct entries as [| e0 rest]; [destruct k; discriminate |].
  assert (Hb : minLevelOf e0 (e0 :: rest) = base)
    by (eapply isMinLevel_unique; [apply minLevelOf_min | exact Hmin]).
  unfold assignNumbering; rewrite Hb.
  rewrite (numberEntries_nth_top base (e0 :: rest) initialCounters 0 k e);
    try assumption; try reflexivity.
  - discriminate.
  - destruct Hmin as [_ Hlow]; exact Hlow.
Qed.

Lemma assignNumbering_top_level_count_witness :
  nth_error
    (assignNumbering
       [plainEntry 1 "A"; plainEntry 9 "deep"; plainEntry 1 "B"; plainEntry 2 "B1";
        plainEntry 1 "C"]) 4
  = Some (setNumbering (plainEntry 1 "C") "3").
Proof.
  apply (assignNumbering_top_level_count
           [plainEntry 1 "A"; plainEntry 9 "deep"; plainEntry 1 "B"; plainEntry 2 "B1";
            plainEntry 1 "C"] 1 4 (plainEntry 1 "C")).
  - split.
    + exists (plainEntry 1 "A"); split; [now left | reflexivity].
    + intros e Hin; simpl in Hin.
      repeat (destruct Hin as [<- | Hin]; [simpl; lia |]). destruct Hin.
  - reflexivity.
  - reflexivity.
Defined.

Section NumberingOrder.

Lemma Z_to_string_inj (a b : Z) : Z_to_string a = Z_to_string b -> a = b.
Proof.
  unfold Z_to_string; intros H.
  assert (Hnn : forall z, Z.to_int z <> Decimal.Pos Decimal.Nil
                          /\ Z.to_int z <> Decimal.Neg Decimal.Nil).
  { intros [| p | p]; simpl; split; try discriminate;
      intros [= E]; exact (DecimalPos.Unsigned.to_uint_nonnil p E). }
  apply DecimalZ.to_int_inj.
  assert (E : Some (Z.to_int a) = Some (Z.to_int b)).
  { rewrite <- (NilZero.isi (Z.to_int a)), <- (NilZero.isi (Z.to_int b));
      try apply Hnn. now rewrite H. }
  now injection E.
Qed.

Lemma counterValue_shallower (i d : nat) (ds : list nat) :
  (i < d)%nat -> counterValue i (ds ++ [d]) = counterValue i ds.
Proof.
  intros H; rewrite counterValue_snoc; unfold counterStep.
  destruct (Nat.ltb_spec d i); [lia |]. destruct (Nat.eqb_spec d i); [lia | reflexivity].
Qed.

Lemma counterValue_same (d : nat) (ds : list nat) :
  counterValue d (ds ++ [d]) = counterValue d ds + 1.
Proof.
  rewrite counterValue_snoc; unfold counterStep.
  rewrite Nat.ltb_irrefl, Nat.eqb_refl; reflexivity.
Qed.

Lemma countersBefore_step (d d' : nat) (ds : list nat) :
  (d' <= d)%nat -> countersBefore d ds (ds ++ [d']).
Proof.
  intros H; exists d'; split; [exact H | split].
  - intros j Hj; symmetry; now apply counterValue_shallower.
  - rewrite counterValue_same; lia.
Qed.

Lemma countersBefore_trans (d : nat) (a b c : list nat) :
  countersBefore d a b -> countersBefore d b c -> countersBefore d a c.
Proof.
  intros (i & Hi & Heq & Hlt) (i' & Hi' & Heq' & Hlt').
  destruct (Nat.lt_trichotomy i i') as [H | [H | H]].
  - exists i; split; [exact Hi | split].
    + intros j Hj; rewrite Heq by exact Hj; apply Heq'; lia.
    + rewrite <- (Heq' i H); exact Hlt.
  - subst i'. exists i; split; [exact Hi | split].
    + intros j Hj; rewrite Heq by exact Hj; now apply Heq'.
    + lia.
  - exists i'; split; [exact Hi' | split].
    + intros j Hj; rewrite Heq by lia; now apply Heq'.
    + rewrite (Heq i' H); exact Hlt'.
Qed.

Lemma countersBefore_eq_r (d : nat) (a b c : list nat) :
  countersBefore d a b ->
  (forall i, (i <= d)%nat -> counterValue i b = counterValue i c) ->
  countersBefore d a c.
Proof.
  intros (i & Hi & Heq & Hlt) H; exists i; split; [exact Hi | split].
  - intros j Hj; rewrite <- H by lia; now apply Heq.
  - rewrite <- H by exact Hi; exact Hlt.
Qed.

(** Further entries never take the counters back. *)
Lemma counters_never_before (d : nat) (ds suffix : list nat) :
  (forall i, (i <= d)%nat -> counterValue i ds = counterValue i (ds ++ suffix))
  \/ countersBefore d ds (ds ++ suffix).
Proof.
  induction suffix as [| x suffix IH] using rev_ind.
  - left; intros i _; now rewrite app_nil_r.
  - rewrite app_assoc. destruct (Nat.le_gt_cases x d) as [Hx | Hx].
    + right. pose proof (countersBefore_step d x (ds ++ suffix) Hx) as Hstep.
      destruct IH as [Heq | Hbefore].
      * destruct Hstep as (i & Hi & He & Hlt). exists i; split; [exact Hi | split].
        -- intros j Hj; rewrite Heq by lia; now apply He.
        -- rewrite Heq by exact Hi; exact Hlt.
      * exact (countersBefore_trans d _ _ _ Hbefore Hstep).
    + destruct IH as [Heq | Hbefore].
      * left; intros i Hi. rewrite counterValue_shallower by lia. now apply Heq.
      * right. apply (countersBefore_eq_r d _ _ _ Hbefore).
        intros i Hi; symmetry; apply counterValue_shallower; lia.
Qed.

Lemma firstn_snoc (A : Type) (l : list A) (k : nat) (x : A) :
  nth_error l k = Some x -> firstn (S k) l = firstn k l ++ [x].
Proof.
  revert k; induction l as [| y l IH]; intros k Hk; [destruct k; discriminate |].
  destruct k as [| k]; cbn [nth_error] in Hk.
  - injection Hk as ->; reflexivity.
  - change (firstn (S (S k)) (y :: l)) with (y :: firstn (S k) l).
    rewrite (IH k Hk); reflexivity.
Qed.

Lemma firstn_plus (A : Type) (a b : nat) (l : list A) :
  firstn (a + b) l = firstn a l ++ firstn b (skipn a l).
Proof.
  revert l; induction a as [| a IH]; intros l; [reflexivity |].
  destruct l as [| y l]; [now rewrite skipn_nil, !firstn_nil |].
  cbn [Nat.add firstn skipn app]; f_equal; apply IH.
Qed.

Lemma firstn_split_at (A : Type) (l : list A) (j k : nat) (x : A) :
  (j < k)%nat ->
  nth_error l k = Some x ->
  firstn (S k) l = firstn (S j) l ++ firstn (k - S j) (skipn (S j) l) ++ [x].
Proof.
  intros Hjk Hk. rewrite (firstn_snoc A l k x Hk).
  replace k with (S j + (k - S j))%nat at 1 by lia.
  now rewrite firstn_plus, <- app_assoc.
Qed.

Lemma dottedCounters_inj (ds ds' : list nat) (d d' : nat) :
  dottedCounters ds d = dottedCounters ds' d' ->
  d = d' /\ forall i, (i <= d)%nat -> counterValue i ds = counterValue i ds'.
Proof.
  unfold dottedCounters; intros H.
  apply (f_equal components) in H.
  rewrite !components_concat in H;
    try (cbn [seq map]; discriminate);
    try (apply Forall_forall; intros s Hs; apply in_map_iff in Hs as (i & <- & _);
         apply Z_to_string_no_dot).
  assert (Hd : d = d').
  { apply (f_equal (@length string)) in H.
    rewrite !length_map, !length_seq in H; lia. }
  subst d'; split; [reflexivity |].
  intros i Hi. apply Z_to_string_inj.
  apply (proj1 map_ext_in_iff H i). apply in_seq; lia.
Qed.

Lemma assignNumbering_nth_counters (entries : list TocEntry) (base : Z) :
  isMinLevel base entries ->
  (forall e, In e entries -> level e - base <= 6) ->
  forall k e,
    nth_error entries k = Some e ->
    nth_error (assignNumbering entries) k
    = Some (setNumbering e
              (dottedCounters (map (depthOf base) (firstn (S k) entries))
                 (depthOf base e))).
Proof.
  intros Hmin Hrange k e Hk.
  destruct entries as [| e0 rest]; [destruct k; discriminate |].
  assert (Hb : minLevelOf e0 (e0 :: rest) = base)
    by (eapply isMinLevel_unique; [apply minLevelOf_min | exact Hmin]).
  unfold assignNumbering; rewrite Hb.
  change initialCounters with (countersAfter []).
  rewrite (numberEntries_nth_counters base (e0 :: rest) [] k e); [reflexivity | | exact Hk].
  intros x Hx. unfold depthOf. specialize (Hrange x Hx).
  destruct Hmin as [_ Hlow]; specialize (Hlow x Hx). lia.
Qed.

End NumberingOrder.

(** X8: while the depths fit the seven counters, no two entries of a
    list get the same numbering. *)
Theorem assignNumbering_distinct :
  forall (entries : list TocEntry) (base : Z) (j k : nat) (rj rk : TocEntry),
    isMinLevel base entries ->
    (forall e, In e entries -> level e - base <= 6) ->
    (j < k)%nat ->
    nth_error (assignNumbering entries) j = Some rj ->
    nth_error (assignNumbering entries) k = Some rk ->
    numbering rj <> numbering rk.
Proof.
  intros entries base j k rj rk Hmin Hrange Hjk Hj Hk Heq.
  assert (Hlen := assignNumbering_length entries).
  destruct (nth_error entries j) as [ej |] eqn:Ej;
    [| apply nth_error_None in Ej;
       assert (nth_error (assignNumbering entries) j <> None) by congruence;
       apply nth_error_Some in H; lia].
  destruct (nth_error entries k) as [ek |] eqn:Ek;
    [| apply nth_error_None in Ek;
       assert (nth_error (assignNumbering entries) k <> None) by congruence;
       apply nth_error_Some in H; lia].
  rewrite (assignNumbering_nth_counters entries base Hmin Hrange j ej Ej) in Hj.
  rewrite (assignNumbering_nth_counters entries base Hmin Hrange k ek Ek) in Hk.
  injection Hj as <-; injection Hk as <-.
  cbn [numbering setNumbering] in Heq. injection Heq as Heq.
  apply dottedCounters_inj in Heq as [Hd Hall].
  set (dsj := map (depthOf base) (firstn (S j) entries)) in *.
  set (mid := map (depthOf base) (firstn (k - S j) (skipn (S j) entries))).
  assert (Hsplit : map (depthOf base) (firstn (S k) entries)
                   = (dsj ++ mid) ++ [depthOf base ek]).
  { rewrite (firstn_split_at _ entries j k ek Hjk Ek), !map_app, app_assoc.
    reflexivity. }
  assert (Hbefore : countersBefore (depthOf base ej) dsj ((dsj ++ mid) ++ [depthOf base ek])).
  { pose proof (countersBefore_step (depthOf base ej) (depthOf base ek) (dsj ++ mid)) as Hs.
    specialize (Hs ltac:(lia)).
    destruct (counters_never_before (depthOf base ej) dsj mid) as [He | Hb].
    - destruct Hs as (i & Hi & Hs1 & Hs2). exists i; split; [exact Hi | split].
      + intros x Hx; rewrite He by lia; now apply Hs1.
      + rewrite He by exact Hi; exact Hs2.
    - exact (countersBefore_trans _ _ _ _ Hb Hs). }
  destruct Hbefore as (i & Hi & _ & Hlt).
  rewrite <- Hsplit in Hlt. subst dsj. pose proof (Hall i Hi) as E.
  change (counterValue i (map (depthOf base) (firstn (S j) entries))
          = counterValue i (map (depthOf base) (firstn (S k) entries))) in E.
  lia.
Qed.

Lemma assignNumbering_distinct_witness :
  numbering (setNumbering (plainEntry 2 "A1") "1.1")
  <> numbering (setNumbering (plainEntry 2 "B1") "2.1").
Proof.
  apply (assignNumbering_distinct
           [plainEntry 1 "A"; plainEntry 2 "A1"; plainEntry 3 "A1a";
            plainEntry 1 "B"; plainEntry 2 "B1"] 1 1 4).
  - split.
    + exists (plainEntry 1 "A"); split; [now left | reflexivity].
    + intros e Hin; simpl in Hin.
      repeat (destruct Hin as [<- | Hin]; [simpl; lia |]). destruct Hin.
  - intros e Hin; simpl in Hin.
    repeat (destruct Hin as [<- | Hin]; [simpl; lia |]). destruct Hin.
  - lia.
  - reflexivity.
  - reflexivity.
Defined.

Section AnchorMore.

Ltac every_char c :=
  destruct c as [[] [] [] [] [] [] [] []]; vm_compute; try reflexivity; try discriminate.

Lemma kept_or_not_word (c : ascii) :
  isWord c || isSpace c || isHyphen c = false -> isWord c = false.
Proof. every_char c. Qed.

Lemma space_not_word (c : ascii) : isSpace c = true -> isWord c = false.
Proof. every_char c. Qed.

Lemma hyphen_not_word (c : ascii) : isHyphen c = true -> isWord c = false.
Proof. every_char c. Qed.

Lemma slug_not_word_hyphen (c : ascii) :
  slugChar c = true -> isWord c = false -> isHyphen c = true.
Proof. every_char c. Qed.

Lemma isWord_lowerChar (c : ascii) : isWord (lowerChar c) = isWord c.
Proof. every_char c. Qed.

Lemma wordChars_removeSpecial (s : string) : wordChars (removeSpecial s) = wordChars s.
Proof.
  induction s as [| c r IH]; simpl; [reflexivity |].
  destruct (isWord c || isSpace c || isHyphen c) eqn:E; simpl.
  - now rewrite IH.
  - now rewrite (kept_or_not_word c E).
Qed.

Lemma wordChars_replaceRuns (p : ascii -> bool) (b : bool) (s : string) :
  (forall c, p c = true -> isWord c = false) ->
  wordChars (replaceRuns p b s) = wordChars s.
Proof.
  intros Hp; revert b; induction s as [| c r IH]; intros b; simpl; [reflexivity |].
  destruct (p c) eqn:E.
  - rewrite (Hp c E). destruct b; simpl; apply IH.
  - simpl; now rewrite IH.
Qed.

Lemma wordChars_dropLeadingHyphen (s : string) :
  wordChars (dropLeadingHyphen s) = wordChars s.
Proof.
  destruct s as [| c r]; simpl; [reflexivity |].
  destruct (isHyphen c) eqn:E; [| reflexivity].
  now rewrite (hyphen_not_word c E).
Qed.

Lemma wordChars_dropTrailingHyphen (s : string) :
  wordChars (dropTrailingHyphen s) = wordChars s.
Proof.
  induction s as [| c r IH]; [reflexivity |].
  destruct (string_dec r EmptyString) as [-> | Hne].
  - rewrite dropTrailingHyphen_one. destruct (isHyphen c) eqn:E; [| reflexivity].
    simpl; now rewrite (hyphen_not_word c E).
  - rewrite dropTrailingHyphen_cons by exact Hne. simpl; now rewrite IH.
Qed.

Lemma wordChars_generateAnchorId (s : string) :
  wordChars (generateAnchorId s) = wordChars (toLowerCase s).
Proof.
  unfold generateAnchorId, trimHyphens.
  rewrite wordChars_dropTrailingHyphen, wordChars_dropLeadingHyphen.
  rewrite (wordChars_replaceRuns isHyphen false _ hyphen_not_word).
  rewrite (wordChars_replaceRuns isSpace false _ space_not_word).
  apply wordChars_removeSpecial.
Qed.

Lemma wordChars_empty_iff (s : string) :
  wordChars s = EmptyString <-> anyChar isWord s = false.
Proof.
  induction s as [| c r IH]; simpl; [split; reflexivity |].
  destruct (isWord c); simpl; [split; discriminate | exact IH].
Qed.

Lemma anyChar_toLowerCase (s : string) :
  anyChar isWord (toLowerCase s) = anyChar isWord s.
Proof.
  induction s as [| c r IH]; simpl; [reflexivity |].
  now rewrite isWord_lowerChar, IH.
Qed.

Lemma slug_without_word (s : string) :
  isSlug s -> wordChars s = EmptyString -> s = EmptyString.
Proof.
  intros (Hchars & _ & Hstart & _) Hw.
  destruct s as [| c r]; [reflexivity |]. exfalso.
  simpl in Hchars, Hstart, Hw. apply andb_true_iff in Hchars as [Hc _].
  destruct (isWord c) eqn:E; [discriminate |].
  rewrite (slug_not_word_hyphen c Hc E) in Hstart; discriminate.
Qed.

(** ** Lengths *)

Lemma toLowerCase_length (s : string) : String.length (toLowerCase s) = String.length s.
Proof. induction s as [| c r IH]; simpl; [reflexivity | now rewrite IH]. Qed.

Lemma removeSpecial_length (s : string) :
  (String.length (removeSpecial s) <= String.length s)%nat.
Proof.
  induction s as [| c r IH]; simpl; [lia |].
  destruct (isWord c || isSpace c || isHyphen c); simpl; lia.
Qed.

Lemma replaceRuns_length (p : ascii -> bool) (b : bool) (s : string) :
  (String.length (replaceRuns p b s) <= String.length s)%nat.
Proof.
  revert b; induction s as [| c r IH]; intros b; simpl; [lia |].
  destruct (p c); [destruct b |]; simpl;
    [specialize (IH true) | specialize (IH true) | specialize (IH false)]; lia.
Qed.

Lemma dropLeadingHyphen_length (s : string) :
  (String.length (dropLeadingHyphen s) <= String.length s)%nat.
Proof. destruct s as [| c r]; simpl; [lia |]. destruct (isHyphen c); simpl; lia. Qed.

Lemma dropTrailingHyphen_length (s : string) :
  (String.length (dropTrailingHyphen s) <= String.length s)%nat.
Proof.
  induction s as [| c r IH]; [simpl; lia |].
  destruct (string_dec r EmptyString) as [-> | Hne].
  - rewrite dropTrailingHyphen_one; destruct (isHyphen c); simpl; lia.
  - rewrite dropTrailingHyphen_cons by exact Hne. simpl; lia.
Qed.

End AnchorMore.

(** X9: the anchor keeps exactly the letters, digits and underscores of
    the text, lowercased and in order (whatever else it holds is single
    hyphens), and it is never longer than the text. *)
Theorem generateAnchorId_word_chars :
  forall s : string,
    wordChars (generateAnchorId s) = wordChars (toLowerCase s)
    /\ (String.length (generateAnchorId s) <= String.length s)%nat.
Proof.
  intros s; split; [apply wordChars_generateAnchorId |].
  unfold generateAnchorId, trimHyphens.
  pose proof (dropTrailingHyphen_length
                (dropLeadingHyphen
                   (replaceRuns isHyphen false
                      (replaceRuns isSpace false (removeSpecial (toLowerCase s)))))).
  pose proof (dropLeadingHyphen_length
                (replaceRuns isHyphen false
                   (replaceRuns isSpace false (removeSpecial (toLowerCase s))))).
  pose proof (replaceRuns_length isHyphen false
                (replaceRuns isSpace false (removeSpecial (toLowerCase s)))).
  pose proof (replaceRuns_length isSpace false (removeSpecial (toLowerCase s))).
  pose proof (removeSpecial_length (toLowerCase s)).
  pose proof (toLowerCase_length s).
  lia.
Qed.

(** X10: for a text within Latin-1 (every code unit at most U+00FF, as
    the strings here are), the anchor is the empty string exactly when
    the text holds none of the characters [[A-Za-z0-9_]]; so headings
    made of punctuation or symbols only all share the empty anchor.  An
    accented letter is not one of these characters: the anchor of the
    text made of U+00E9 alone is empty. *)
Theorem generateAnchorId_empty_iff :
  (forall s : string,
      generateAnchorId s = EmptyString <-> anyChar isWord s = false)
  /\ isWord "233"%char = false
  /\ generateAnchorId (String "233"%char EmptyString) = EmptyString
  /\ generateAnchorId "?!" = EmptyString.
Proof.
  split; [| repeat split; reflexivity].
  intros s; rewrite <- anyChar_toLowerCase, <- wordChars_empty_iff,
    <- wordChars_generateAnchorId.
  split.
  - intros ->; reflexivity.
  - apply slug_without_word, generateAnchorId_isSlug.
Qed.

(* ===================================================================== *)
(** * Further properties of the page-number matcher *)
(* ===================================================================== *)

Section MatcherMore.

Variable hs : list DrawnElement.
Variable hasCoverPage : bool.

Lemma searchForward_bound (rest : list DrawnElement) (i : nat) (txt : string) (j : nat) (p : Z) :
  searchForward rest i txt = Some (j, p) -> (j < i + length rest)%nat.
Proof.
  revert i; induction rest as [| el rest IH]; intros i; simpl; [discriminate |].
  destruct (String.eqb (de_content el) txt).
  - intros [= <- _]; lia.
  - intros H; apply IH in H; lia.
Qed.

Lemma matchEntry_bound (c : nat) (e : TocEntry) :
  (c <= length hs)%nat -> (fst (matchEntry hs hasCoverPage c e) <= length hs)%nat.
Proof.
  intros Hc; unfold matchEntry.
  destruct (searchForward (skipn c hs) c (text e)) as [[j p] |] eqn:E; simpl; [| exact Hc].
  apply searchForward_bound in E. rewrite length_skipn in E. lia.
Qed.

Lemma matchEntry_keeps (c : nat) (e : TocEntry) :
  setPageNumber (snd (matchEntry hs hasCoverPage c e)) None = setPageNumber e None.
Proof.
  unfold matchEntry, defaultPageNumber.
  destruct (searchForward (skipn c hs) c (text e)) as [[j p] |]; simpl; [reflexivity |].
  destruct (pageNumber e); reflexivity.
Qed.

Lemma matchEntries_keeps (c : nat) (es : list TocEntry) :
  map (fun e => setPageNumber e None) (snd (matchEntries hs hasCoverPage c es))
  = map (fun e => setPageNumber e None) es.
Proof.
  revert c; induction es as [| e es IH]; intros c; [reflexivity |].
  rewrite matchEntries_cons; simpl. now rewrite matchEntry_keeps, IH.
Qed.

Lemma matchEntries_bound (c : nat) (es : list TocEntry) :
  (c <= length hs)%nat -> (fst (matchEntries hs hasCoverPage c es) <= length hs)%nat.
Proof.
  revert c; induction es as [| e es IH]; intros c Hc; [exact Hc |].
  rewrite matchEntries_cons; simpl. apply IH, matchEntry_bound, Hc.
Qed.



End MatcherMore.

(** X11: the matcher changes nothing but the [pageNumber] of the
    entries, and its cursor never passes the end of the heading-or-title
    elements. *)
Theorem matcher_only_page_number :
  forall (entries : list TocEntry) (drawn : list DrawnElement) (hasCoverPage : bool),
    map (fun e => setPageNumber e None)
      (assignPageNumbersFromDrawnElements entries drawn hasCoverPage)
    = map (fun e => setPageNumber e None) entries
    /\ forall k, (cursorBefore entries drawn hasCoverPage k
                  <= length (headingElementsOf drawn))%nat.
Proof.
  intros entries drawn hasCoverPage; split.
  - apply matchEntries_keeps.
  - intros k; apply matchEntries_bound; lia.
Qed.



(** X13: when the pages of the heading-or-title elements never decrease
    along the record, the page numbers of entries that match never
    decrease down the TOC. *)
Theorem matcher_pages_in_order :
  forall (entries : list TocEntry) (drawn : list DrawnElement) (hasCoverPage : bool)
         (k k' : nat) (e e' : TocEntry) (i i' : nat) (el el' : DrawnElement),
    pagesInOrder (headingElementsOf drawn) ->
    (k < k')%nat ->
    nth_error entries k = Some e ->
    nth_error entries k' = Some e' ->
    firstMatchFrom (headingElementsOf drawn)
      (cursorBefore entries drawn hasCoverPage k) (text e) i el ->
    firstMatchFrom (headingElementsOf drawn)
      (cursorBefore entries drawn hasCoverPage k') (text e') i' el' ->
    exists p p',
      option_map pageNumber
        (nth_error (assignPageNumbersFromDrawnElements entries drawn hasCoverPage) k)
      = Some (Some p)
      /\ option_map pageNumber
           (nth_error (assignPageNumbersFromDrawnElements entries drawn hasCoverPage) k')
         = Some (Some p')
      /\ p <= p'.
Proof.
  intros entries drawn hasCoverPage k k' e e' i i' el el' Hsorted Hlt Hk Hk' Hm Hm'.
  set (hs := headingElementsOf drawn) in *.
  destruct (matchEntries_nth hs hasCoverPage 0 entries k e Hk) as [Hr Hc].
  destruct (matchEntries_nth hs hasCoverPage 0 entries k' e' Hk') as [Hr' _].
  unfold assignPageNumbersFromDrawnElements, cursorBefore in *. fold hs in Hm, Hm', Hc |- *.
  rewrite Hr, Hr'.
  rewrite (matchEntry_hit hs hasCoverPage _ e i el Hm).
  rewrite (matchEntry_hit hs hasCoverPage _ e' i' el' Hm').
  rewrite (matchEntry_hit hs hasCoverPage _ e i el Hm) in Hc.
  exists (shownPage hasCoverPage el), (shownPage hasCoverPage el').
  split; [reflexivity | split; [reflexivity |]].
  assert (Hii : (i <= i')%nat).
  { pose proof (matchEntries_cursor_mono hs hasCoverPage 0 entries (S k) k' ltac:(lia)) as Hmono.
    cbn [fst] in Hc. rewrite Hc in Hmono. destruct Hm' as (Hle & _). lia. }
  destruct Hm as (_ & Hn & _); destruct Hm' as (_ & Hn' & _).
  specialize (Hsorted i i' el el' Hii Hn Hn'). unfold shownPage. lia.
Qed.

Lemma matcher_pages_in_order_witness :
  exists p p',
    option_map pageNumber
      (nth_error
         (assignPageNumbersFromDrawnElements
            [plainEntry 1 "Intro"; plainEntry 1 "End"]
            [drawnHeading "Intro" 2; drawnHeading "End" 7] false) 0)
    = Some (Some p)
    /\ option_map pageNumber
         (nth_error
            (assignPageNumbersFromDrawnElements
               [plainEntry 1 "Intro"; plainEntry 1 "End"]
               [drawnHeading "Intro" 2; drawnHeading "End" 7] false) 1)
       = Some (Some p')
    /\ p <= p'.
Proof.
  apply (matcher_pages_in_order
           [plainEntry 1 "Intro"; plainEntry 1 "End"]
           [drawnHeading "Intro" 2; drawnHeading "End" 7] false
           0 1 (plainEntry 1 "Intro") (plainEntry 1 "End")
           0 1 (drawnHeading "Intro" 2) (drawnHeading "End" 7)).
  - intros i i' el el' Hle Hi Hi'.
    destruct i as [| [| i]], i' as [| [| i']]; simpl in Hi, Hi';
      try lia; try discriminate;
      try (injection Hi as <-; injection Hi' as <-; simpl; lia);
      try (destruct i; discriminate); try (destruct i'; discriminate).
  - lia.
  - reflexivity.
  - reflexivity.
  - repeat split; try reflexivity; try (vm_compute; lia);
      intros j x [Hlo Hhi]; vm_compute in Hlo; lia.
  - repeat split; try reflexivity; try (vm_compute; lia);
      intros j x [Hlo Hhi]; vm_compute in Hlo; lia.
Defined.

(* ===================================================================== *)
(** * Further properties of the TOC page insertion *)
(* ===================================================================== *)

Section InsertionMore.

(** The two ways [insertTocPages] returns: nothing done, or pages
    spliced in. *)
Lemma insertTocPages_returned (ctx ctx' : LayoutContext)
  (tocConfig : option TableOfContents) (content : option (list SchemaContentElement))
  (hasCoverPage : bool) (k : Z) :
  insertTocPages ctx tocConfig content hasCoverPage = Returned (k, ctx') ->
  (k = 0 /\ ctx' = ctx
   /\ forall config c, resolveTocConfig tocConfig = Some config -> content = Some c ->
                       extractTocEntries c config = [])
  \/ exists config c,
      resolveTocConfig tocConfig = Some config
      /\ content = Some c
      /\ extractTocEntries c config <> []
      /\ tocPageCountOf (length (extractTocEntries c config)) (entriesPerPage ctx) = Some k
      /\ (Nat.b2n hasCoverPage <= length (pages ctx))%nat
      /\ ctx' = withPages ctx
                  (splice (pages ctx) (Nat.b2n hasCoverPage)
                     (renderedTocPages config (tocEntriesOf ctx config c hasCoverPage)
                        (Z.to_nat k) (entriesPerPage ctx))).
Proof.
  intros H.
  destruct (resolveTocConfig tocConfig) as [config |] eqn:Hcfg.
  2:{ left. unfold insertTocPages in H; rewrite Hcfg in H. injection H as <- <-.
      repeat split; intros; discriminate. }
  destruct content as [c |].
  2:{ left. unfold insertTocPages in H; rewrite Hcfg in H. injection H as <- <-.
      repeat split; intros; discriminate. }
  assert (Hcase : extractTocEntries c config = [] \/ extractTocEntries c config <> [])
    by (destruct (extractTocEntries c config); [now left | right; discriminate]).
  destruct Hcase as [E | Hne].
  - left. unfold insertTocPages in H; rewrite Hcfg in H.
    assert (H' : Returned (0, ctx) = Returned (k, ctx')).
    { destruct c; [exact H | now rewrite E in H]. }
    injection H' as <- <-. repeat split.
    intros config' c' [= <-] [= <-]; exact E.
  - right. exists config, c.
    rewrite (insertTocPages_entries ctx tocConfig config c hasCoverPage Hcfg Hne) in H.
    destruct (Nat.leb_spec (Nat.b2n hasCoverPage) (length (pages ctx))); [| discriminate].
    destruct (tocPageCountOf _ _) as [k' |] eqn:Hk; [| discriminate].
    apply bind_returned in H as (drawings & _ & H).
    injection H as <- <-. repeat split; auto.
Qed.

(** A call that puts pages in returns after the rendering has. *)
Lemma insertTocPages_rendered (ctx ctx' : LayoutContext)
  (tocConfig : option TableOfContents) (config : ResolvedTocConfig)
  (content : list SchemaContentElement) (hasCoverPage : bool) (k : Z) :
  resolveTocConfig tocConfig = Some config ->
  extractTocEntries content config <> [] ->
  insertTocPages ctx tocConfig (Some content) hasCoverPage = Returned (k, ctx') ->
  exists drawings,
    renderTocContent ctx' config (tocEntriesOf ctx config content hasCoverPage)
      (Nat.b2n hasCoverPage) (Z.to_nat k) (entriesPerPage ctx) = Returned drawings.
Proof.
  intros Hcfg Hne H.
  rewrite (insertTocPages_entries ctx tocConfig config content hasCoverPage Hcfg Hne) in H.
  destruct (_ <=? _)%nat; [| discriminate].
  destruct (tocPageCountOf _ _) as [k' |]; [| discriminate].
  cbv zeta in H. apply bind_returned in H as (drawings & Hd & H).
  injection H as <- <-. now exists drawings.
Qed.

Lemma entriesOnPage_chunk (entries : list TocEntry) (epp : Z) (pageIdx : nat) :
  0 < epp ->
  entriesOnPage entries epp pageIdx
  = firstn (Z.to_nat epp) (skipn (pageIdx * Z.to_nat epp) entries).
Proof.
  intros Hpos; unfold entriesOnPage.
  assert (Hs : Z.to_nat (Z.of_nat pageIdx * epp) = (pageIdx * Z.to_nat epp)%nat)
    by (rewrite Z2Nat.inj_mul, Nat2Z.id by lia; reflexivity).
  rewrite Hs.
  set (rest := skipn (pageIdx * Z.to_nat epp) entries).
  assert (Hlen : length rest = (length entries - pageIdx * Z.to_nat epp)%nat)
    by (subst rest; apply length_skipn).
  destruct (Z.le_gt_cases (Z.of_nat pageIdx * epp + epp) (Z.of_nat (length entries)))
    as [Hfit | Hover].
  - rewrite Z.min_l by exact Hfit. f_equal; lia.
  - rewrite Z.min_r by lia. rewrite !firstn_all2; [reflexivity | |]; rewrite Hlen; nia.
Qed.

Lemma concat_chunks (entries : list TocEntry) (e n : nat) :
  concat (map (fun p => firstn e (skipn (p * e) entries)) (seq 0 n))
  = firstn (n * e) entries.
Proof.
  induction n as [| n IH]; [reflexivity |].
  rewrite seq_S, map_app, concat_app, IH. cbn [map concat Nat.add].
  rewrite app_nil_r. replace (S n * e)%nat with (n * e + e)%nat by lia.
  now rewrite firstn_plus.
Qed.

Lemma renderedTocPages_lines (config : ResolvedTocConfig) (entries : list TocEntry)
  (n : nat) (epp : Z) :
  map tocLines (renderedTocPages config entries n epp)
  = map (entriesOnPage entries epp) (seq 0 n).
Proof. unfold renderedTocPages; rewrite map_map; reflexivity. Qed.

Lemma renderedTocPages_cover (config : ResolvedTocConfig) (entries : list TocEntry)
  (epp k : Z) :
  0 < epp ->
  tocPageCountOf (length entries) epp = Some k ->
  concat (map tocLines (renderedTocPages config entries (Z.to_nat k) epp)) = entries
  /\ Forall (fun p => Z.of_nat (length (tocLines p)) <= epp)
       (renderedTocPages config entries (Z.to_nat k) epp).
Proof.
  intros Hpos Hk. destruct (tocPageCountOf_least _ _ _ Hpos Hk) as (Hk1 & Hfit & _).
  split.
  - rewrite renderedTocPages_lines.
    rewrite (map_ext _ (fun p => firstn (Z.to_nat epp) (skipn (p * Z.to_nat epp) entries)))
      by (intros p; now apply entriesOnPage_chunk).
    rewrite concat_chunks. apply firstn_all2. nia.
  - apply Forall_forall; intros p Hp. unfold renderedTocPages in Hp.
    apply in_map_iff in Hp as (i & <- & _). cbn [tocLines].
    rewrite entriesOnPage_chunk by exact Hpos. rewrite length_firstn. lia.
Qed.

Lemma renderedTocPages_headings (config : ResolvedTocConfig) (entries : list TocEntry)
  (n : nat) (epp : Z) (i : nat) (p : Page) :
  nth_error (renderedTocPages config entries n epp) i = Some p ->
  exists lines,
    p = TocPage (if (i =? 0)%nat then Some (title config) else None) lines.
Proof.
  unfold renderedTocPages; intros H.
  rewrite nth_error_map in H.
  destruct (nth_error (seq 0 n) i) as [j |] eqn:E; [| discriminate].
  assert (Hj : j = i).
  { assert (Hi : (i < n)%nat)
      by (apply nth_error_Some in E || (rewrite <- (length_seq n 0);
          apply nth_error_Some; congruence)).
    rewrite nth_error_seq in E.
    destruct (Nat.ltb_spec i n); [injection E as <-; lia | lia]. }
  subst j. simpl in H; injection H as <-. eexists; reflexivity.
Qed.

End InsertionMore.

(** X14: after a call of [insertTocPages] that returns, the offsets
    [adjustPageNumberOffset] computes from the returned count split the
    pages of the document: cover and TOC pages first, and as many
    content pages as the document had pages beside the cover before the
    insertion. *)
Theorem offset_after_insertion :
  forall (ctx ctx' : LayoutContext) (tocConfig : option TableOfContents)
         (content : option (list SchemaContentElement)) (hasCoverPage : bool) (k : Z),
    insertTocPages ctx tocConfig content hasCoverPage = Returned (k, ctx') ->
    let offset := adjustPageNumberOffset k hasCoverPage (Z.of_nat (length (pages ctx'))) in
    0 <= k
    /\ startPage offset + contentPageCount offset = Z.of_nat (length (pages ctx'))
    /\ contentPageCount offset
       = Z.of_nat (length (pages ctx)) - (if hasCoverPage then 1 else 0).
Proof.
  intros ctx ctx' tocConfig content hasCoverPage k H offset.
  assert (Hlen : 0 <= k /\ Z.of_nat (length (pages ctx')) = Z.of_nat (length (pages ctx)) + k).
  { destruct (insertTocPages_returned _ _ _ _ _ _ H)
      as [(-> & -> & _) | (config & c & _ & _ & _ & Hk & _ & ->)]; [lia |].
    apply tocPageCountOf_positive in Hk.
    cbn [pages withPages]. rewrite splice_length, renderedTocPages_length. lia. }
  subst offset; unfold adjustPageNumberOffset; cbn [startPage contentPageCount].
  destruct hasCoverPage; lia.
Qed.

Lemma offset_after_insertion_witness :
  0 <= 3
  /\ startPage (adjustPageNumberOffset 3 true 6)
     + contentPageCount (adjustPageNumberOffset 3 true 6) = 6
  /\ contentPageCount (adjustPageNumberOffset 3 true 6) = 3 - 1.
Proof.
  apply (offset_after_insertion smallContext
           (withPages smallContext
              (splice (pages smallContext) 1
                 (renderedTocPages (configWithLevels 1 3)
                    (tocEntriesOf smallContext (configWithLevels 1 3) sevenHeadings true)
                    3 3)))
           (Some tocEnabled) (Some sevenHeadings) true 3).
  vm_compute; reflexivity.
Defined.

(** X15: a call of [insertTocPages] that returns keeps every page of
    the document, in order: the new page list is the old one with the
    TOC pages put in behind the cover page (at the very start without
    one); there are as many TOC pages as the call returns, and only the
    first carries the title. *)
Theorem insertTocPages_keeps_pages :
  forall (ctx ctx' : LayoutContext) (tocConfig : option TableOfContents)
         (content : option (list SchemaContentElement)) (hasCoverPage : bool) (k : Z),
    insertTocPages ctx tocConfig content hasCoverPage = Returned (k, ctx') ->
    let insertIndex := if hasCoverPage then 1%nat else 0%nat in
    exists tocPages,
      pages ctx' = firstn insertIndex (pages ctx) ++ tocPages ++ skipn insertIndex (pages ctx)
      /\ Z.of_nat (length tocPages) = k
      /\ (forall i p, nth_error tocPages i = Some p ->
                      exists lines,
                        p = TocPage (if (i =? 0)%nat
                                     then option_map title (resolveTocConfig tocConfig)
                                     else None) lines)
      /\ drawnElements ctx' = drawnElements ctx.
Proof.
  intros ctx ctx' tocConfig content hasCoverPage k H insertIndex.
  destruct (insertTocPages_returned _ _ _ _ _ _ H)
    as [(-> & -> & _) | (config & c & Hcfg & _ & _ & Hk & _ & ->)].
  - exists []. rewrite app_nil_l, firstn_skipn. repeat split.
    intros i p Hp; destruct i; discriminate.
  - apply tocPageCountOf_positive in Hk.
    eexists; split; [| split; [| split]].
    + cbn [pages withPages]. unfold splice.
      replace (Nat.b2n hasCoverPage) with insertIndex by (now destruct hasCoverPage).
      reflexivity.
    + rewrite renderedTocPages_length. lia.
    + intros i p Hp. rewrite Hcfg; cbn [option_map].
      exact (renderedTocPages_headings _ _ _ _ i p Hp).
    + reflexivity.
Qed.

Lemma insertTocPages_keeps_pages_witness :
  exists tocPages,
    pages (withPages smallContext
             (splice (pages smallContext) 1
                (renderedTocPages (configWithLevels 1 3)
                   (tocEntriesOf smallContext (configWithLevels 1 3) sevenHeadings true)
                   3 3)))
    = firstn 1 (pages smallContext) ++ tocPages ++ skipn 1 (pages smallContext)
    /\ Z.of_nat (length tocPages) = 3
    /\ (forall i p, nth_error tocPages i = Some p ->
                    exists lines,
                      p = TocPage (if (i =? 0)%nat
                                   then option_map title (resolveTocConfig (Some tocEnabled))
                                   else None) lines)
    /\ drawnElements
         (withPages smallContext
            (splice (pages smallContext) 1
               (renderedTocPages (configWithLevels 1 3)
                  (tocEntriesOf smallContext (configWithLevels 1 3) sevenHeadings true)
                  3 3)))
       = drawnElements smallContext.
Proof.
  apply (insertTocPages_keeps_pages smallContext _ (Some tocEnabled) (Some sevenHeadings)
           true 3).
  vm_compute; reflexivity.
Defined.

(** X16: when at least one entry fits a page, the TOC pages a returning
    call of [insertTocPages] puts in carry, read page after page, every
    entry exactly once and in order, and no page carries more entries
    than fit. *)
Theorem tocPages_carry_every_entry :
  forall (ctx ctx' : LayoutContext) (tocConfig : option TableOfContents)
         (config : ResolvedTocConfig) (content : list SchemaContentElement)
         (hasCoverPage : bool) (k : Z),
    resolveTocConfig tocConfig = Some config ->
    0 < entriesPerPage ctx ->
    insertTocPages ctx tocConfig (Some content) hasCoverPage = Returned (k, ctx') ->
    let insertIndex := if hasCoverPage then 1%nat else 0%nat in
    exists tocPages,
      pages ctx' = firstn insertIndex (pages ctx) ++ tocPages ++ skipn insertIndex (pages ctx)
      /\ concat (map tocLines tocPages) = tocEntriesOf ctx config content hasCoverPage
      /\ Forall (fun p => Z.of_nat (length (tocLines p)) <= entriesPerPage ctx) tocPages.
Proof.
  intros ctx ctx' tocConfig config content hasCoverPage k Hcfg Hpos H insertIndex.
  destruct (insertTocPages_returned _ _ _ _ _ _ H)
    as [(-> & -> & Hnil) | (config' & c & Hcfg' & Hc & _ & Hk & _ & ->)].
  - exists []. rewrite app_nil_l, firstn_skipn. repeat split; [| constructor].
    symmetry; apply length_zero_iff_nil.
    now rewrite tocEntriesOf_length, (Hnil config content Hcfg eq_refl).
  - rewrite Hcfg in Hcfg'; injection Hcfg' as <-. injection Hc as <-.
    rewrite <- (tocEntriesOf_length ctx config content hasCoverPage) in Hk.
    destruct (renderedTocPages_cover config _ _ _ Hpos Hk) as [Hcat Hall].
    eexists; split; [| split; [exact Hcat | exact Hall]].
    cbn [pages withPages]. unfold splice.
    replace (Nat.b2n hasCoverPage) with insertIndex by (now destruct hasCoverPage).
    reflexivity.
Qed.

Lemma tocPages_carry_every_entry_witness :
  exists tocPages,
    pages (withPages smallContext
             (splice (pages smallContext) 1
                (renderedTocPages (configWithLevels 1 3)
                   (tocEntriesOf smallContext (configWithLevels 1 3) sevenHeadings true)
                   3 3)))
    = firstn 1 (pages smallContext) ++ tocPages ++ skipn 1 (pages smallContext)
    /\ concat (map tocLines tocPages)
       = tocEntriesOf smallContext (configWithLevels 1 3) sevenHeadings true
    /\ Forall (fun p => Z.of_nat (length (tocLines p)) <= entriesPerPage smallContext)
         tocPages.
Proof.
  apply (tocPages_carry_every_entry smallContext _ (Some tocEnabled)
           (configWithLevels 1 3) sevenHeadings true 3).
  - reflexivity.
  - vm_compute; reflexivity.
  - vm_compute; reflexivity.
Defined.

(* ===================================================================== *)
(** * Properties of [renderTocContent] *)
(* ===================================================================== *)

Section RendererFacts.

Variable ctx : LayoutContext.
Variable config : ResolvedTocConfig.

Lemma Qltb_lt (a b : Q) : Qltb a b = true <-> (a < b)%Q.
Proof.
  unfold Qltb; rewrite negb_true_iff, <- not_true_iff_false, Qle_bool_iff.
  split; [apply Qnot_le_lt | apply Qlt_not_le].
Qed.

Lemma Qltb_ge (a b : Q) : Qltb a b = false <-> (b <= a)%Q.
Proof.
  unfold Qltb; rewrite negb_false_iff, Qle_bool_iff; reflexivity.
Qed.

Lemma inject_nat_succ (n : nat) :
  (inject_Z (Z.of_nat (S n)) == inject_Z (Z.of_nat n) + 1)%Q.
Proof. rewrite Nat2Z.inj_succ; unfold Z.succ; rewrite inject_Z_plus; reflexivity. Qed.

Lemma inject_nat_nonneg (n : nat) : (0 <= inject_Z (Z.of_nat n))%Q.
Proof. change 0%Q with (inject_Z 0); rewrite <- Zle_Qle; lia. Qed.

(** ** The two calls into the surface *)

Lemma measure_returned (f : Font) (s : string) (z w : Q) :
  measure ctx f s z = Returned w <-> widthOfTextAtSize ctx f s z = Some w.
Proof. unfold measure; destruct (widthOfTextAtSize ctx f s z); split; congruence. Qed.

Lemma draw_eq (pg : nat) (call : DrawText) :
  draw ctx pg call
  = if (pg <? length (pages ctx))%nat && drawText ctx (dt_font call) (dt_text call)
    then Returned call else Throws.
Proof.
  unfold draw. destruct (Nat.ltb_spec pg (length (pages ctx))) as [H | H].
  - apply nth_error_Some in H. destruct (nth_error (pages ctx) pg); [| now elim H].
    reflexivity.
  - apply nth_error_None in H. now rewrite H.
Qed.

Lemma draw_returned (pg : nat) (call c : DrawText) :
  draw ctx pg call = Returned c
  <-> c = call /\ (pg < length (pages ctx))%nat
      /\ drawText ctx (dt_font call) (dt_text call) = true.
Proof.
  rewrite draw_eq. destruct (Nat.ltb_spec pg (length (pages ctx))) as [H | H];
    destruct (drawText ctx (dt_font call) (dt_text call)); cbn [andb]; split;
    try discriminate.
  - intros [= <-]; auto.
  - intros [-> _]; reflexivity.
  - intros (_ & _ & E); discriminate.
  - intros (_ & E & _); lia.
  - intros (_ & E & _); lia.
Qed.

Lemma draw_not_diverges (pg : nat) (call : DrawText) : draw ctx pg call <> Diverges.
Proof. rewrite draw_eq; destruct (_ && _); discriminate. Qed.

Lemma measure_not_diverges (f : Font) (s : string) (z : Q) : measure ctx f s z <> Diverges.
Proof. unfold measure; destruct (widthOfTextAtSize ctx f s z); discriminate. Qed.

(** ** The dot loop *)

Lemma dotLoop_within (pg : nat) (w e y : Q) :
  (0 <= w)%Q ->
  forall (n : nat) (x : Q) (dots : list DrawText),
    dotLoop ctx pg n x w e y = Returned dots ->
    forall dot, In dot dots ->
      dt_text dot = DOT_LEADER_CHAR /\ dt_y dot = y
      /\ (x <= dt_x dot)%Q /\ (dt_x dot + w < e)%Q.
Proof.
  intros Hw; induction n as [| n IH]; intros x dots H dot Hin; simpl dotLoop in H.
  - destruct (Qltb (x + w) e); [discriminate |].
    injection H as <-; destruct Hin.
  - destruct (Qltb (x + w) e) eqn:E; [| injection H as <-; destruct Hin].
    apply Qltb_lt in E.
    apply bind_returned in H as (d0 & Hd0 & H). apply draw_returned in Hd0 as [-> _].
    apply bind_returned in H as (rest & R & H). injection H as <-.
    destruct Hin as [<- | Hin].
    + simpl. repeat split; [lra | exact E].
    + destruct (IH _ _ R dot Hin) as (Ht & Hy & Hx & He).
      repeat split; try assumption. unfold DOT_LEADER_SPACING in Hx. lra.
Qed.

Lemma dotLoop_calls (pg : nat) (w e y : Q) :
  forall (n : nat) (x : Q) (dots : list DrawText),
    dotLoop ctx pg n x w e y = Returned dots ->
    forall dot, In dot dots -> dt_y dot = y.
Proof.
  induction n as [| n IH]; intros x dots H dot Hin; simpl dotLoop in H.
  - destruct (Qltb (x + w) e); [discriminate |].
    injection H as <-; destruct Hin.
  - destruct (Qltb (x + w) e); [| injection H as <-; destruct Hin].
    apply bind_returned in H as (d0 & Hd0 & H). apply draw_returned in Hd0 as [-> _].
    apply bind_returned in H as (rest & R & H). injection H as <-.
    destruct Hin as [<- | Hin]; [reflexivity | exact (IH _ _ R dot Hin)].
Qed.

Lemma dotLoop_narrow (pg : nat) (w e y x : Q) (n : nat) :
  (e - x <= w)%Q -> dotLoop ctx pg n x w e y = Returned [].
Proof.
  intros H. assert (E : Qltb (x + w) e = false) by (apply Qltb_ge; lra).
  destruct n; simpl; now rewrite E.
Qed.

(** A loop that has ended within [n] rounds ends the same way within
    more. *)
Lemma dotLoop_more (pg : nat) (w e y : Q) :
  forall (n : nat) (x : Q),
    dotLoop ctx pg n x w e y <> Diverges ->
    forall m, (n <= m)%nat -> dotLoop ctx pg m x w e y = dotLoop ctx pg n x w e y.
Proof.
  induction n as [| n IH]; intros x Hnd m Hm.
  - simpl dotLoop in *. destruct m; simpl dotLoop;
      destruct (Qltb (x + w) e); try reflexivity; now elim Hnd.
  - destruct m as [| m]; [lia |]. simpl dotLoop in *.
    destruct (Qltb (x + w) e); [| reflexivity].
    destruct (draw ctx pg (dotCall x y)) as [d | |]; cbn [bind] in *; try reflexivity.
    rewrite (IH (x + (w + DOT_LEADER_SPACING))%Q); [reflexivity | | lia].
    intros Hd; rewrite Hd in Hnd; now apply Hnd.
Qed.

(** With a step that is not positive, a loop that is entered goes on
    for ever. *)
Lemma dotLoop_forever (pg : nat) (w e y : Q) :
  (w + DOT_LEADER_SPACING <= 0)%Q ->
  (pg <? length (pages ctx))%nat && drawText ctx Helvetica DOT_LEADER_CHAR = true ->
  forall (n : nat) (x : Q), (x + w < e)%Q -> dotLoop ctx pg n x w e y = Diverges.
Proof.
  intros Hs Hd; induction n as [| n IH]; intros x Hc; simpl dotLoop;
    (assert (E : Qltb (x + w) e = true) by (apply Qltb_lt; exact Hc));
    rewrite E; [reflexivity |].
  rewrite draw_eq; cbn [dt_font dt_text dotCall]. rewrite Hd. cbn [bind].
  rewrite IH; [reflexivity | lra].
Qed.

Lemma dotLoop_enough (pg : nat) (w e y : Q) :
  (0 < w + DOT_LEADER_SPACING)%Q ->
  forall (n : nat) (x : Q),
    ((e - x - w) / (w + DOT_LEADER_SPACING) <= inject_Z (Z.of_nat n))%Q ->
    dotLoop ctx pg n x w e y <> Diverges.
Proof.
  intros Hs; induction n as [| n IH]; intros x Hn; simpl dotLoop.
  - destruct (Qltb (x + w) e) eqn:E; [| discriminate].
    apply Qltb_lt in E. exfalso.
    change (inject_Z (Z.of_nat 0)) with 0%Q in Hn.
    assert (Hpos : (0 < (e - x - w) / (w + DOT_LEADER_SPACING))%Q).
    { apply Qlt_shift_div_l; [exact Hs | lra]. }
    lra.
  - destruct (Qltb (x + w) e) eqn:E; [| discriminate].
    pose proof (draw_not_diverges pg (dotCall x y)) as Hd.
    destruct (draw ctx pg (dotCall x y)); cbn [bind]; [| discriminate | now elim Hd].
    specialize (IH (x + (w + DOT_LEADER_SPACING))%Q).
    destruct (dotLoop ctx pg n (x + (w + DOT_LEADER_SPACING))%Q w e y);
      cbn [bind]; try discriminate.
    apply IH.
    assert (Hstep : ((e - (x + (w + DOT_LEADER_SPACING)) - w) / (w + DOT_LEADER_SPACING)
                     == (e - x - w) / (w + DOT_LEADER_SPACING) - 1)%Q)
      by (field; lra).
    pose proof (inject_nat_succ n). lra.
Qed.

Lemma dotRounds_enough (w e x : Q) :
  (0 < w + DOT_LEADER_SPACING)%Q ->
  ((e - x - w) / (w + DOT_LEADER_SPACING) <= inject_Z (Z.of_nat (dotRounds x w e)))%Q.
Proof.
  intros Hs; unfold dotRounds.
  assert (E : Qltb 0 (w + DOT_LEADER_SPACING) = true) by (now apply Qltb_lt).
  rewrite E.
  set (q := ((e - x - w) / (w + DOT_LEADER_SPACING))%Q).
  apply Qle_trans with (inject_Z (Qceiling q)); [apply Qle_ceiling |].
  rewrite <- Zle_Qle. lia.
Qed.

(** The rounds [dotRounds] allows lose nothing: with more rounds the
    loop ends the same way, and a loop that [dotRounds] leaves going is
    going after any number of rounds. *)
Lemma dotRounds_faithful (pg : nat) (w e y x : Q) (m : nat) :
  (dotRounds x w e <= m)%nat ->
  dotLoop ctx pg m x w e y = dotLoop ctx pg (dotRounds x w e) x w e y.
Proof.
  intros Hm. destruct (Qlt_le_dec 0 (w + DOT_LEADER_SPACING)) as [Hs | Hs].
  - apply dotLoop_more; [| exact Hm].
    apply dotLoop_enough; [exact Hs | now apply dotRounds_enough].
  - assert (Hr : dotRounds x w e = 1%nat).
    { unfold dotRounds.
      assert (E : Qltb 0 (w + DOT_LEADER_SPACING) = false) by (now apply Qltb_ge).
      now rewrite E. }
    rewrite Hr in *.
    destruct (Qlt_le_dec (x + w) e) as [Hc | Hc].
    + destruct ((pg <? length (pages ctx))%nat && drawText ctx Helvetica DOT_LEADER_CHAR)
        eqn:D.
      * now rewrite !dotLoop_forever.
      * apply dotLoop_more; [| exact Hm]. simpl dotLoop.
        assert (E : Qltb (x + w) e = true) by (now apply Qltb_lt). rewrite E.
        rewrite draw_eq; cbn [dt_font dt_text dotCall]. rewrite D. discriminate.
    + rewrite !dotLoop_narrow by lra. reflexivity.
Qed.

Lemma dotLoop_accepted (pg : nat) (w e y : Q) :
  (pg <? length (pages ctx))%nat && drawText ctx Helvetica DOT_LEADER_CHAR = true ->
  forall (n : nat) (x : Q), dotLoop ctx pg n x w e y <> Throws.
Proof.
  intros Hd; induction n as [| n IH]; intros x; simpl dotLoop;
    destruct (Qltb (x + w) e); try discriminate.
  rewrite draw_eq; cbn [dt_font dt_text dotCall]. rewrite Hd. cbn [bind].
  specialize (IH (x + (w + DOT_LEADER_SPACING))%Q).
  destruct (dotLoop ctx pg n (x + (w + DOT_LEADER_SPACING))%Q w e y); cbn [bind];
    [discriminate | now elim IH | discriminate].
Qed.

(** ** One entry *)

Lemma drawEntry_drawing (pg : nat) (minLevel : Z) (y : Q) (entry : TocEntry) (d : EntryDrawing) :
  drawEntry ctx config pg minLevel y entry = Returned d ->
  (dt_text (ed_text d), dt_x (ed_text d))
  = (displayText config entry,
     (marginLeft ctx + inject_Z ((level entry - minLevel) * TOC_INDENT_PER_LEVEL))%Q)
  /\ (forall c, In c (entryCalls d) -> dt_y c = y)
  /\ (widthsNotNegative ctx -> leaderWithinGap ctx d)
  /\ pageNumberAtRightMargin ctx d
  /\ (gapTooSmall ctx d -> ed_dots d = []).
Proof.
  unfold drawEntry; intros H.
  apply bind_returned in H as (tw & Htw & H). apply measure_returned in Htw.
  apply bind_returned in H as (tc & Htc & H). apply draw_returned in Htc as [-> _].
  destruct (if showPageNumbers config then pageNumber entry else None) as [p |].
  2:{ injection H as <-.
      unfold leaderWithinGap, pageNumberAtRightMargin, entryCalls; simpl.
      split; [reflexivity |].
      split; [intros c [<- | []]; reflexivity |].
      split; [reflexivity |]. split; [exact I | reflexivity]. }
  apply bind_returned in H as (pw & Hpw & H). apply measure_returned in Hpw.
  apply bind_returned in H as (pc & Hpc & H). apply draw_returned in Hpc as [-> _].
  match type of H with
  | context [Qltb ?a ?b] => destruct (Qltb a b) eqn:G
  end.
  2:{ injection H as <-.
      unfold leaderWithinGap, pageNumberAtRightMargin, gapTooSmall, entryCalls; simpl.
      split; [reflexivity |].
      split; [intros c [<- | [<- | []]]; reflexivity |].
      split; [intros _ dot [] |].
      split; [exists pw; split; [exact Hpw | lra] | reflexivity]. }
  apply bind_returned in H as (dw & Hdw & H). apply measure_returned in Hdw.
  apply bind_returned in H as (dots & L & H). injection H as <-.
  unfold leaderWithinGap, pageNumberAtRightMargin, gapTooSmall, entryCalls; simpl.
  split; [reflexivity |].
  split; [intros c [<- | [<- | Hc]]; try reflexivity;
          exact (dotLoop_calls _ _ _ _ _ _ _ L c Hc) |].
  split.
  { intros Hnn dot Hdot. exists tw, dw. split; [exact Htw |]. split; [exact Hdw |].
    destruct (dotLoop_within _ _ _ _ (Hnn _ _ _ _ Hdw) _ _ _ L dot Hdot)
      as (H1 & H2 & H3 & H4).
    auto. }
  split; [exists pw; split; [exact Hpw | lra] |].
  intros (tw' & dw' & Htw' & Hdw' & Hsmall).
  rewrite Htw in Htw'; injection Htw' as <-. rewrite Hdw in Hdw'; injection Hdw' as <-.
  rewrite dotLoop_narrow in L; [now injection L as <- | lra].
Qed.

Lemma drawEntry_not_diverges (pg : nat) (minLevel : Z) (y : Q) (entry : TocEntry) :
  widthsNotNegative ctx -> drawEntry ctx config pg minLevel y entry <> Diverges.
Proof.
  intros Hnn; unfold drawEntry.
  destruct (measure ctx Helvetica (displayText config entry) TOC_ENTRY_FONT_SIZE)
    as [tw | |] eqn:Etw; cbn [bind]; [| discriminate | now elim (measure_not_diverges _ _ _ Etw)].
  match goal with
  | |- context [draw ctx pg ?c] =>
      destruct (draw ctx pg c) as [tc | |] eqn:Etc; cbn [bind];
        [| discriminate | now elim (draw_not_diverges _ _ Etc)]
  end.
  destruct (if showPageNumbers config then pageNumber entry else None) as [p |];
    [| discriminate].
  destruct (measure ctx Helvetica (Z_to_string p) TOC_ENTRY_FONT_SIZE)
    as [pw | |] eqn:Epw; cbn [bind]; [| discriminate | now elim (measure_not_diverges _ _ _ Epw)].
  match goal with
  | |- context [draw ctx pg ?c] =>
      destruct (draw ctx pg c) as [pc | |] eqn:Epc; cbn [bind];
        [| discriminate | now elim (draw_not_diverges _ _ Epc)]
  end.
  match goal with
  | |- context [Qltb ?a ?b] => destruct (Qltb a b); [| discriminate]
  end.
  destruct (measure ctx Helvetica DOT_LEADER_CHAR TOC_ENTRY_FONT_SIZE)
    as [dw | |] eqn:Edw; cbn [bind]; [| discriminate | now elim (measure_not_diverges _ _ _ Edw)].
  apply measure_returned in Edw. pose proof (Hnn _ _ _ _ Edw) as Hdw.
  assert (Hs : (0 < dw + DOT_LEADER_SPACING)%Q) by (unfold DOT_LEADER_SPACING; lra).
  match goal with
  | |- context [dotLoop ctx pg (dotRounds ?x ?w ?e) ?x ?w ?e ?y'] =>
      pose proof (dotLoop_enough pg w e y' Hs _ x (dotRounds_enough w e x Hs)) as Hend;
      destruct (dotLoop ctx pg (dotRounds x w e) x w e y'); cbn [bind];
        [discriminate | discriminate | now elim Hend]
  end.
Qed.

Lemma drawEntry_returns (pg : nat) (minLevel : Z) (y : Q) (entry : TocEntry) :
  surfaceAccepts ctx -> widthsNotNegative ctx -> (pg < length (pages ctx))%nat ->
  exists d, drawEntry ctx config pg minLevel y entry = Returned d.
Proof.
  intros [Hm Hd] Hnn Hpg.
  pose proof (drawEntry_not_diverges pg minLevel y entry Hnn) as Hend.
  apply Nat.ltb_lt in Hpg.
  assert (Hthrow : drawEntry ctx config pg minLevel y entry <> Throws).
  { unfold drawEntry, measure.
    destruct (widthOfTextAtSize ctx Helvetica (displayText config entry) TOC_ENTRY_FONT_SIZE)
      as [tw |] eqn:Etw; [| now elim (Hm _ _ _ Etw)].
    cbn [bind]. rewrite draw_eq; cbn [dt_font dt_text]. rewrite Hpg, Hd. cbn [andb bind].
    destruct (if showPageNumbers config then pageNumber entry else None) as [p |];
      [| discriminate].
    destruct (widthOfTextAtSize ctx Helvetica (Z_to_string p) TOC_ENTRY_FONT_SIZE)
      as [pw |] eqn:Epw; [| now elim (Hm _ _ _ Epw)].
    cbn [bind]. rewrite draw_eq; cbn [dt_font dt_text]. rewrite Hpg, Hd. cbn [andb bind].
    match goal with
    | |- context [Qltb ?a ?b] => destruct (Qltb a b); [| discriminate]
    end.
    destruct (widthOfTextAtSize ctx Helvetica DOT_LEADER_CHAR TOC_ENTRY_FONT_SIZE)
      as [dw |] eqn:Edw; [| now elim (Hm _ _ _ Edw)].
    cbn [bind].
    match goal with
    | |- context [dotLoop ctx pg ?n ?x ?w ?e ?y'] =>
        assert (Hdot : (pg <? length (pages ctx))%nat
                       && drawText ctx Helvetica DOT_LEADER_CHAR = true)
          by (now rewrite Hpg, Hd);
        pose proof (dotLoop_accepted pg w e y' Hdot n x) as Hacc;
        destruct (dotLoop ctx pg n x w e y'); cbn [bind];
          [discriminate | now elim Hacc | discriminate]
    end. }
  destruct (drawEntry ctx config pg minLevel y entry) as [d | |];
    [now exists d | now elim Hthrow | now elim Hend].
Qed.

(** ** The entries of one page *)

Lemma drawEntries_drawings (pg : nat) (minLevel : Z) (entries : list TocEntry) :
  forall (y : Q) (ds : list EntryDrawing),
    drawEntries ctx config pg minLevel y entries = Returned ds ->
    map (fun d => (dt_text (ed_text d), dt_x (ed_text d))) ds
    = map (fun e => (displayText config e,
                     (marginLeft ctx
                      + inject_Z ((level e - minLevel) * TOC_INDENT_PER_LEVEL))%Q))
        entries
    /\ Forall (fun d => (widthsNotNegative ctx -> leaderWithinGap ctx d)
                        /\ pageNumberAtRightMargin ctx d
                        /\ (gapTooSmall ctx d -> ed_dots d = [])) ds
    /\ forall low : Q,
         (low <= y - 20 * inject_Z (Z.of_nat (length entries)) + 20)%Q ->
         forall d c, In d ds -> In c (entryCalls d) -> (low <= dt_y c <= y)%Q.
Proof.
  induction entries as [| e entries IH]; intros y ds H; simpl in H.
  - injection H as <-.
    split; [reflexivity | split; [constructor | intros low _ d c []]].
  - apply bind_returned in H as (d0 & D & H).
    apply bind_returned in H as (rest & R & H). injection H as <-.
    destruct (drawEntry_drawing _ _ _ _ _ D) as (Ht & Hy & Hgap & Hright & Hsmall).
    destruct (IH _ _ R) as (Htexts & Hall & Hys).
    split; [cbn [map]; now rewrite Ht, Htexts |].
    split; [constructor; auto |].
    intros low Hlow d c [<- | Hd] Hc.
    + rewrite (Hy c Hc).
      pose proof (inject_nat_nonneg (length entries)).
      pose proof (inject_nat_succ (length entries)).
      cbn [length] in Hlow. lra.
    + assert (Hlow' : (low <= y - TOC_ENTRY_LINE_HEIGHT
                              - 20 * inject_Z (Z.of_nat (length entries)) + 20)%Q).
      { pose proof (inject_nat_succ (length entries)).
        cbn [length] in Hlow. unfold TOC_ENTRY_LINE_HEIGHT. lra. }
      specialize (Hys low Hlow' d c Hd Hc). unfold TOC_ENTRY_LINE_HEIGHT in Hys. lra.
Qed.

Lemma drawEntries_not_diverges (pg : nat) (minLevel : Z) (entries : list TocEntry) :
  widthsNotNegative ctx ->
  forall y, drawEntries ctx config pg minLevel y entries <> Diverges.
Proof.
  intros Hnn; induction entries as [| e entries IH]; intros y; simpl; [discriminate |].
  pose proof (drawEntry_not_diverges pg minLevel y e Hnn) as He.
  destruct (drawEntry ctx config pg minLevel y e); cbn [bind];
    [| discriminate | now elim He].
  specialize (IH (y - TOC_ENTRY_LINE_HEIGHT)%Q).
  destruct (drawEntries ctx config pg minLevel (y - TOC_ENTRY_LINE_HEIGHT)%Q entries);
    cbn [bind]; [discriminate | discriminate | now elim IH].
Qed.

Lemma drawEntries_returns (pg : nat) (minLevel : Z) (entries : list TocEntry) :
  surfaceAccepts ctx -> widthsNotNegative ctx -> (pg < length (pages ctx))%nat ->
  forall y, exists ds, drawEntries ctx config pg minLevel y entries = Returned ds.
Proof.
  intros Hacc Hnn Hpg; induction entries as [| e entries IH]; intros y; simpl; [eauto |].
  destruct (drawEntry_returns pg minLevel y e Hacc Hnn Hpg) as [d ->]. cbn [bind].
  destruct (IH (y - TOC_ENTRY_LINE_HEIGHT)%Q) as [ds ->]. cbn [bind]. eauto.
Qed.

(** ** The pages *)

Lemma drawPage_entries (entries : list TocEntry) (start : nat) (epp : Z) (i : nat)
  (p : PageDrawing) :
  drawPage ctx config entries start epp i = Returned p ->
  exists y,
    drawEntries ctx config (start + i) (minLevelAll entries) y
      (entriesOnPage entries epp i)
    = Returned (pd_entries p)
    /\ (pageHeight ctx - marginTop ctx - 42 <= y)%Q
    /\ (y <= pageHeight ctx - marginTop ctx)%Q
    /\ pd_title p
       = if (i =? 0)%nat
         then Some {| dt_text := title config; dt_x := marginLeft ctx;
                      dt_y := (pageHeight ctx - marginTop ctx)%Q;
                      dt_size := TOC_TITLE_FONT_SIZE; dt_font := HelveticaBold;
                      dt_color := "#1a1a1a" |}
         else None.
Proof.
  unfold drawPage; intros H.
  apply bind_returned in H as (t & Ht & H).
  apply bind_returned in H as (ds & Hds & H). injection H as <-.
  cbn [pd_entries pd_title].
  match type of Hds with
  | drawEntries _ _ _ _ ?y _ = _ => exists y
  end.
  split; [exact Hds |].
  unfold TOC_TITLE_FONT_SIZE, TOC_TITLE_MARGIN_BOTTOM.
  destruct (i =? 0)%nat.
  - apply bind_returned in Ht as (call & Hc & Ht). apply draw_returned in Hc as [-> _].
    injection Ht as <-. repeat split; lra.
  - injection Ht as <-. repeat split; lra.
Qed.

Lemma drawPage_not_diverges (entries : list TocEntry) (start : nat) (epp : Z) (i : nat) :
  widthsNotNegative ctx -> drawPage ctx config entries start epp i <> Diverges.
Proof.
  intros Hnn; unfold drawPage.
  match goal with
  | |- bind ?t _ <> _ =>
      assert (Ht : t <> Diverges);
        [| destruct t; cbn [bind]; [| discriminate | now elim Ht]]
  end.
  { destruct (i =? 0)%nat; [| discriminate].
    match goal with
    | |- context [draw ctx ?pg ?c] =>
        pose proof (draw_not_diverges pg c) as Hd; destruct (draw ctx pg c); cbn [bind];
          [discriminate | discriminate | now elim Hd]
    end. }
  match goal with
  | |- context [drawEntries ctx config ?pg ?m ?y ?es] =>
      pose proof (drawEntries_not_diverges pg m es Hnn y) as He;
      destruct (drawEntries ctx config pg m y es); cbn [bind];
        [discriminate | discriminate | now elim He]
  end.
Qed.

Lemma drawPage_returns (entries : list TocEntry) (start : nat) (epp : Z) (i : nat) :
  surfaceAccepts ctx -> widthsNotNegative ctx ->
  (start + i < length (pages ctx))%nat ->
  exists p, drawPage ctx config entries start epp i = Returned p.
Proof.
  intros Hacc Hnn Hpg; unfold drawPage; rewrite draw_eq; cbn [dt_font dt_text].
  rewrite (proj2 Hacc), (proj2 (Nat.ltb_lt _ _) Hpg); cbn [andb].
  destruct (i =? 0)%nat; cbn [bind];
    match goal with
    | |- context [drawEntries ctx config ?pg ?m ?y ?es] =>
        destruct (drawEntries_returns pg m es Hacc Hnn Hpg y) as [ds ->];
        cbn [bind]; eauto
    end.
Qed.

(** A page on which no entry falls: the title, if it is the first page,
    and nothing else. *)
Lemma drawPage_no_entry (entries : list TocEntry) (start : nat) (epp : Z) (i : nat) :
  entriesOnPage entries epp i = [] ->
  drawPage ctx config entries start epp i
  = if (i =? 0)%nat
    then if (start + i <? length (pages ctx))%nat
            && drawText ctx HelveticaBold (title config)
         then Returned
                {| pd_title := Some {| dt_text := title config; dt_x := marginLeft ctx;
                                       dt_y := (pageHeight ctx - marginTop ctx)%Q;
                                       dt_size := TOC_TITLE_FONT_SIZE;
                                       dt_font := HelveticaBold;
                                       dt_color := "#1a1a1a" |};
                   pd_entries := [] |}
         else Throws
    else Returned {| pd_title := None; pd_entries := [] |}.
Proof.
  intros E; unfold drawPage; rewrite draw_eq; cbn [dt_font dt_text]. rewrite E.
  destruct (i =? 0)%nat; [| reflexivity].
  destruct (_ && _); reflexivity.
Qed.

Lemma drawPages_pages (entries : list TocEntry) (start : nat) (epp : Z)
  (indices : list nat) :
  forall ps : list PageDrawing,
    drawPages ctx config entries start epp indices = Returned ps ->
    length ps = length indices
    /\ forall i p, nth_error ps i = Some p ->
                   exists idx, nth_error indices i = Some idx
                               /\ drawPage ctx config entries start epp idx = Returned p.
Proof.
  induction indices as [| idx indices IH]; intros ps H; simpl in H.
  - injection H as <-. split; [reflexivity | intros [| i] p Hp; discriminate].
  - apply bind_returned in H as (p0 & P & H).
    apply bind_returned in H as (rest & R & H). injection H as <-.
    destruct (IH _ R) as [Hlen Hnth].
    split; [simpl; now rewrite Hlen |].
    intros [| i] p Hp; simpl in Hp.
    + injection Hp as <-. exists idx; split; [reflexivity | exact P].
    + exact (Hnth i p Hp).
Qed.

Lemma renderTocContent_pages (entries : list TocEntry) (start n : nat) (epp : Z)
  (pagesD : list PageDrawing) :
  renderTocContent ctx config entries start n epp = Returned pagesD ->
  length pagesD = n
  /\ forall i p, nth_error pagesD i = Some p ->
                 drawPage ctx config entries start epp i = Returned p.
Proof.
  unfold renderTocContent; intros H.
  destruct (drawPages_pages _ _ _ _ _ H) as [Hlen Hnth].
  rewrite length_seq in Hlen. split; [exact Hlen |].
  intros i p Hp. destruct (Hnth i p Hp) as (idx & Hidx & Hd).
  rewrite nth_error_seq in Hidx.
  destruct (Nat.ltb_spec i n); [| discriminate]. now injection Hidx as <-.
Qed.

Lemma drawPages_not_diverges (entries : list TocEntry) (start : nat) (epp : Z)
  (indices : list nat) :
  widthsNotNegative ctx -> drawPages ctx config entries start epp indices <> Diverges.
Proof.
  intros Hnn; induction indices as [| idx indices IH]; simpl; [discriminate |].
  pose proof (drawPage_not_diverges entries start epp idx Hnn) as Hp.
  destruct (drawPage ctx config entries start epp idx); cbn [bind];
    [| discriminate | now elim Hp].
  destruct (drawPages ctx config entries start epp indices); cbn [bind];
    [discriminate | discriminate | now elim IH].
Qed.

Lemma drawPages_returns (entries : list TocEntry) (start : nat) (epp : Z)
  (indices : list nat) :
  surfaceAccepts ctx -> widthsNotNegative ctx ->
  Forall (fun i => (start + i < length (pages ctx))%nat) indices ->
  exists ps, drawPages ctx config entries start epp indices = Returned ps.
Proof.
  intros Hacc Hnn; induction indices as [| idx indices IH]; intros Hpg; simpl;
    [eauto |].
  inversion Hpg as [| ? ? Hidx Hrest]; subst.
  destruct (drawPage_returns entries start epp idx Hacc Hnn Hidx) as [p ->]. cbn [bind].
  destruct (IH Hrest) as [ps ->]. cbn [bind]. eauto.
Qed.

Lemma renderTocContent_returns (entries : list TocEntry) (start n : nat) (epp : Z) :
  surfaceAccepts ctx -> widthsNotNegative ctx ->
  (start + n <= length (pages ctx))%nat ->
  exists pagesD, renderTocContent ctx config entries start n epp = Returned pagesD.
Proof.
  intros Hacc Hnn Hpg; apply drawPages_returns; [exact Hacc | exact Hnn |].
  apply Forall_forall; intros i Hi. apply in_seq in Hi. lia.
Qed.

Lemma entriesOnPage_length (entries : list TocEntry) (epp : Z) (i : nat) :
  entriesOnPage entries epp i = []
  \/ (0 < epp /\ Z.of_nat (length (entriesOnPage entries epp i)) <= epp).
Proof.
  unfold entriesOnPage.
  set (start := Z.of_nat i * epp).
  set (stop := Z.min (start + epp) (Z.of_nat (length entries))).
  destruct (Z.le_gt_cases (stop - start) 0) as [H | H].
  - left. replace (Z.to_nat (stop - start)) with 0%nat by lia. reflexivity.
  - right. assert (stop - start <= epp) by (subst stop; lia).
    split; [lia |]. rewrite length_firstn. lia.
Qed.

Lemma minLevelAll_least (entries : list TocEntry) (e : TocEntry) :
  In e entries -> minLevelAll entries <= level e.
Proof.
  destruct entries as [| e0 rest]; [intros [] |]. intros Hin.
  destruct (minLevelOf_min e0 rest) as [_ Hlow]. now apply Hlow.
Qed.

End RendererFacts.

Lemma sixPointsEach_accepts : surfaceAccepts smallContext.
Proof. split; [discriminate | reflexivity]. Qed.

Lemma sixPointsEach_nonneg : widthsNotNegative smallContext.
Proof.
  intros f s z w H.
  change (Some (inject_Z (6 * Z.of_nat (String.length s))) = Some w) in H.
  assert (Hw : w = inject_Z (6 * Z.of_nat (String.length s))) by congruence.
  rewrite Hw. change 0%Q with (inject_Z 0); rewrite <- Zle_Qle; lia.
Qed.

(** X18: with widths that are not negative [renderTocContent] comes to
    an end: it does not run for ever, and on a surface that measures
    and draws every text, with the [tocPageCount] pages from
    [startPageIndex] on in place, it returns, with one drawing for each
    of these pages.  The rounds allowed to a dot loop lose nothing: with
    more rounds it ends the same way, so that a loop left going is one
    that never stops.  With a dot of width -3 the step is 0 and the loop
    does go on for ever. *)
Theorem renderTocContent_terminates :
  (forall (ctx : LayoutContext) (config : ResolvedTocConfig)
          (entries : list TocEntry) (startPageIndex tocPageCount : nat) (epp : Z),
      widthsNotNegative ctx ->
      renderTocContent ctx config entries startPageIndex tocPageCount epp <> Diverges
      /\ (surfaceAccepts ctx ->
          (startPageIndex + tocPageCount <= length (pages ctx))%nat ->
          exists pagesD,
            renderTocContent ctx config entries startPageIndex tocPageCount epp
            = Returned pagesD
            /\ length pagesD = tocPageCount))
  /\ (forall (ctx : LayoutContext) (pageIndex : nat) (x w e y : Q) (m : nat),
         (dotRounds x w e <= m)%nat ->
         dotLoop ctx pageIndex m x w e y
         = dotLoop ctx pageIndex (dotRounds x w e) x w e y)
  /\ renderTocContent (withWidths smallContext negativeDot) (configWithLevels 1 3)
       twoEntries 0 1 3
     = Diverges.
Proof.
  split; [| split; [| vm_compute; reflexivity]].
  - intros ctx config entries start n epp Hnn. split.
    + apply drawPages_not_diverges; exact Hnn.
    + intros Hacc Hpg.
      destruct (renderTocContent_returns ctx config entries start n epp Hacc Hnn Hpg)
        as [ps Hps].
      exists ps; split; [exact Hps |].
      exact (proj1 (renderTocContent_pages _ _ _ _ _ _ _ Hps)).
  - intros ctx pg x w e y m Hm. now apply dotRounds_faithful.
Qed.

Lemma renderTocContent_terminates_witness :
  exists pagesD,
    renderTocContent smallContext (configWithLevels 1 3) twoEntries 0 1 3
    = Returned pagesD
    /\ length pagesD = 1%nat.
Proof.
  refine (proj2 (proj1 renderTocContent_terminates smallContext (configWithLevels 1 3)
                   twoEntries 0%nat 1%nat 3 sixPointsEach_nonneg)
            sixPointsEach_accepts _).
  vm_compute; lia.
Defined.

(** X19: when at least one entry fits a page and the page count is the
    one [insertTocPages] computes, then on a surface that measures and
    draws every text, with widths that are not negative and the pages
    from [startPageIndex] on in place, [renderTocContent] returns; and
    whenever it returns it has drawn the
    text of every entry exactly once, in order over the pages, each at
    the left margin plus 20 points for every level below the minimum
    level (never left of the margin), and the title on the first page
    and on no other. *)
Theorem renderTocContent_draws_every_entry :
  forall (ctx : LayoutContext) (config : ResolvedTocConfig)
         (entries : list TocEntry) (startPageIndex : nat) (epp k : Z),
    0 < epp ->
    tocPageCountOf (length entries) epp = Some k ->
    (surfaceAccepts ctx -> widthsNotNegative ctx ->
     (startPageIndex + Z.to_nat k <= length (pages ctx))%nat ->
     exists pagesD,
       renderTocContent ctx config entries startPageIndex (Z.to_nat k) epp
       = Returned pagesD)
    /\ (forall pagesD : list PageDrawing,
           renderTocContent ctx config entries startPageIndex (Z.to_nat k) epp
           = Returned pagesD ->
           drawnTexts pagesD
           = map (fun e => (displayText config e,
                            (marginLeft ctx
                             + inject_Z ((level e - minLevelAll entries) * 20))%Q))
               entries
           /\ (forall e, In e entries -> 0 <= (level e - minLevelAll entries) * 20)
           /\ Z.of_nat (length pagesD) = k
           /\ (forall i p, nth_error pagesD i = Some p ->
                           (i = 0%nat ->
                            option_map dt_text (pd_title p) = Some (title config))
                           /\ (i <> 0%nat -> pd_title p = None))).
Proof.
  intros ctx config entries start epp k Hpos Hk. split.
  { intros Hacc Hnn Hpg. apply renderTocContent_returns; assumption. }
  intros pagesD H.
  destruct (renderTocContent_pages _ _ _ _ _ _ _ H) as [Hlen Hpages].
  pose proof (tocPageCountOf_positive _ _ _ Hk) as Hk1.
  split; [| split; [| split]].
  - set (g := fun e => (displayText config e,
                        (marginLeft ctx
                         + inject_Z ((level e - minLevelAll entries) * 20))%Q)).
    assert (Hmap : map (fun p => map (fun d => (dt_text (ed_text d), dt_x (ed_text d)))
                                     (pd_entries p)) pagesD
                   = map (fun i => map g (entriesOnPage entries epp i))
                       (seq 0 (Z.to_nat k))).
    { apply nth_error_ext; intros i. rewrite !nth_error_map.
      destruct (nth_error pagesD i) as [p |] eqn:Ep.
      - assert (Hi : (i < Z.to_nat k)%nat)
          by (rewrite <- Hlen; apply nth_error_Some; congruence).
        rewrite nth_error_seq. destruct (Nat.ltb_spec i (Z.to_nat k)); [| lia].
        cbn [option_map Nat.add]. f_equal.
        destruct (drawPage_entries _ _ _ _ _ _ _ (Hpages i p Ep)) as (y & Hd & _).
        exact (proj1 (drawEntries_drawings _ _ _ _ _ _ _ Hd)).
      - apply nth_error_None in Ep. rewrite nth_error_seq.
        destruct (Nat.ltb_spec i (Z.to_nat k)); [lia | reflexivity]. }
    unfold drawnTexts; rewrite Hmap.
    rewrite <- (map_map (entriesOnPage entries epp) (map g)), <- concat_map.
    f_equal. rewrite <- (renderedTocPages_lines config).
    exact (proj1 (renderedTocPages_cover config entries epp k Hpos Hk)).
  - intros e He. pose proof (minLevelAll_least entries e He). lia.
  - lia.
  - intros i p Hp.
    destruct (drawPage_entries _ _ _ _ _ _ _ (Hpages i p Hp)) as (y & _ & _ & _ & Ht).
    rewrite Ht. split.
    + intros ->; reflexivity.
    + intros Hi; apply Nat.eqb_neq in Hi; now rewrite Hi.
Qed.

Lemma renderTocContent_draws_every_entry_witness :
  exists pagesD,
    renderTocContent smallContext
      {| enabled := true; title := "Contents"; minLevel := 1; maxLevel := 3;
         numbered := true; showPageNumbers := true |} twoEntries 0 (Z.to_nat 1) 3
    = Returned pagesD
    /\ drawnTexts pagesD = [("1  One", 40%Q); ("1.1  Two", (40 + 20)%Q)].
Proof.
  assert (Hk : tocPageCountOf (length twoEntries) 3 = Some 1) by reflexivity.
  destruct (renderTocContent_draws_every_entry smallContext
              {| enabled := true; title := "Contents"; minLevel := 1; maxLevel := 3;
                 numbered := true; showPageNumbers := true |} twoEntries 0%nat 3 1
              ltac:(lia) Hk) as [Hret Hdrawn].
  assert (Hpg : (0 + Z.to_nat 1 <= length (pages smallContext))%nat)
    by (vm_compute; lia).
  destruct (Hret sixPointsEach_accepts sixPointsEach_nonneg Hpg) as [pagesD E].
  exists pagesD; split; [exact E |].
  exact (proj1 (Hdrawn pagesD E)).
Defined.

(** X20: when the [entriesPerPage] lines handed to the renderer fit the
    room the values of the page leave below the title, every call the
    renderer makes for an entry (text, page number, dots) lies at least
    one line height above the bottom margin and not above the top
    margin; the title sits at the top margin.  The [entriesPerPage] that
    [insertTocPages] computes fits that room on a page of 300 x 200
    points with margins of 40, on one of 595.28 points with margins of
    56.59 and 56.69, and on one of 147.14 points with margins of 67.68
    and 37.46. *)
Theorem renderTocContent_within_margins :
  (forall (ctx : LayoutContext) (config : ResolvedTocConfig)
          (entries : list TocEntry) (startPageIndex tocPageCount : nat) (epp : Z)
          (pagesD : list PageDrawing),
      (inject_Z epp * 20 <= exactRoom ctx)%Q ->
      renderTocContent ctx config entries startPageIndex tocPageCount epp
      = Returned pagesD ->
      forall p, In p pagesD ->
        (forall d c, In d (pd_entries p) -> In c (entryCalls d) ->
                     (marginBottom ctx + 20 <= dt_y c)%Q
                     /\ (dt_y c <= pageHeight ctx - marginTop ctx)%Q)
        /\ (forall t, pd_title p = Some t ->
                      dt_y t = (pageHeight ctx - marginTop ctx)%Q))
  /\ (inject_Z (entriesPerPage smallContext) * 20 <= exactRoom smallContext)%Q
  /\ (inject_Z (entriesPerPage landscapeContext) * 20 <= exactRoom landscapeContext)%Q
  /\ (inject_Z (entriesPerPage edgeContext) * 20 <= exactRoom edgeContext)%Q.
Proof.
  split; [| repeat split; vm_compute; discriminate].
  intros ctx config entries start n epp pagesD Hfit H p Hp.
  destruct (renderTocContent_pages _ _ _ _ _ _ _ H) as [_ Hpages].
  apply In_nth_error in Hp as [i Hi].
  destruct (drawPage_entries _ _ _ _ _ _ _ (Hpages i p Hi))
    as (y & Hd & Hylo & Hyhi & Ht).
  split.
  - intros d c Hdin Hc.
    destruct (drawEntries_drawings _ _ _ _ _ _ _ Hd) as (_ & _ & Hys).
    destruct (entriesOnPage_length entries epp i) as [E | [Hpos Hlen]].
    + rewrite E in Hd. simpl in Hd. injection Hd as Hd. rewrite <- Hd in Hdin.
      destruct Hdin.
    + assert (Hlow : (marginBottom ctx + 20
                      <= y - 20 * inject_Z (Z.of_nat
                                              (length (entriesOnPage entries epp i)))
                         + 20)%Q).
      { rewrite Zle_Qle in Hlen.
        unfold exactRoom, TOC_TITLE_FONT_SIZE, TOC_TITLE_MARGIN_BOTTOM in Hfit.
        lra. }
      destruct (Hys _ Hlow d c Hdin Hc) as [H1 H2]. split; lra.
  - intros t Htitle. rewrite Ht in Htitle.
    destruct (i =? 0)%nat; [| discriminate]. now injection Htitle as <-.
Qed.

Lemma renderTocContent_within_margins_witness :
  match renderTocContent smallContext (configWithLevels 1 3) twoEntries 0 1
          (entriesPerPage smallContext)
  with
  | Returned pagesD =>
      forall p, In p pagesD ->
        (forall d c, In d (pd_entries p) -> In c (entryCalls d) ->
                     (marginBottom smallContext + 20 <= dt_y c)%Q
                     /\ (dt_y c <= pageHeight smallContext - marginTop smallContext)%Q)
        /\ (forall t, pd_title p = Some t ->
                      dt_y t = (pageHeight smallContext - marginTop smallContext)%Q)
  | _ => False
  end.
Proof.
  destruct (renderTocContent smallContext (configWithLevels 1 3) twoEntries 0 1
              (entriesPerPage smallContext)) as [pagesD | |] eqn:E;
    [| vm_compute in E; discriminate | vm_compute in E; discriminate].
  apply (proj1 renderTocContent_within_margins smallContext (configWithLevels 1 3)
           twoEntries 0%nat 1%nat (entriesPerPage smallContext) pagesD); [| exact E].
  vm_compute; discriminate.
Defined.

(** X21: with widths that are not negative, for every entry the
    renderer has drawn when it returns: the page number ends at the
    right margin; every dot of the leader starts at least 8 points after
    the end of the text and ends more than 8 points before the page
    number, on the line of the text; there is no dot when no page number
    is drawn, nor when the gap is too small for one. *)
Theorem renderTocContent_leaders :
  forall (ctx : LayoutContext) (config : ResolvedTocConfig)
         (entries : list TocEntry) (startPageIndex tocPageCount : nat) (epp : Z)
         (pagesD : list PageDrawing),
    widthsNotNegative ctx ->
    renderTocContent ctx config entries startPageIndex tocPageCount epp
    = Returned pagesD ->
    forall p d, In p pagesD -> In d (pd_entries p) ->
      leaderWithinGap ctx d
      /\ pageNumberAtRightMargin ctx d
      /\ (gapTooSmall ctx d -> ed_dots d = []).
Proof.
  intros ctx config entries start n epp pagesD Hnn H p d Hp Hd.
  destruct (renderTocContent_pages _ _ _ _ _ _ _ H) as [_ Hpages].
  apply In_nth_error in Hp as [i Hi].
  destruct (drawPage_entries _ _ _ _ _ _ _ (Hpages i p Hi)) as (y & Hds & _).
  destruct (drawEntries_drawings _ _ _ _ _ _ _ Hds) as (_ & Hall & _).
  rewrite Forall_forall in Hall. destruct (Hall d Hd) as (Hgap & Hright & Hsmall).
  auto.
Qed.

Lemma renderTocContent_leaders_witness :
  match renderTocContent smallContext (configWithLevels 1 3) twoEntries 0 1 3 with
  | Returned pagesD =>
      forall p d, In p pagesD -> In d (pd_entries p) ->
        leaderWithinGap smallContext d
        /\ pageNumberAtRightMargin smallContext d
        /\ (gapTooSmall smallContext d -> ed_dots d = [])
  | _ => False
  end.
Proof.
  destruct (renderTocContent smallContext (configWithLevels 1 3) twoEntries 0 1 3)
    as [pagesD | |] eqn:E;
    [| vm_compute in E; discriminate | vm_compute in E; discriminate].
  exact (renderTocContent_leaders smallContext _ _ _ _ _ pagesD sixPointsEach_nonneg E).
Defined.

(** X26: asked for at least one page, [renderTocContent] throws when
    the page list has no page at [startPageIndex]: the title of the
    first TOC page is drawn on a page that is not there. *)
Theorem renderTocContent_without_page :
  forall (ctx : LayoutContext) (config : ResolvedTocConfig)
         (entries : list TocEntry) (startPageIndex tocPageCount : nat) (epp : Z),
    (0 < tocPageCount)%nat ->
    (length (pages ctx) <= startPageIndex)%nat ->
    renderTocContent ctx config entries startPageIndex tocPageCount epp = Throws.
Proof.
  intros ctx config entries start n epp Hn Hpg.
  destruct n as [| n]; [lia |].
  unfold renderTocContent. cbn [seq drawPages]. unfold drawPage.
  rewrite draw_eq. cbn [Nat.eqb].
  rewrite (proj2 (Nat.ltb_ge _ _)) by lia. reflexivity.
Qed.

Lemma renderTocContent_without_page_witness :
  renderTocContent (withPages smallContext []) (configWithLevels 1 3) twoEntries 0 1 3
  = Throws.
Proof.
  apply (renderTocContent_without_page (withPages smallContext []) (configWithLevels 1 3)
           twoEntries 0 1 3).
  - lia.
  - simpl; lia.
Defined.

(* ===================================================================== *)
(** * The page count, and how the call ends *)
(* ===================================================================== *)

Section PageCount.

Lemma tocPageCountOf_negative (n : nat) (epp : Z) :
  epp < 0 -> tocPageCountOf n epp = Some 1.
Proof.
  intros Hneg; unfold tocPageCountOf.
  destruct (Z.eqb_spec epp 0); [lia |]. rewrite Qceiling_div. f_equal.
  pose proof (Z.div_mod (- Z.of_nat n) epp ltac:(lia)) as Hdm.
  pose proof (Z.mod_neg_bound (- Z.of_nat n) epp Hneg) as Hb.
  assert (0 <= - Z.of_nat n / epp) by nia. lia.
Qed.

Lemma entriesOnPage_negative (entries : list TocEntry) (epp : Z) :
  epp < 0 -> entriesOnPage entries epp 0 = [].
Proof.
  intros Hneg; unfold entriesOnPage.
  replace (Z.to_nat _) with 0%nat by lia. reflexivity.
Qed.

Lemma renderedTocPages_negative (config : ResolvedTocConfig) (entries : list TocEntry)
  (epp : Z) :
  epp < 0 ->
  renderedTocPages config entries (Z.to_nat 1) epp = [TocPage (Some (title config)) []].
Proof.
  intros Hneg. change (Z.to_nat 1) with 1%nat. unfold renderedTocPages.
  change (seq 0 1) with [0%nat]. cbn [map Nat.eqb].
  now rewrite (entriesOnPage_negative _ _ Hneg).
Qed.

Lemma insertIndex_within (ctx : LayoutContext) (hasCoverPage : bool) :
  (hasCoverPage = true -> pages ctx <> []) ->
  (Nat.b2n hasCoverPage <=? length (pages ctx))%nat = true.
Proof.
  intros Hcover. apply Nat.leb_le. destruct hasCoverPage; simpl; [| lia].
  specialize (Hcover eq_refl); destruct (pages ctx); [congruence | simpl; lia].
Qed.

(** The pages put in are there when the renderer looks for them. *)
Lemma insertedPages_in_place (ctx : LayoutContext) (config : ResolvedTocConfig)
  (entries : list TocEntry) (hasCoverPage : bool) (n : nat) (epp : Z) :
  (hasCoverPage = true -> pages ctx <> []) ->
  (Nat.b2n hasCoverPage + n
   <= length (pages (withPages ctx
                       (splice (pages ctx) (Nat.b2n hasCoverPage)
                          (renderedTocPages config entries n epp)))))%nat.
Proof.
  intros Hcover. cbn [pages withPages].
  rewrite splice_length, renderedTocPages_length.
  pose proof (insertIndex_within ctx hasCoverPage Hcover) as H.
  apply Nat.leb_le in H. lia.
Qed.


End PageCount.

(** X17: with at least one entry and a cover page in place if one is
    announced: when [entriesPerPage] is 0 the page count is infinite and
    the call does not return; when it is negative the call puts in one
    TOC page that carries the title and no entry (it throws if the
    surface does not draw the title).  [entriesPerPage] is the floor of
    the quotient of numbers, not of values: a page of 100 points with
    margins of 20 leaves 18 points and gives 0; a page of 147.14 points
    with margins of 67.68 and 37.46 leaves 0 points by the values and a
    little less by the numbers, and gives -1 and one page. *)
Theorem insertTocPages_cramped_page :
  (forall (ctx : LayoutContext) (tocConfig : option TableOfContents)
          (config : ResolvedTocConfig) (content : list SchemaContentElement)
          (hasCoverPage : bool),
      resolveTocConfig tocConfig = Some config ->
      extractTocEntries content config <> [] ->
      (hasCoverPage = true -> pages ctx <> []) ->
      let insertIndex := if hasCoverPage then 1%nat else 0%nat in
      (entriesPerPage ctx = 0 ->
       insertTocPages ctx tocConfig (Some content) hasCoverPage = Diverges)
      /\ (entriesPerPage ctx < 0 ->
          insertTocPages ctx tocConfig (Some content) hasCoverPage
          = if drawText ctx HelveticaBold (title config)
            then Returned
                   (1, withPages ctx
                         (firstn insertIndex (pages ctx)
                          ++ [TocPage (Some (title config)) []]
                          ++ skipn insertIndex (pages ctx)))
            else Throws))
  /\ (exactRoom crampedContext == 18)%Q
  /\ entriesPerPage crampedContext = 0
  /\ (exactRoom edgeContext == 0)%Q
  /\ entriesPerPage edgeContext = -1
  /\ insertTocPages edgeContext (Some tocEnabled) (Some [Heading 1 "One"]) false
     = Returned (1, withPages edgeContext
                      [TocPage (Some "Table of Contents") []; LaidOutPage 0]).
Proof.
  split; [| repeat split; vm_compute; reflexivity].
  intros ctx tocConfig config content hasCoverPage Hcfg Hne Hcover insertIndex.
  rewrite (insertTocPages_entries ctx tocConfig config content hasCoverPage Hcfg Hne).
  rewrite (insertIndex_within ctx hasCoverPage Hcover).
  split.
  - intros ->. reflexivity.
  - intros Hneg. rewrite (tocPageCountOf_negative _ _ Hneg). cbv zeta.
    pose proof (insertedPages_in_place ctx config
                  (tocEntriesOf ctx config content hasCoverPage) hasCoverPage
                  (Z.to_nat 1) (entriesPerPage ctx) Hcover) as Hpg.
    change (Z.to_nat 1) with 1%nat in *. unfold renderTocContent.
    cbn [seq drawPages].
    rewrite (drawPage_no_entry _ config _ _ _ 0 (entriesOnPage_negative _ _ Hneg)).
    cbn [Nat.eqb].
    rewrite (proj2 (Nat.ltb_lt _ _)) by lia.
    cbn [andb drawText withPages].
    destruct (drawText ctx HelveticaBold (title config)); cbn [bind]; [| reflexivity].
    pose proof (renderedTocPages_negative config
                  (tocEntriesOf ctx config content hasCoverPage) _ Hneg) as Hpages.
    change (Z.to_nat 1) with 1%nat in Hpages. rewrite Hpages. unfold splice.
    replace (Nat.b2n hasCoverPage) with insertIndex by (now destruct hasCoverPage).
    reflexivity.
Qed.

Lemma insertTocPages_cramped_page_witness :
  insertTocPages crampedContext (Some tocEnabled) (Some [Heading 1 "One"]) false
  = Diverges.
Proof.
  apply (proj1 (proj1 insertTocPages_cramped_page
                  crampedContext (Some tocEnabled) (configWithLevels 1 3)
                  [Heading 1 "One"] false
                  eq_refl ltac:(vm_compute; discriminate) ltac:(discriminate))).
  vm_compute; reflexivity.
Defined.




(** X25: how [insertTocPages] throws once there is an entry.  With a
    cover page announced and no page in the document the first page
    insertion throws, whatever the room on the page.  With the pages in
    place and a page count that is finite, the call throws when the
    surface does not draw the title, and when at least one entry fits a
    page and the surface cannot measure the text of the first entry.  A
    heading that holds a tabulator, on a surface that cannot encode
    one, makes the call throw. *)
Theorem insertTocPages_throws :
  (forall (ctx : LayoutContext) (tocConfig : option TableOfContents)
          (config : ResolvedTocConfig) (content : list SchemaContentElement),
      resolveTocConfig tocConfig = Some config ->
      extractTocEntries content config <> [] ->
      pages ctx = [] ->
      insertTocPages ctx tocConfig (Some content) true = Throws)
  /\ (forall (ctx : LayoutContext) (tocConfig : option TableOfContents)
             (config : ResolvedTocConfig) (content : list SchemaContentElement)
             (hasCoverPage : bool) (k : Z),
         resolveTocConfig tocConfig = Some config ->
         extractTocEntries content config <> [] ->
         (hasCoverPage = true -> pages ctx <> []) ->
         tocPageCountOf (length (extractTocEntries content config)) (entriesPerPage ctx)
         = Some k ->
         (drawText ctx HelveticaBold (title config) = false
          \/ (0 < entriesPerPage ctx
              /\ exists e rest,
                  tocEntriesOf ctx config content hasCoverPage = e :: rest
                  /\ widthOfTextAtSize ctx Helvetica (displayText config e)
                       TOC_ENTRY_FONT_SIZE = None)) ->
         insertTocPages ctx tocConfig (Some content) hasCoverPage = Throws)
  /\ insertTocPages (withWidths smallContext rejectsTab) (Some tocEnabled)
       (Some [Heading 1 tabbedText]) true
     = Throws
  /\ insertTocPages (withPages crampedContext []) (Some tocEnabled)
       (Some [Heading 1 "One"]) true
     = Throws.
Proof.
  split; [| split; [| split; vm_compute; reflexivity]].
  - intros ctx tocConfig config content Hcfg Hne Hnone.
    rewrite (insertTocPages_entries ctx tocConfig config content true Hcfg Hne).
    now rewrite Hnone.
  - intros ctx tocConfig config content hasCoverPage k Hcfg Hne Hcover Hk Hbad.
    rewrite (insertTocPages_entries ctx tocConfig config content hasCoverPage Hcfg Hne).
    rewrite (insertIndex_within ctx hasCoverPage Hcover), Hk. cbv zeta.
    pose proof (tocPageCountOf_positive _ _ _ Hk) as Hk1.
    destruct (Z.to_nat k) as [| n] eqn:En; [lia |].
    unfold renderTocContent. cbn [seq drawPages].
    match goal with
    | |- bind ?page _ = _ => assert (Hpage : page = Throws)
    end.
    { unfold drawPage; rewrite draw_eq; cbn [dt_font dt_text Nat.eqb drawText withPages].
      destruct (_ <? _)%nat; [| reflexivity]. cbn [andb].
      destruct (drawText ctx HelveticaBold (title config)) eqn:Ht; [| reflexivity].
      destruct Hbad as [Hbad | (Hpos & e & rest & He & Hw)]; [discriminate |].
      cbn [bind]. rewrite (entriesOnPage_chunk _ _ 0 Hpos), He.
      destruct (Z.to_nat (entriesPerPage ctx)) as [| m] eqn:Em; [lia |].
      cbn [Nat.mul skipn firstn drawEntries]. unfold drawEntry, measure.
      cbn [widthOfTextAtSize withPages].
      rewrite <- He, Hw. reflexivity. }
    rewrite Hpage. reflexivity.
Qed.

(* ===================================================================== *)
(** * Extraction, numbering, matching and insertion together *)
(* ===================================================================== *)

Section Pipeline.

Lemma extractTocEntries_levels_only (content : list SchemaContentElement)
  (config config' : ResolvedTocConfig) :
  minLevel config = minLevel config' ->
  maxLevel config = maxLevel config' ->
  extractTocEntries content config = extractTocEntries content config'.
Proof.
  intros Hmin Hmax.
  induction content as [| el content IH]; [reflexivity |].
  rewrite !extractTocEntries_cons, IH. f_equal.
  destruct el; simpl; try reflexivity. now rewrite Hmin, Hmax.
Qed.

Lemma numberEntries_text (base : Z) (counters : list JsValue) (entries : list TocEntry) :
  map text (numberEntries base counters entries) = map text entries.
Proof.
  revert counters; induction entries as [| e entries IH]; intros counters; simpl;
    [reflexivity | now rewrite IH].
Qed.

Lemma assignNumbering_text (entries : list TocEntry) :
  map text (assignNumbering entries) = map text entries.
Proof. destruct entries; [reflexivity | apply numberEntries_text]. Qed.

Lemma matchEntries_by_text (hs : list DrawnElement) (hasCoverPage : bool)
  (a : list TocEntry) :
  forall (b : list TocEntry) (c : nat),
    map text a = map text b ->
    map pageNumber a = map pageNumber b ->
    fst (matchEntries hs hasCoverPage c a) = fst (matchEntries hs hasCoverPage c b)
    /\ map pageNumber (snd (matchEntries hs hasCoverPage c a))
       = map pageNumber (snd (matchEntries hs hasCoverPage c b)).
Proof.
  induction a as [| x a IH]; intros [| y b] c Ht Hp; try discriminate;
    [split; reflexivity |].
  simpl in Ht, Hp. injection Ht as Hxy Ht. injection Hp as Hpxy Hp.
  rewrite !matchEntries_cons. cbn [fst snd map].
  assert (Hstep : fst (matchEntry hs hasCoverPage c x) = fst (matchEntry hs hasCoverPage c y)
                  /\ pageNumber (snd (matchEntry hs hasCoverPage c x))
                     = pageNumber (snd (matchEntry hs hasCoverPage c y))).
  { unfold matchEntry, defaultPageNumber. rewrite Hxy.
    destruct (searchForward (skipn c hs) c (text y)) as [[j p] |]; simpl;
      [split; reflexivity |].
    rewrite Hpxy. destruct (pageNumber y) eqn:Ey; simpl; split; congruence. }
  destruct Hstep as [Hc Hpn]. rewrite Hc, Hpn.
  destruct (IH b (fst (matchEntry hs hasCoverPage c y)) Ht Hp) as [Hf Hs].
  split; [exact Hf | now rewrite Hs].
Qed.

Lemma matchEntries_text (hs : list DrawnElement) (hasCoverPage : bool)
  (es : list TocEntry) :
  forall c, map text (snd (matchEntries hs hasCoverPage c es)) = map text es.
Proof.
  induction es as [| e es IH]; intros c; [reflexivity |].
  rewrite matchEntries_cons; cbn [snd map]. rewrite IH. f_equal.
  pose proof (matchEntry_keeps hs hasCoverPage c e) as K.
  now apply (f_equal text) in K.
Qed.

Lemma preparedEntries_texts (config : ResolvedTocConfig)
  (content : list SchemaContentElement) :
  map text (preparedEntries config content) = map text (extractTocEntries content config)
  /\ map pageNumber (preparedEntries config content)
     = map pageNumber (extractTocEntries content config).
Proof.
  unfold preparedEntries; destruct (numbered config);
    [split; [apply assignNumbering_text | apply assignNumbering_pageNumber]
    | split; reflexivity].
Qed.

Lemma splice_shift (ps inserted : list Page) (idx n : nat) :
  (idx <= length ps)%nat ->
  (idx <= n)%nat ->
  nth_error (splice ps idx inserted) (n + length inserted) = nth_error ps n.
Proof.
  intros Hidx Hn; unfold splice.
  assert (Hf : length (firstn idx ps) = idx) by (rewrite length_firstn; lia).
  rewrite nth_error_app2 by lia. rewrite nth_error_app2 by lia.
  rewrite nth_error_skipn. f_equal. lia.
Qed.

End Pipeline.

(** X22: of the configuration, only the level range bears on the page
    numbers: two configurations with the same [minLevel] and [maxLevel]
    (numbered or not, whatever title) give the same entry texts and the
    same page numbers, and [insertTocPages] returns the same count. *)
Theorem page_numbers_depend_on_levels_only :
  forall (ctx : LayoutContext) (config config' : ResolvedTocConfig)
         (content : list SchemaContentElement) (hasCoverPage : bool),
    minLevel config = minLevel config' ->
    maxLevel config = maxLevel config' ->
    map text (tocEntriesOf ctx config content hasCoverPage)
    = map text (tocEntriesOf ctx config' content hasCoverPage)
    /\ map pageNumber (tocEntriesOf ctx config content hasCoverPage)
       = map pageNumber (tocEntriesOf ctx config' content hasCoverPage)
    /\ tocPageCountOf (length (tocEntriesOf ctx config content hasCoverPage))
         (entriesPerPage ctx)
       = tocPageCountOf (length (tocEntriesOf ctx config' content hasCoverPage))
           (entriesPerPage ctx).
Proof.
  intros ctx config config' content hasCoverPage Hmin Hmax.
  pose proof (extractTocEntries_levels_only content config config' Hmin Hmax) as Hex.
  destruct (preparedEntries_texts config content) as [Ht Hp].
  destruct (preparedEntries_texts config' content) as [Ht' Hp'].
  rewrite Hex in Ht, Hp. rewrite <- Ht' in Ht. rewrite <- Hp' in Hp.
  unfold tocEntriesOf, assignPageNumbersFromDrawnElements.
  split; [| split].
  - now rewrite !matchEntries_text.
  - exact (proj2 (matchEntries_by_text _ hasCoverPage _ _ 0%nat Ht Hp)).
  - rewrite !matchEntries_length, !preparedEntries_length, Hex. reflexivity.
Qed.

Lemma page_numbers_depend_on_levels_only_witness :
  map text (tocEntriesOf smallContext (configWithLevels 1 3) sevenHeadings true)
  = map text
      (tocEntriesOf smallContext
         {| enabled := true; title := "Contents"; minLevel := 1; maxLevel := 3;
            numbered := true; showPageNumbers := false |} sevenHeadings true)
  /\ map pageNumber (tocEntriesOf smallContext (configWithLevels 1 3) sevenHeadings true)
     = map pageNumber
         (tocEntriesOf smallContext
            {| enabled := true; title := "Contents"; minLevel := 1; maxLevel := 3;
               numbered := true; showPageNumbers := false |} sevenHeadings true)
  /\ tocPageCountOf
       (length (tocEntriesOf smallContext (configWithLevels 1 3) sevenHeadings true))
       (entriesPerPage smallContext)
     = tocPageCountOf
         (length
            (tocEntriesOf smallContext
               {| enabled := true; title := "Contents"; minLevel := 1; maxLevel := 3;
                  numbered := true; showPageNumbers := false |} sevenHeadings true))
         (entriesPerPage smallContext).
Proof.
  apply (page_numbers_depend_on_levels_only smallContext (configWithLevels 1 3)
           {| enabled := true; title := "Contents"; minLevel := 1; maxLevel := 3;
              numbered := true; showPageNumbers := false |} sevenHeadings true);
    reflexivity.
Defined.

(** X23: after a call of [insertTocPages] that returns, the page number
    of an entry that matched a heading drawn on a content page, counted
    from the [startPage] that [adjustPageNumberOffset] gives for the
    returned count, is the page on which that heading lies in the new
    page list: the same page object the layout pass drew it on. *)
Theorem toc_entry_points_to_heading_page :
  forall (ctx ctx' : LayoutContext) (tocConfig : option TableOfContents)
         (config : ResolvedTocConfig) (content : list SchemaContentElement)
         (hasCoverPage : bool) (k : Z) (j : nat) (e : TocEntry) (i : nat)
         (el : DrawnElement),
    resolveTocConfig tocConfig = Some config ->
    insertTocPages ctx tocConfig (Some content) hasCoverPage = Returned (k, ctx') ->
    nth_error (preparedEntries config content) j = Some e ->
    firstMatchFrom (headingElementsOf (drawnElements ctx))
      (cursorBefore (preparedEntries config content) (drawnElements ctx) hasCoverPage j)
      (text e) i el ->
    (if hasCoverPage then 2 else 1) <= de_page el ->
    exists r p,
      nth_error (tocEntriesOf ctx config content hasCoverPage) j = Some r
      /\ pageNumber r = Some p
      /\ p + startPage (adjustPageNumberOffset k hasCoverPage
                          (Z.of_nat (length (pages ctx'))))
         = de_page el + k
      /\ nth_error (pages ctx')
           (Z.to_nat (p + startPage (adjustPageNumberOffset k hasCoverPage
                                       (Z.of_nat (length (pages ctx')))) - 1))
         = nth_error (pages ctx) (Z.to_nat (de_page el - 1)).
Proof.
  intros ctx ctx' tocConfig config content hasCoverPage k j e i el
    Hcfg Hret Hj Hm Hpage.
  destruct (matchEntries_nth (headingElementsOf (drawnElements ctx)) hasCoverPage 0
              (preparedEntries config content) j e Hj) as [Hr _].
  unfold cursorBefore in Hm.
  rewrite (matchEntry_hit _ hasCoverPage _ e i el Hm) in Hr. cbn [snd] in Hr.
  exists (setPageNumber e (Some (shownPage hasCoverPage el))), (shownPage hasCoverPage el).
  split; [exact Hr | split; [reflexivity |]].
  assert (Hsum : shownPage hasCoverPage el
                 + startPage (adjustPageNumberOffset k hasCoverPage
                                (Z.of_nat (length (pages ctx'))))
                 = de_page el + k).
  { unfold shownPage, adjustPageNumberOffset; cbn [startPage]. destruct hasCoverPage; lia. }
  split; [exact Hsum |]. rewrite Hsum.
  assert (Hone : 1 <= de_page el) by (destruct hasCoverPage; lia).
  destruct (insertTocPages_returned _ _ _ _ _ _ Hret)
    as [(-> & -> & _) | (config' & c & _ & _ & _ & Hk & Hidx & ->)].
  - f_equal; lia.
  - apply tocPageCountOf_positive in Hk. cbn [pages withPages].
    set (inserted := renderedTocPages _ _ _ _).
    assert (Hlen : length inserted = Z.to_nat k) by apply renderedTocPages_length.
    replace (Z.to_nat (de_page el + k - 1))
      with (Z.to_nat (de_page el - 1) + length inserted)%nat by lia.
    apply splice_shift; [exact Hidx |]. destruct hasCoverPage; simpl; lia.
Qed.

Lemma toc_entry_points_to_heading_page_witness :
  exists r p,
    nth_error (tocEntriesOf smallContext (configWithLevels 1 3) sevenHeadings true) 4
    = Some r
    /\ pageNumber r = Some p
    /\ p + startPage (adjustPageNumberOffset 3 true 6) = 3 + 3
    /\ nth_error
         (pages (withPages smallContext
                   (splice (pages smallContext) 1
                      (renderedTocPages (configWithLevels 1 3)
                         (tocEntriesOf smallContext (configWithLevels 1 3)
                            sevenHeadings true) 3 3))))
         (Z.to_nat (p + startPage (adjustPageNumberOffset 3 true 6) - 1))
       = nth_error (pages smallContext) (Z.to_nat (3 - 1)).
Proof.
  apply (toc_entry_points_to_heading_page smallContext _ (Some tocEnabled)
           (configWithLevels 1 3) sevenHeadings true 3 4 (plainEntry 2 "Five")
           4 (drawnHeading "Five" 3)).
  - reflexivity.
  - vm_compute; reflexivity.
  - reflexivity.
  - unfold firstMatchFrom. split; [vm_compute; lia |].
    split; [reflexivity |]. split; [reflexivity |].
    intros x el' [Hlo Hhi]. vm_compute in Hlo. lia.
  - simpl; lia.
Defined.

(* ===================================================================== *)
(** * [parsePublishOptions] *)
(* ===================================================================== *)

(** X24: the options [parsePublishOptions] returns are always usable:
    the method is "branch" (only for the input "branch", spelled so) or
    "pages-api", the branch and the index title are never empty; and
    parsing the fields of a parsed result again gives that result. *)
Theorem parsePublishOptions_normal :
  forall (publish : bool) (publishMethod pagesBranch : string)
         (generateIndex : bool) (indexTitle : string),
    let o := parsePublishOptions publish publishMethod pagesBranch generateIndex indexTitle in
    (po_method o = "branch" \/ po_method o = "pages-api")
    /\ (po_method o = "branch" <-> publishMethod = "branch")
    /\ po_branch o <> ""
    /\ po_indexTitle o <> ""
    /\ parsePublishOptions (po_enabled o) (po_method o) (po_branch o)
         (po_generateIndex o) (po_indexTitle o) = o.
Proof.
  intros publish publishMethod pagesBranch generateIndex indexTitle o.
  assert (Hor : forall s d, d <> "" -> orDefault s d <> ""
                            /\ orDefault (orDefault s d) d = orDefault s d).
  { intros s d Hd; unfold orDefault.
    destruct (String.eqb_spec s "") as [-> | Hs].
    - split; [exact Hd |]. destruct (String.eqb_spec d ""); [contradiction | reflexivity].
    - split; [exact Hs |]. destruct (String.eqb_spec s ""); [contradiction | reflexivity]. }
  destruct (Hor pagesBranch "gh-pages" ltac:(discriminate)) as [Hb Hb'].
  destruct (Hor indexTitle "Generated Documents" ltac:(discriminate)) as [Ht Ht'].
  subst o; unfold parsePublishOptions; cbn [po_enabled po_method po_branch
                                            po_generateIndex po_indexTitle].
  destruct (String.eqb_spec publishMethod "branch") as [-> | Hm].
  - repeat split; auto. simpl. now rewrite Hb', Ht'.
  - split; [now right |]. split; [split; [discriminate | contradiction] |].
    split; [exact Hb |]. split; [exact Ht |]. simpl. now rewrite Hb', Ht'.
Qed.
